(** * A shallow embedding of the Wordfeud API client (package [wordfeud])

    The development follows the two source files of the package: the
    transport layer ([request], [roundtrip], [extractSessionID]) and the
    client proper (error taxonomy, endpoint operations, data model with the
    [Placement] and [Timestamp] decoders).

    The fragments of the Go standard library the package calls
    ([unicode/utf8], [strconv], [encoding/json], [regexp], [crypto/sha1],
    [time], [net/http]) are modelled first, each in a module named after
    the Go package, as executable functions.  Go's [string] and [[]byte]
    are sequences of 8-bit bytes: both are Rocq [string]s, one [ascii] per
    byte.  Go's [int], [int64] and [rune] are [Z]. *)

From Stdlib Require Import ZArith String Ascii List Lia Bool DecimalString.
From Stdlib Require Import Floats.SpecFloat.
From Stdlib Require DecimalFacts DecimalPos DecimalN.
From stdpp Require Import base gmap strings.
Import ListNotations.

Open Scope string_scope.
Open Scope list_scope.
Open Scope Z_scope.

(** ** Bytes and strings *)

Definition byte_val (c : ascii) : Z := Z.of_N (N_of_ascii c).
Definition byte_of (z : Z) : ascii := ascii_of_N (Z.to_N z).

(** The double quote, and a text between double quotes. *)
Definition dquote : ascii := "034".
Definition quoted (s : string) : string := String dquote (s +:+ String dquote EmptyString).

(** JSON text written with an apostrophe for every double quote. *)
Fixpoint json_text (s : string) : string :=
  match s with
  | EmptyString => EmptyString
  | String c r => String (if Ascii.eqb c "'" then dquote else c) (json_text r)
  end.

(** [s[n:]] for [n <= len(s)]. *)
Fixpoint drop_bytes (n : nat) (s : string) : string :=
  match n, s with
  | O, _ => s
  | S n', String _ r => drop_bytes n' r
  | S _, EmptyString => EmptyString
  end.

(** The bytes of [s] in front of its suffix [rest]. *)
Definition consumed (s rest : string) : string :=
  substring 0 (String.length s - String.length rest) s.

(** [strconv.Itoa] and the [%d] verb of [fmt]. *)
Definition itoa (z : Z) : string := NilZero.string_of_int (Z.to_int z).

Definition hex_digit (z : Z) : ascii :=
  if z <? 10 then byte_of (48 + z) else byte_of (87 + z).

Definition is_digit (c : ascii) : bool :=
  (48 <=? byte_val c) && (byte_val c <=? 57).

(** Value of one hexadecimal digit, as [getu4] of [encoding/json] reads it. *)
Definition hex_val (c : ascii) : option Z :=
  let v := byte_val c in
  if (48 <=? v) && (v <=? 57) then Some (v - 48)
  else if (97 <=? v) && (v <=? 102) then Some (v - 97 + 10)
  else if (65 <=? v) && (v <=? 70) then Some (v - 65 + 10)
  else None.

(** ** [unicode/utf8] *)

Module utf8.

Definition RuneError : Z := 65533.      (* U+FFFD *)
Definition MaxRune : Z := 1114111.      (* U+10FFFF *)
Definition RuneSelf : Z := 128.
Definition UTFMax : nat := 4.

(** Continuation bytes lie in [locb, hicb]. *)
Definition locb : Z := 128.
Definition hicb : Z := 191.

(** The [first] table joined with [acceptRanges]: for a leading byte, the
    length of the sequence and the range accepted for the second byte;
    [None] for the bytes marked [xx] (0x80-0xC1 and 0xF5-0xFF), [size 1]
    for ASCII. *)
Definition first (p0 : Z) : option (nat * Z * Z) :=
  if p0 <? 128 then Some (1%nat, 0, 0)
  else if p0 <? 194 then None
  else if p0 <? 224 then Some (2%nat, locb, hicb)
  else if p0 =? 224 then Some (3%nat, 160, hicb)
  else if p0 <? 237 then Some (3%nat, locb, hicb)
  else if p0 =? 237 then Some (3%nat, locb, 159)
  else if p0 <? 240 then Some (3%nat, locb, hicb)
  else if p0 =? 240 then Some (4%nat, 144, hicb)
  else if p0 <? 244 then Some (4%nat, locb, hicb)
  else if p0 =? 244 then Some (4%nat, locb, 143)
  else None.

Definition in_range (lo hi b : Z) : bool := (lo <=? b) && (b <=? hi).

(** The part of [DecodeRune] behind a leading byte [p0] that announces [sz]
    bytes and accepts a second byte in [lo, hi]: the rune and its width, or
    [(RuneError, 1)] when a byte is missing or out of range.
    [rune(p0&mask2)<<6 | rune(b1&maskx)] and the like are written with
    [mod] and [*]. *)
Definition decode_tail (p0 : Z) (sz : nat) (lo hi : Z) (r0 : string) : Z * nat :=
  match r0 with
  | EmptyString => (RuneError, 1%nat)
  | String c1 r1 =>
    let b1 := byte_val c1 in
    if negb (in_range lo hi b1) then (RuneError, 1%nat)
    else if (sz <=? 2)%nat then ((p0 mod 32) * 64 + b1 mod 64, 2%nat)
    else
      match r1 with
      | EmptyString => (RuneError, 1%nat)
      | String c2 r2 =>
        let b2 := byte_val c2 in
        if negb (in_range locb hicb b2) then (RuneError, 1%nat)
        else if (sz <=? 3)%nat then
          ((p0 mod 16) * 4096 + (b1 mod 64) * 64 + b2 mod 64, 3%nat)
        else
          match r2 with
          | EmptyString => (RuneError, 1%nat)
          | String c3 _ =>
            let b3 := byte_val c3 in
            if negb (in_range locb hicb b3) then (RuneError, 1%nat)
            else ((p0 mod 8) * 262144 + (b1 mod 64) * 4096
                  + (b2 mod 64) * 64 + b3 mod 64, 4%nat)
          end
      end
  end.

(** [DecodeRune(p)]: the first rune of [p] and its width in bytes;
    [(RuneError, 0)] on empty input, [(RuneError, 1)] on an invalid or
    truncated encoding. *)
Definition DecodeRune (p : string) : Z * nat :=
  match p with
  | EmptyString => (RuneError, 0%nat)
  | String c0 r0 =>
    let p0 := byte_val c0 in
    match first p0 with
    | None => (RuneError, 1%nat)
    | Some (1%nat, _, _) => (p0, 1%nat)
    | Some (sz, lo, hi) => decode_tail p0 sz lo hi r0
    end
  end.

Definition is_surrogate (r : Z) : bool := (55296 <=? r) && (r <=? 57343).

Definition encode3 (r : Z) : string :=
  String (byte_of (224 + r / 4096))
    (String (byte_of (128 + (r / 64) mod 64))
      (String (byte_of (128 + r mod 64)) EmptyString)).

(** [EncodeRune]/[AppendRune]: the UTF-8 encoding of [r]; runes out of
    range and surrogates are encoded as [RuneError]. *)
Definition EncodeRune (r : Z) : string :=
  if (0 <=? r) && (r <=? 127) then String (byte_of r) EmptyString
  else if (0 <=? r) && (r <=? 2047) then
    String (byte_of (192 + r / 64))
      (String (byte_of (128 + r mod 64)) EmptyString)
  else if (r <? 0) || (MaxRune <? r) || is_surrogate r then encode3 RuneError
  else if r <=? 65535 then encode3 r
  else
    String (byte_of (240 + r / 262144))
      (String (byte_of (128 + (r / 4096) mod 64))
        (String (byte_of (128 + (r / 64) mod 64))
          (String (byte_of (128 + r mod 64)) EmptyString))).

(** What [DecodeRune] returns on a non-empty text: an ASCII byte, the
    width-1 error, or a rune of two, three or four bytes whose trailing
    bytes are all 0x80 or more and whose encoding is those very bytes. *)
Inductive decoded (c0 : ascii) (r0 : string) : Z -> nat -> Prop :=
| dec_ascii : byte_val c0 < 128 -> decoded c0 r0 (byte_val c0) 1
| dec_error : 128 <= byte_val c0 -> decoded c0 r0 RuneError 1
| dec_two c1 r1 rn :
    r0 = String c1 r1 -> 128 <= byte_val c0 -> 128 <= byte_val c1 ->
    128 <= rn <= 2047 ->
    EncodeRune rn = String c0 (String c1 EmptyString) ->
    decoded c0 r0 rn 2
| dec_three c1 c2 r2 rn :
    r0 = String c1 (String c2 r2) ->
    128 <= byte_val c0 -> 128 <= byte_val c1 -> 128 <= byte_val c2 ->
    2048 <= rn <= 65535 -> is_surrogate rn = false ->
    EncodeRune rn = String c0 (String c1 (String c2 EmptyString)) ->
    decoded c0 r0 rn 3
| dec_four c1 c2 c3 r3 rn :
    r0 = String c1 (String c2 (String c3 r3)) ->
    128 <= byte_val c0 -> 128 <= byte_val c1 -> 128 <= byte_val c2 -> 128 <= byte_val c3 ->
    65536 <= rn <= MaxRune ->
    EncodeRune rn = String c0 (String c1 (String c2 (String c3 EmptyString))) ->
    decoded c0 r0 rn 4.

(** [ValidString]: every position decodes to a rune other than a
    width-1 [RuneError]. *)
Fixpoint valid_from (fuel : nat) (s : string) : bool :=
  match s with
  | EmptyString => true
  | String _ _ =>
    match fuel with
    | O => false
    | S fuel' =>
      let '(r, size) := DecodeRune s in
      if (r =? RuneError) && (size =? 1)%nat then false
      else valid_from fuel' (drop_bytes size s)
    end
  end.

Definition ValidString (s : string) : bool := valid_from (String.length s) s.

End utf8.

(** ** [float64], [strconv.ParseFloat], [math.Modf]

    IEEE 754 binary64 values are [spec_float]s of precision 53 and maximal
    exponent 1024: [S754_finite s m e] is the number [(-1)^s * m * 2^e]. *)

Definition float64 : Type := spec_float.

Module f64.

Definition prec : Z := 53.
Definition emax : Z := 1024.

(** The float64 nearest to the integer [m * 2^e] (ties to even). *)
Definition of_Z_exp (m e : Z) : float64 := binary_normalize prec emax m e false.
Definition of_Z (m : Z) : float64 := of_Z_exp m 0.

Definition mul (x y : float64) : float64 := SFmul prec emax x y.
Definition is_finite (x : float64) : bool :=
  match x with S754_zero _ | S754_finite _ _ _ => true | _ => false end.

(** The integer obtained by discarding the fraction of a finite float. *)
Definition trunc (x : float64) : Z :=
  match x with
  | S754_finite s m e =>
    let a := match e with
             | Zneg p => Z.shiftr (Zpos m) (Zpos p)
             | _ => Z.shiftl (Zpos m) e
             end in
    if s then - a else a
  | _ => 0
  end.

(** The conversion [int64(x)] (and [int(x)] on 64-bit targets): the
    fraction is discarded; for NaN, infinities and values that do not
    fit, Go leaves the result to the implementation, and amd64 yields the
    smallest int64. *)
Definition to_int64 (x : float64) : Z :=
  if is_finite x && (- 2 ^ 63 <=? trunc x) && (trunc x <? 2 ^ 63)
  then trunc x else - 2 ^ 63.

(** The exact value of a finite float as a fraction [num / 2^k]. *)
Definition num_den (x : float64) : Z * Z :=
  match x with
  | S754_finite s m e =>
    let n := if s then Zneg m else Zpos m in
    match e with
    | Zneg p => (n, 2 ^ Zpos p)
    | _ => (n * 2 ^ e, 1)
    end
  | _ => (0, 1)
  end.

End f64.

Module math.

(** [Modf(f)]: integer and fractional part of [f], both with the sign of
    [f]; [Modf(+-Inf) = +-Inf, NaN] and [Modf(NaN) = NaN, NaN]. *)
Definition Modf (f : float64) : float64 * float64 :=
  match f with
  | S754_zero _ => (f, f)
  | S754_nan => (S754_nan, S754_nan)
  | S754_infinity _ => (f, S754_nan)
  | S754_finite s m e =>
    match e with
    | Zneg p =>
      let ip := Z.shiftr (Zpos m) (Zpos p) in
      let fp := Z.land (Zpos m) (Z.ones (Zpos p)) in
      ((if ip =? 0 then S754_zero s
        else binary_normalize f64.prec f64.emax (if s then - ip else ip) 0 s),
       (if fp =? 0 then S754_zero s
        else binary_normalize f64.prec f64.emax (if s then - fp else fp) e s))
    | _ => (f, S754_zero s)
    end
  end.

End math.

(** The value of [fp] is exactly what is left of the value of [f] when
    [f] is truncated to an integer, and lies strictly between -1 and 1:
    with [f = nf / df] and [fp = np / dp], [np / dp = nf / df - trunc f]. *)
Definition fraction_value (f fp : float64) : Prop :=
  let '(nf, df) := f64.num_den f in
  let '(np, dp) := f64.num_den fp in
  np * df = (nf - f64.trunc f * df) * dp /\ Z.abs np < dp.

(** [fp] is the fractional part of [f]: a finite float64 in canonical form
    (no NaN, no infinity) with that value. *)
Definition fraction_of (f fp : float64) : Prop :=
  valid_binary f64.prec f64.emax fp = true
  /\ f64.is_finite fp = true
  /\ fraction_value f fp.

Module strconv.

Fixpoint digits_val (acc : Z) (s : string) : Z :=
  match s with
  | EmptyString => acc
  | String c r => digits_val (10 * acc + (byte_val c - 48)) r
  end.

(** Leading decimal digits of [s] and the rest. *)
Fixpoint span_digits (s : string) : string * string :=
  match s with
  | String c r =>
    if is_digit c then let '(d, t) := span_digits r in (String c d, t)
    else (EmptyString, s)
  | EmptyString => (EmptyString, EmptyString)
  end.

(** A decimal literal [-? digits (. digits)? ([eE] [+-]? digits)?] read as
    sign, integer mantissa and power of ten. *)
Definition read_decimal (s : string) : bool * Z * Z :=
  let '(neg, s1) := match s with
                    | String "-" r => (true, r)
                    | String "+" r => (false, r)
                    | _ => (false, s)
                    end in
  let '(ip, s2) := span_digits s1 in
  let '(fp, s3) := match s2 with
                   | String "." r => span_digits r
                   | _ => (EmptyString, s2)
                   end in
  let ex := match s3 with
            | String c r =>
              if (byte_val c =? 101) || (byte_val c =? 69) then
                match r with
                | String "-" d => - digits_val 0 (fst (span_digits d))
                | String "+" d => digits_val 0 (fst (span_digits d))
                | _ => digits_val 0 (fst (span_digits r))
                end
              else 0
            | EmptyString => 0
            end in
  (neg, digits_val 0 (ip +:+ fp), ex - Z.of_nat (String.length fp)).

(** The float64 nearest to [m * 10^e10] for [m > 0] (ties to even).
    Beyond 10^310 every value overflows, and below 10^-400 every value
    rounds to zero, so the powers of ten stay small. *)
Definition round_decimal (neg : bool) (m e10 : Z) : float64 :=
  if m =? 0 then S754_zero neg
  else if 310 <? e10 then S754_infinity neg
  else if e10 + Z.of_nat (String.length (itoa m)) <? - 400 then S754_zero neg
  else if 0 <=? e10 then
    binary_normalize f64.prec f64.emax
      (if neg then - (m * 10 ^ e10) else m * 10 ^ e10) 0 neg
  else
    let '(q, e, l) :=
      SFdiv_core_binary f64.prec f64.emax m 0 (10 ^ (- e10)) 0 in
    binary_round_aux f64.prec f64.emax neg q e l.

(** [ParseFloat(s, 64)] on a decimal literal; [None] is the range error
    ([ErrRange]) returned with an infinite result. *)
Definition ParseFloat (s : string) : option float64 :=
  let '(neg, m, e10) := read_decimal s in
  match round_decimal neg m e10 with
  | S754_infinity _ => None
  | f => Some f
  end.

End strconv.

Module time.

(** An instant: seconds since the Unix epoch and nanoseconds within the
    second.  The location, which [Unix] sets to [Local], does not change
    the instant and is left out. *)
Record Time := { sec : Z; nsec : Z }.

Definition wrap64 (z : Z) : Z := (z + 2 ^ 63) mod 2 ^ 64 - 2 ^ 63.

(** [Unix(sec, nsec)]; [nsec] outside [0, 999999999] is carried into the
    seconds.  [/] of Go truncates toward zero ([Z.quot]). *)
Definition Unix (sec nsec : Z) : Time :=
  if (nsec <? 0) || (1000000000 <=? nsec) then
    let n := Z.quot nsec 1000000000 in
    let sec := wrap64 (sec + n) in
    let nsec := wrap64 (nsec - wrap64 (n * 1000000000)) in
    if nsec <? 0 then {| sec := wrap64 (sec - 1); nsec := wrap64 (nsec + 1000000000) |}
    else {| sec := sec; nsec := nsec |}
  else {| sec := sec; nsec := nsec |}.

End time.

(** ** Dynamic values and results *)

(** A value of interface type [any], as far as the package stores one: what
    [encoding/json] decodes into an [any] ([nil], [bool], [float64],
    [string], [[]any], [map[string]any]) and the [int] that
    [Placement.Array] stores. *)
#[warnings="-register-all"]
Inductive any : Type :=
| a_nil
| a_bool (b : bool)
| a_float64 (f : float64)
| a_string (s : string)
| a_int (n : Z)
| a_slice (l : list any)
| a_map (m : list (string * any)).

(** The Go arrays [[4]T]. *)
Definition array4 (T : Type) : Type := (T * T * T * T)%type.

(** ** [encoding/json] *)

Module json.

Inductive error : Type :=
| SyntaxError
    (* the input is not one JSON value; message and offset are left out *)
| UnmarshalTypeError (jsonValue : string) (goType : string)
    (* a JSON value that does not fit the Go type it is decoded into *)
| UnsupportedValue.
    (* Marshal of a value whose encoding is outside this model: a
       float64, slice or map inside an [any] *)

(** *** Encoding *)

(** [htmlSafeSet]: the ASCII bytes copied unescaped: 0x20..0x7F but for
    the double quote, the backslash, [<], [>] and [&]. *)
Definition htmlSafe (b : Z) : bool :=
  (32 <=? b) && (b <? 128)
  && negb ((b =? 34) || (b =? 92) || (b =? 60) || (b =? 62) || (b =? 38)).

Definition escape_byte (c : ascii) : string :=
  let b := byte_val c in
  if (b =? 92) || (b =? 34) then String "\" (String c EmptyString)
  else if b =? 8 then "\b"
  else if b =? 12 then "\f"
  else if b =? 10 then "\n"
  else if b =? 13 then "\r"
  else if b =? 9 then "\t"
  else String "\" (String "u" (String "0" (String "0"
         (String (hex_digit (b / 16)) (String (hex_digit (b mod 16)) EmptyString))))).

(** The escape written for a byte that is not UTF-8: that of U+FFFD. *)
Definition replacement_escape : string := "\ufffd".

(** The loop of [appendString(dst, src, escapeHTML = true)]: the text put
    between the quotes. *)
Fixpoint quote_body (fuel : nat) (s : string) : string :=
  match fuel, s with
  | _, EmptyString => EmptyString
  | O, _ => EmptyString
  | S fuel', String c r =>
    let b := byte_val c in
    if b <? utf8.RuneSelf then
      if htmlSafe b then String c (quote_body fuel' r)
      else escape_byte c +:+ quote_body fuel' r
    else
      let '(rn, size) := utf8.DecodeRune s in
      if (rn =? utf8.RuneError) && (size =? 1)%nat then
        replacement_escape +:+ quote_body fuel' r
      else if (rn =? 8232) || (rn =? 8233) then
        "\u202" +:+ String (hex_digit (rn mod 16)) (quote_body fuel' (drop_bytes size s))
      else
        substring 0 size s +:+ quote_body fuel' (drop_bytes size s)
  end.

(** A Go string as a JSON string literal. *)
Definition appendString (s : string) : string :=
  quoted (quote_body (String.length s) s).

Definition marshal_bool (b : bool) : string := if b then "true" else "false".

(** Members [(name, encoded value)] of a struct as a JSON object.  The
    names are the [json] tags of the package, none of which needs
    escaping. *)
Fixpoint join_members (ms : list (string * string)) : string :=
  match ms with
  | [] => EmptyString
  | [(k, v)] => quoted k +:+ String ":" v
  | (k, v) :: rest =>
    quoted k +:+ String ":" v +:+ String "," (join_members rest)
  end.

Definition marshal_object (ms : list (string * string)) : string :=
  String "{" (join_members ms +:+ "}").

Fixpoint join_elems (es : list string) : string :=
  match es with
  | [] => EmptyString
  | [e] => e
  | e :: rest => e +:+ String "," (join_elems rest)
  end.

Definition marshal_array (es : list string) : string :=
  String "[" (join_elems es +:+ "]").

(** [Marshal] of an [any] holding [nil], a [bool], an [int] or a
    [string]: the values [Placement.Array] stores are among them. *)
Definition marshal_any (a : any) : error + string :=
  match a with
  | a_nil => inr "null"
  | a_bool b => inr (marshal_bool b)
  | a_int n => inr (itoa n)
  | a_string s => inr (appendString s)
  | a_float64 _ | a_slice _ | a_map _ => inl UnsupportedValue
  end.

(** *** Decoding: the syntax of a JSON text *)

(** One JSON value.  Strings and member names are held unquoted; a number
    keeps its literal; an object member keeps, next to its value, the
    bytes of the input the value was read from (what a [RawMessage]
    receives). *)
#[warnings="-register-all"]
Inductive value : Type :=
| JNull
| JBool (b : bool)
| JNumber (lit : string)
| JString (s : string)
| JArray (elems : list value)
| JObject (members : list (string * string * value)).

Inductive parsed (A : Type) : Type :=
| Parsed (a : A) (rest : string)
| Invalid
| OutOfFuel.
Arguments Parsed {A} a rest.
Arguments Invalid {A}.
Arguments OutOfFuel {A}.

(** A result that did not run out of fuel and, when it is a value, left a
    rest shorter than [n]. *)
Definition within {A : Type} (n : nat) (x : parsed A) : Prop :=
  match x with
  | Parsed _ rest => (String.length rest < n)%nat
  | Invalid => True
  | OutOfFuel => False
  end.

Definition isSpace (c : ascii) : bool :=
  let b := byte_val c in (b =? 32) || (b =? 9) || (b =? 13) || (b =? 10).

Fixpoint skip_ws (s : string) : string :=
  match s with
  | String c r => if isSpace c then skip_ws r else s
  | EmptyString => s
  end.

(** Four hexadecimal digits as a number. *)
Definition hex4 (s : string) : option (Z * string) :=
  match s with
  | String a (String b (String c (String d r))) =>
    match hex_val a, hex_val b, hex_val c, hex_val d with
    | Some x, Some y, Some z, Some w => Some (x * 4096 + y * 256 + z * 16 + w, r)
    | _, _, _, _ => None
    end
  | _ => None
  end.

(** [getu4]: the number of an escape [\uXXXX] at the head of [s]. *)
Definition getu4 (s : string) : option (Z * string) :=
  match s with
  | String "\" (String "u" r) => hex4 r
  | _ => None
  end.

(** [utf16.DecodeRune]: the rune of a surrogate pair, [RuneError] when
    the two halves do not pair. *)
Definition utf16_DecodeRune (hi lo : Z) : Z :=
  if (55296 <=? hi) && (hi <? 56320) && (56320 <=? lo) && (lo <? 57344)
  then (hi - 55296) * 1024 + (lo - 56320) + 65536
  else utf8.RuneError.

Definition simple_escape (e : ascii) : option ascii :=
  let b := byte_val e in
  if (b =? 34) || (b =? 92) || (b =? 47) then Some e
  else if b =? 98 then Some (byte_of 8)
  else if b =? 102 then Some (byte_of 12)
  else if b =? 110 then Some (byte_of 10)
  else if b =? 114 then Some (byte_of 13)
  else if b =? 116 then Some (byte_of 9)
  else None.

Definition prepend (p : string) (r : parsed string) : parsed string :=
  match r with
  | Parsed s rest => Parsed (p +:+ s) rest
  | Invalid => Invalid
  | OutOfFuel => OutOfFuel
  end.

(** A string literal from behind its opening quote: the scanner's checks
    (no control byte, only the escapes of JSON) and [unquote] in one pass.
    Escaped surrogate halves that do not pair and bytes that are not
    UTF-8 become U+FFFD. *)
Fixpoint lex_string (fuel : nat) (s : string) : parsed string :=
  match fuel with
  | O => OutOfFuel
  | S fuel' =>
    match s with
    | EmptyString => Invalid
    | String c r =>
      let b := byte_val c in
      if b =? 34 then Parsed EmptyString r
      else if b =? 92 then
        match r with
        | EmptyString => Invalid
        | String e r1 =>
          match simple_escape e with
          | Some ch => prepend (String ch EmptyString) (lex_string fuel' r1)
          | None =>
            if byte_val e =? 117 then
              match hex4 r1 with
              | None => Invalid
              | Some (rr, r2) =>
                if utf8.is_surrogate rr then
                  match getu4 r2 with
                  | Some (rr1, r4) =>
                    if utf16_DecodeRune rr rr1 =? utf8.RuneError
                    then prepend (utf8.EncodeRune utf8.RuneError) (lex_string fuel' r2)
                    else prepend (utf8.EncodeRune (utf16_DecodeRune rr rr1))
                                 (lex_string fuel' r4)
                  | None => prepend (utf8.EncodeRune utf8.RuneError) (lex_string fuel' r2)
                  end
                else prepend (utf8.EncodeRune rr) (lex_string fuel' r2)
              end
            else Invalid
          end
        end
      else if b <? 32 then Invalid
      else if b <? utf8.RuneSelf then prepend (String c EmptyString) (lex_string fuel' r)
      else
        let '(rr, size) := utf8.DecodeRune s in
        prepend (utf8.EncodeRune rr) (lex_string fuel' (drop_bytes size s))
    end
  end.

Definition digits1 (s : string) : option (string * string) :=
  let '(d, r) := strconv.span_digits s in
  match d with EmptyString => None | _ => Some (d, r) end.

(** A number literal: an optional minus sign; a zero, or a nonzero digit
    and further digits; optionally a point and one or more digits;
    optionally [e] or [E], an optional sign and one or more digits. *)
Definition lex_number (s : string) : parsed string :=
  let '(sign, s1) := match s with
                     | String "-" r => ("-", r)
                     | _ => (EmptyString, s)
                     end in
  match s1 with
  | EmptyString => Invalid
  | String d r =>
    if negb (is_digit d) then Invalid
    else
      let '(ip, s2) := if byte_val d =? 48 then (String d EmptyString, r)
                       else let '(ds, t) := strconv.span_digits r in (String d ds, t) in
      let frac := match s2 with
                  | String "." t =>
                    match digits1 t with
                    | Some (ds, u) => Some (String "." ds, u)
                    | None => None
                    end
                  | _ => Some (EmptyString, s2)
                  end in
      match frac with
      | None => Invalid
      | Some (fp, s3) =>
        let ex := match s3 with
                  | String e t =>
                    if (byte_val e =? 101) || (byte_val e =? 69) then
                      let '(sg, u) := match t with
                                      | String "+" u => ("+", u)
                                      | String "-" u => ("-", u)
                                      | _ => (EmptyString, t)
                                      end in
                      match digits1 u with
                      | Some (ds, w) => Some (String e (sg +:+ ds), w)
                      | None => None
                      end
                    else Some (EmptyString, s3)
                  | EmptyString => Some (EmptyString, s3)
                  end in
        match ex with
        | None => Invalid
        | Some (ep, s4) => Parsed (sign +:+ ip +:+ fp +:+ ep) s4
        end
      end
  end.

(** [lex_number] in parts: the integer digits, the fraction, the sign of
    the exponent and the exponent. *)
Definition lex_integer (s1 : string) : option (string * string) :=
  match s1 with
  | EmptyString => None
  | String d r =>
    if negb (is_digit d) then None
    else Some (if byte_val d =? 48 then (String d EmptyString, r)
               else let '(ds, t) := strconv.span_digits r in (String d ds, t))
  end.

Definition lex_fraction (s2 : string) : option (string * string) :=
  match s2 with
  | String "." t =>
    match digits1 t with
    | Some (ds, u) => Some (String "." ds, u)
    | None => None
    end
  | _ => Some (EmptyString, s2)
  end.

Definition exponent_sign (t : string) : string * string :=
  match t with
  | String "+" u => ("+", u)
  | String "-" u => ("-", u)
  | _ => (EmptyString, t)
  end.

Definition lex_exponent (s3 : string) : option (string * string) :=
  match s3 with
  | String e t =>
    if (byte_val e =? 101) || (byte_val e =? 69) then
      let '(sg, u) := exponent_sign t in
      match digits1 u with
      | Some (ds, w) => Some (String e (sg +:+ ds), w)
      | None => None
      end
    else Some (EmptyString, s3)
  | EmptyString => Some (EmptyString, s3)
  end.

Definition number_sign (s : string) : string * string :=
  match s with
  | String "-" r => ("-", r)
  | _ => (EmptyString, s)
  end.

Definition lex_number_parts (s : string) : parsed string :=
  let '(sign, s1) := number_sign s in
  match lex_integer s1 with
  | None => Invalid
  | Some (ip, s2) =>
    match lex_fraction s2 with
    | None => Invalid
    | Some (fp, s3) =>
      match lex_exponent s3 with
      | None => Invalid
      | Some (ep, s4) => Parsed (sign +:+ ip +:+ fp +:+ ep) s4
      end
    end
  end.

(** A text behind the digits of a number literal that ends the literal:
    nothing, or a byte that is neither a digit nor one of [.], [e], [E]. *)
Definition number_end (t : string) : bool :=
  match t with
  | EmptyString => true
  | String c _ =>
    negb (is_digit c || (byte_val c =? 46) || (byte_val c =? 101) || (byte_val c =? 69))
  end.

Definition maxNestingDepth : Z := 10000.

Definition lit_rest (lit s : string) : option string :=
  if String.prefix lit s then Some (drop_bytes (String.length lit) s) else None.

(** One value at the head of [s] (no white space in front), inside
    [depth] open arrays and objects; the elements of an array from behind
    its bracket or a comma; the members of an object likewise.  Opening
    more than [maxNestingDepth] arrays and objects is an error. *)
Fixpoint parse_value (fuel : nat) (depth : Z) (s : string) {struct fuel} : parsed value :=
  match fuel with
  | O => OutOfFuel
  | S fuel' =>
    match s with
    | EmptyString => Invalid
    | String c r =>
      let b := byte_val c in
      if b =? 123 then
        if maxNestingDepth <? depth + 1 then Invalid
        else match skip_ws r with
             | String "}" r' => Parsed (JObject []) r'
             | s' => parse_members fuel' (depth + 1) s' []
             end
      else if b =? 91 then
        if maxNestingDepth <? depth + 1 then Invalid
        else match skip_ws r with
             | String "]" r' => Parsed (JArray []) r'
             | s' => parse_elements fuel' (depth + 1) s' []
             end
      else if b =? 34 then
        match lex_string (S (String.length r)) r with
        | Parsed str rest => Parsed (JString str) rest
        | Invalid => Invalid
        | OutOfFuel => OutOfFuel
        end
      else if b =? 116 then
        match lit_rest "true" s with Some rest => Parsed (JBool true) rest | None => Invalid end
      else if b =? 102 then
        match lit_rest "false" s with Some rest => Parsed (JBool false) rest | None => Invalid end
      else if b =? 110 then
        match lit_rest "null" s with Some rest => Parsed JNull rest | None => Invalid end
      else if (b =? 45) || is_digit c then
        match lex_number s with
        | Parsed lit rest => Parsed (JNumber lit) rest
        | Invalid => Invalid
        | OutOfFuel => OutOfFuel
        end
      else Invalid
    end
  end
with parse_elements (fuel : nat) (depth : Z) (s : string) (acc : list value)
                    {struct fuel} : parsed value :=
  match fuel with
  | O => OutOfFuel
  | S fuel' =>
    match parse_value fuel' depth s with
    | Parsed v r =>
      match skip_ws r with
      | String "," r' => parse_elements fuel' depth (skip_ws r') (acc ++ [v])
      | String "]" r' => Parsed (JArray (acc ++ [v])) r'
      | _ => Invalid
      end
    | Invalid => Invalid
    | OutOfFuel => OutOfFuel
    end
  end
with parse_members (fuel : nat) (depth : Z) (s : string) (acc : list (string * string * value))
                   {struct fuel} : parsed value :=
  match fuel with
  | O => OutOfFuel
  | S fuel' =>
    match s with
    | String "034" r =>
      match lex_string (S (String.length r)) r with
      | Parsed k r1 =>
        match skip_ws r1 with
        | String ":" r2 =>
          let sv := skip_ws r2 in
          match parse_value fuel' depth sv with
          | Parsed v r3 =>
            let m := (k, consumed sv r3, v) in
            match skip_ws r3 with
            | String "," r4 => parse_members fuel' depth (skip_ws r4) (acc ++ [m])
            | String "}" r4 => Parsed (JObject (acc ++ [m])) r4
            | _ => Invalid
            end
          | Invalid => Invalid
          | OutOfFuel => OutOfFuel
          end
        | _ => Invalid
        end
      | Invalid => Invalid
      | OutOfFuel => OutOfFuel
      end
    | _ => Invalid
    end
  end.

(** [checkValid] and the scan of [Unmarshal]: the whole of [data] is one
    JSON value between optional white space.  Every call of the three
    functions above follows at least one consumed byte or is the first,
    so twice the length of the input is fuel enough
    ([parse_fuel] below). *)
Definition parse (data : string) : option value :=
  let s := skip_ws data in
  match parse_value (2 * String.length s + 1) 0 s with
  | Parsed v rest =>
    match skip_ws rest with EmptyString => Some v | _ => None end
  | _ => None
  end.

(** [v] is the text of the one JSON value [x], without white space around
    it, as it may stand inside an object: [depth] arrays and objects are
    open around it. *)
Definition value_text (depth : Z) (v : string) (x : value) : Prop :=
  parse_value (2 * String.length v + 1) depth v = Parsed x EmptyString.

(** *** Decoding: storing a JSON value into a Go value

    [Unmarshal] first checks the whole input ([parse]) and then stores
    the value.  A value that does not fit is recorded as the error to
    return and decoding goes on; every caller in the package drops the
    target when an error is returned, so the functions below stop at the
    first such value.  Every target in the package is a fresh zero
    value. *)

Definition kind_of (v : value) : string :=
  match v with
  | JNull => "null"
  | JBool _ => "bool"
  | JNumber _ => "number"
  | JString _ => "string"
  | JArray _ => "array"
  | JObject _ => "object"
  end.

Definition convertNumber (lit : string) : error + float64 :=
  match strconv.ParseFloat lit with
  | Some f => inr f
  | None => inl (UnmarshalTypeError ("number " +:+ lit) "float64")
  end.

(** A map entry set: a later member of the same name replaces the
    earlier one. *)
Definition map_set (k : string) (a : any) (m : list (string * any)) : list (string * any) :=
  filter (fun kv => negb (String.eqb (fst kv) k)) m ++ [(k, a)].

(** A value stored into an empty [any]. *)
Fixpoint to_any (v : value) : error + any :=
  match v with
  | JNull => inr a_nil
  | JBool b => inr (a_bool b)
  | JNumber lit =>
    match convertNumber lit with inr f => inr (a_float64 f) | inl e => inl e end
  | JString s => inr (a_string s)
  | JArray l =>
    (fix elems (l : list value) (acc : list any) : error + any :=
       match l with
       | [] => inr (a_slice acc)
       | x :: t =>
         match to_any x with
         | inr a => elems t (acc ++ [a])
         | inl e => inl e
         end
       end) l []
  | JObject ms =>
    (fix members (ms : list (string * string * value)) (acc : list (string * any))
       : error + any :=
       match ms with
       | [] => inr (a_map acc)
       | (k, _, x) :: t =>
         match to_any x with
         | inr a => members t (map_set k a acc)
         | inl e => inl e
         end
       end) ms []
  end.

Definition elem_any (l : list value) (i : nat) : error + any :=
  match nth_error l i with
  | Some v => to_any v
  | None => inr a_nil
  end.

(** [Unmarshal(data, &a)] for [var a [4]any]: the first four elements of
    a JSON array are stored, further ones are skipped, missing ones stay
    [nil]; [null] stores nothing. *)
Definition Unmarshal_array4_any (data : string) : error + array4 any :=
  match parse data with
  | None => inl SyntaxError
  | Some JNull => inr (a_nil, a_nil, a_nil, a_nil)
  | Some (JArray l) =>
    match elem_any l 0 with
    | inl e => inl e
    | inr a0 =>
      match elem_any l 1 with
      | inl e => inl e
      | inr a1 =>
        match elem_any l 2 with
        | inl e => inl e
        | inr a2 =>
          match elem_any l 3 with
          | inl e => inl e
          | inr a3 => inr (a0, a1, a2, a3)
          end
        end
      end
    end
  | Some v => inl (UnmarshalTypeError (kind_of v) "[4]interface {}")
  end.

(** [Unmarshal(data, &f)] for [var f float64]. *)
Definition Unmarshal_float64 (data : string) : error + float64 :=
  match parse data with
  | None => inl SyntaxError
  | Some JNull => inr (S754_zero false)
  | Some (JNumber lit) => convertNumber lit
  | Some v => inl (UnmarshalTypeError (kind_of v) "float64")
  end.

(** Member names are matched with field names exactly or, failing that,
    under [foldName]: ASCII letters in upper case and every other rune
    replaced by the least rune of its case-folding orbit.  The two runes
    outside ASCII whose orbit holds an ASCII letter are U+017F (long s)
    and U+212A (Kelvin sign); the other runes are left as they are, which
    gives the same matches against the ASCII field names of the
    package. *)
Definition foldRune (r : Z) : Z :=
  if r =? 383 then 83 else if r =? 8490 then 75 else r.

Fixpoint foldName (fuel : nat) (s : string) : string :=
  match fuel, s with
  | _, EmptyString => EmptyString
  | O, _ => EmptyString
  | S fuel', String c r =>
    let b := byte_val c in
    if b <? utf8.RuneSelf then
      String (if (97 <=? b) && (b <=? 122) then byte_of (b - 32) else c) (foldName fuel' r)
    else
      let '(rn, size) := utf8.DecodeRune s in
      utf8.EncodeRune (foldRune rn) +:+ foldName fuel' (drop_bytes size s)
  end.

Definition fold (s : string) : string := foldName (String.length s) s.

(** A field of a struct type [T]: its JSON name and how a member value
    (with its raw bytes) is stored into it. *)
Definition field (T : Type) : Type := (string * (string -> value -> T -> error + T))%type.

Definition find_field {T} (fields : list (field T)) (key : string) : option (field T) :=
  match List.find (fun f => String.eqb (fst f) key) fields with
  | Some f => Some f
  | None => List.find (fun f => String.eqb (fold (fst f)) (fold key)) fields
  end.

(** A field of type [string]. *)
Definition string_field {T} (name : string) (set : string -> T -> T) : field T :=
  (name, fun _ v t =>
           match v with
           | JString s => inr (set s t)
           | JNull => inr t
           | _ => inl (UnmarshalTypeError (kind_of v) "string")
           end).

(** A field of type [RawMessage]: it receives the bytes of the value,
    also those of [null]. *)
Definition raw_field {T} (name : string) (set : string -> T -> T) : field T :=
  (name, fun raw _ t => inr (set raw t)).

Fixpoint store_members {T} (fields : list (field T)) (ms : list (string * string * value))
         (t : T) : error + T :=
  match ms with
  | [] => inr t
  | (k, raw, v) :: rest =>
    match find_field fields k with
    | None => store_members fields rest t
    | Some f =>
      match snd f raw v t with
      | inr t' => store_members fields rest t'
      | inl e => inl e
      end
    end
  end.

(** [Unmarshal(data, &t)] for a struct [t] with the given fields and zero
    value. *)
Definition Unmarshal_struct {T} (goType : string) (fields : list (field T)) (zero : T)
           (data : string) : error + T :=
  match parse data with
  | None => inl SyntaxError
  | Some JNull => inr zero
  | Some (JObject ms) => store_members fields ms zero
  | Some v => inl (UnmarshalTypeError (kind_of v) goType)
  end.

(** [Unmarshal(data, &p)] for a nil pointer [p] to such a struct: [null]
    leaves the pointer nil ([None]), an object allocates the struct. *)
Definition Unmarshal_struct_ptr {T} (goType : string) (fields : list (field T)) (zero : T)
           (data : string) : error + option T :=
  match parse data with
  | None => inl SyntaxError
  | Some JNull => inr None
  | Some (JObject ms) =>
    match store_members fields ms zero with
    | inr t => inr (Some t)
    | inl e => inl e
    end
  | Some v => inl (UnmarshalTypeError (kind_of v) goType)
  end.

End json.

(** ** [regexp]

    Regular expressions as syntax trees, for the operators the package's
    pattern uses, and a backtracking matcher.  Go's [regexp] returns the
    leftmost match and, among the matches that start there, the one a
    backtracking search finds first; text is read rune by rune, a byte that
    is not UTF-8 counting as one rune U+FFFD. *)

Module regexp.

Inductive re : Type :=
| Lit (l : string)            (* the bytes of [l] *)
| AnyCharNotNL                (* [.] : any rune but the newline *)
| Cat (a b : re)              (* [ab] *)
| Alt (a b : re)              (* [a|b], [a] preferred *)
| PlusLazy (a : re)           (* [a+?] : one or more [a], as few as may be *)
| Group (i : nat) (a : re)    (* [(a)] : the capturing group numbered [i] *)
| EndText.                    (* [$] without the flag [m] *)

(** The text of the groups set so far, the latest first. *)
Definition captures : Type := list (nat * string).

Definition group (caps : captures) (i : nat) : string :=
  match List.find (fun c => Nat.eqb (fst c) i) caps with
  | Some c => snd c
  | None => EmptyString
  end.

(** A matcher takes the text, the groups and what to do with the rest. *)
Definition matcher : Type :=
  string -> captures -> (string -> captures -> option captures) -> option captures.

(** The loop of [a+?], [step] being the matcher of [a]: one [a], then the
    rest of the expression if it matches, another round if not.  The loop
    runs at most once per byte of the text plus once, which is all it can
    do when [a] consumes input at every match. *)
Fixpoint plus_lazy (step : matcher) (n : nat) (s : string) (caps : captures)
         (k : string -> captures -> option captures) {struct n} : option captures :=
  step s caps
       (fun s' caps' =>
          match k s' caps' with
          | Some res => Some res
          | None =>
            match n with
            | O => None
            | S n' => plus_lazy step n' s' caps' k
            end
          end).

(** [run r s caps k]: match [r] at the head of [s], then go on with [k]
    on the rest; the first success in backtracking order. *)
Fixpoint run (r : re) : matcher :=
  fun s caps k =>
  match r with
  | Lit l =>
    if String.prefix l s then k (drop_bytes (String.length l) s) caps else None
  | AnyCharNotNL =>
    match s with
    | EmptyString => None
    | String _ _ =>
      let '(rn, size) := utf8.DecodeRune s in
      if rn =? 10 then None else k (drop_bytes size s) caps
    end
  | Cat a b => run a s caps (fun s' caps' => run b s' caps' k)
  | Alt a b =>
    match run a s caps k with
    | Some res => Some res
    | None => run b s caps k
    end
  | PlusLazy a => plus_lazy (run a) (String.length s) s caps k
  | Group i a => run a s caps (fun s' caps' => k s' ((i, consumed s s') :: caps'))
  | EndText =>
    match s with
    | EmptyString => k s caps
    | String _ _ => None
    end
  end.

(** The match of [r] that starts at the head of [s]: group 0 is the whole
    match. *)
Definition match_here (r : re) (s : string) : option captures :=
  run r s [] (fun s' caps => Some ((0%nat, consumed s s') :: caps)).

(** The leftmost match: the start moves on rune by rune. *)
Fixpoint search (n : nat) (r : re) (s : string) : option captures :=
  match match_here r s with
  | Some caps => Some caps
  | None =>
    match n, s with
    | S n', String _ _ => search n' r (drop_bytes (snd (utf8.DecodeRune s)) s)
    | _, _ => None
    end
  end.

(** [FindStringSubmatch] of an expression with [numSubexp] groups: the
    text of the match and of each group, [nil] when nothing matches. *)
Definition FindStringSubmatch (r : re) (numSubexp : nat) (s : string) : list string :=
  match search (String.length s) r s with
  | Some caps => map (group caps) (seq 0 (S numSubexp))
  | None => []
  end.

End regexp.

(** ** [crypto/sha1] and [encoding/hex] *)

Module sha1.

Definition mask32 (z : Z) : Z := Z.land z 4294967295.
Definition rotl (n x : Z) : Z :=
  mask32 (Z.lor (Z.shiftl x n) (Z.shiftr x (32 - n))).

(** The message, the byte 0x80, zero bytes up to 56 modulo 64, and the
    length in bits as eight bytes, most significant first. *)
Definition pad (msg : list Z) : list Z :=
  let len := Z.of_nat (length msg) in
  let zeros := Z.to_nat ((55 - len) mod 64) in
  msg ++ [128] ++ repeat 0 zeros
      ++ map (fun i => Z.land (Z.shiftr (8 * len) (8 * (7 - Z.of_nat i))) 255) (seq 0 8).

Fixpoint words (bs : list Z) : list Z :=
  match bs with
  | a :: b :: c :: d :: r => (a * 16777216 + b * 65536 + c * 256 + d) :: words r
  | _ => []
  end.

(** The message schedule, latest word first: [w[i]] is
    [w[i-3] xor w[i-8] xor w[i-14] xor w[i-16]] rotated left by one. *)
Fixpoint schedule (n : nat) (rev_w : list Z) : list Z :=
  match n with
  | O => rev_w
  | S n' =>
    let w := rotl 1 (Z.lxor (Z.lxor (nth 2 rev_w 0) (nth 7 rev_w 0))
                            (Z.lxor (nth 13 rev_w 0) (nth 15 rev_w 0))) in
    schedule n' (w :: rev_w)
  end.

Definition round (i : nat) (w : Z) (st : Z * Z * Z * Z * Z) : Z * Z * Z * Z * Z :=
  let '(a, b, c, d, e) := st in
  let '(f, k) :=
    if (i <? 20)%nat then (Z.lor (Z.land b c) (Z.land (Z.lxor b 4294967295) d), 1518500249)
    else if (i <? 40)%nat then (Z.lxor (Z.lxor b c) d, 1859775393)
    else if (i <? 60)%nat then
      (Z.lor (Z.lor (Z.land b c) (Z.land b d)) (Z.land c d), 2400959708)
    else (Z.lxor (Z.lxor b c) d, 3395469782) in
  (mask32 (rotl 5 a + f + e + w + k), a, rotl 30 b, c, d).

Fixpoint rounds (i : nat) (ws : list Z) (st : Z * Z * Z * Z * Z) : Z * Z * Z * Z * Z :=
  match ws with
  | [] => st
  | w :: r => rounds (S i) r (round i w st)
  end.

Definition block (h : Z * Z * Z * Z * Z) (blk : list Z) : Z * Z * Z * Z * Z :=
  let '(h0, h1, h2, h3, h4) := h in
  let ws := rev (schedule 64 (rev (words blk))) in
  let '(a, b, c, d, e) := rounds 0 ws h in
  (mask32 (h0 + a), mask32 (h1 + b), mask32 (h2 + c), mask32 (h3 + d), mask32 (h4 + e)).

Fixpoint blocks (n : nat) (h : Z * Z * Z * Z * Z) (bs : list Z) : Z * Z * Z * Z * Z :=
  match n with
  | O => h
  | S n' => blocks n' (block h (firstn 64 bs)) (skipn 64 bs)
  end.

Definition word_bytes (w : Z) : list Z :=
  [Z.shiftr w 24; Z.land (Z.shiftr w 16) 255; Z.land (Z.shiftr w 8) 255; Z.land w 255].

(** The digest of the bytes written to a [sha1.New()] hash:
    [h.Sum(nil)]. *)
Definition Sum (msg : string) : string :=
  let bs := pad (map byte_val (list_ascii_of_string msg)) in
  let '(h0, h1, h2, h3, h4) :=
    blocks (length bs / 64)
           (1732584193, 4023233417, 2562383102, 271733878, 3285377520) bs in
  string_of_list_ascii
    (map byte_of (word_bytes h0 ++ word_bytes h1 ++ word_bytes h2
                  ++ word_bytes h3 ++ word_bytes h4)).

End sha1.

Module hex.

Fixpoint EncodeToString (s : string) : string :=
  match s with
  | EmptyString => EmptyString
  | String c r =>
    String (hex_digit (byte_val c / 16))
      (String (hex_digit (byte_val c mod 16)) (EncodeToString r))
  end.

End hex.

(** ** [encoding/base64] *)

Module base64.

(** The alphabet of [StdEncoding]. *)
Definition encodeStd : string :=
  "ABCDEFGHIJKLMNOPQRSTUVWXYZabcdefghijklmnopqrstuvwxyz0123456789+/".

Definition StdPadding : ascii := "=".

(** [enc.encode[val>>k&0x3F]] *)
Definition sextet (val k : Z) : ascii :=
  match String.get (Z.to_nat (Z.land (Z.shiftr val k) 63)) encodeStd with
  | Some c => c
  | None => StdPadding
  end.

(** [StdEncoding.EncodeToString(src)]: four bytes for every three of
    [src]; a last group of one or two bytes is padded with [=]. *)
Fixpoint EncodeToString (src : string) : string :=
  match src with
  | String a (String b (String c r)) =>
    let val := Z.lor (Z.lor (Z.shiftl (byte_val a) 16) (Z.shiftl (byte_val b) 8))
                     (byte_val c) in
    String (sextet val 18) (String (sextet val 12) (String (sextet val 6)
      (String (sextet val 0) (EncodeToString r))))
  | String a (String b EmptyString) =>
    let val := Z.lor (Z.shiftl (byte_val a) 16) (Z.shiftl (byte_val b) 8) in
    String (sextet val 18) (String (sextet val 12) (String (sextet val 6)
      (String StdPadding EmptyString)))
  | String a EmptyString =>
    let val := Z.shiftl (byte_val a) 16 in
    String (sextet val 18) (String (sextet val 12)
      (String StdPadding (String StdPadding EmptyString)))
  | EmptyString => EmptyString
  end.

End base64.

(** ** [io] *)

Module io.

(** A reader: reading it to the end yields [data], and then the end of
    the stream or an error. *)
Record Reader := {
  data : string;
  err : option string
}.

End io.

(** ** [strings] *)

Module strings.

Fixpoint TrimLeft (s : string) (c : ascii) : string :=
  match s with
  | String a r => if Ascii.eqb a c then TrimLeft r c else s
  | EmptyString => s
  end.

Fixpoint TrimRight (s : string) (c : ascii) : string :=
  match s with
  | String a r =>
    match TrimRight r c with
    | EmptyString => if Ascii.eqb a c then EmptyString else String a EmptyString
    | r' => String a r'
    end
  | EmptyString => s
  end.

(** [Trim(s, cutset)] for a cutset of the one byte [c]. *)
Definition Trim (s : string) (c : ascii) : string := TrimRight (TrimLeft s c) c.

(** [TrimSuffix(s, suffix)] for a suffix of the one byte [c]: at most one
    trailing [c] is removed. *)
Fixpoint TrimSuffix (s : string) (c : ascii) : string :=
  match s with
  | String a EmptyString => if Ascii.eqb a c then EmptyString else s
  | String a r => String a (TrimSuffix r c)
  | EmptyString => s
  end.

End strings.

(** ** [net/http] *)

Module http.

Definition MethodGet : string := "GET".
Definition MethodPost : string := "POST".
Definition StatusOK : Z := 200.
Definition StatusInternalServerError : Z := 500.

(** A header: the values of each canonical key, in order. *)
Definition Get (h : gmap string (list string)) (key : string) : string :=
  match h !! key with
  | Some (v :: _) => v
  | _ => EmptyString
  end.

(** A request as the client builds it: the header lists the calls of
    [Header.Add] in order. *)
Record Request := {
  Method : string;
  URL : string;
  ReqHeader : list (string * string);
  ReqBody : string
}.

(** A response body is a stream: reading it to the end yields [data] or
    fails, and closing it may fail. *)
Record ReadCloser := {
  data : string;
  read_err : option string;
  close_err : option string
}.

Record Response := {
  StatusCode : Z;
  Header : gmap string (list string);
  Body : ReadCloser
}.

(** An [http.Client] is what its [Do] answers to a request: an error
    (its text) or a response. *)
Definition Client : Type := Request -> string + Response.

End http.

(** [http.NewRequest(method, url, body)] fails on a method that is not a
    token and on a URL that [net/url] does not parse.  The text of that
    error, if any, is a parameter of the model. *)
Class NewRequestError := NewRequest_error : string -> string -> option string.

(** * Package [wordfeud] *)

(** ** Errors, panics and results *)

Inductive Sentinel : Type :=
| ErrAccessDenied | ErrAlreadyExists | ErrDuplicateInvite | ErrGameOver
| ErrIllegalMove | ErrIllegalTiles | ErrIllegalUserSelf | ErrIllegalWord
| ErrInvalidBoardType | ErrInvalidID | ErrInvalidRuleset | ErrLoginRequired
| ErrNotFound | ErrNotYourTurn | ErrUnknownEmail | ErrUserNotFound
| ErrWrongPassword.

(** The text each sentinel was made from with [errors.New]. *)
Definition Sentinel_text (s : Sentinel) : string :=
  match s with
  | ErrAccessDenied => "access_denied"
  | ErrAlreadyExists => "already_exists"
  | ErrDuplicateInvite => "duplicate_invite"
  | ErrGameOver => "game_over"
  | ErrIllegalMove => "illegal_move"
  | ErrIllegalTiles => "illegal_tiles"
  | ErrIllegalUserSelf => "illegal_user_self"
  | ErrIllegalWord => "illegal_word"
  | ErrInvalidBoardType => "invalid_board_type"
  | ErrInvalidID => "invalid_id"
  | ErrInvalidRuleset => "invalid_ruleset"
  | ErrLoginRequired => "login_required"
  | ErrNotFound => "not_found"
  | ErrNotYourTurn => "not_your_turn"
  | ErrUnknownEmail => "unknown_email"
  | ErrUserNotFound => "user_not_found"
  | ErrWrongPassword => "wrong_password"
  end.

Record apiError := { Type_ : string; Message : string }.

(** The values of type [error] the package returns. *)
Inductive error : Type :=
| sentinel (s : Sentinel)
    (* one of the package's [Err...] variables *)
| api (e : apiError)
    (* a non-nil [*apiError] *)
| errorf (msg : string)
    (* [fmt.Errorf] whose text is [msg] *)
| errorf_v (prefix : string) (cause : error)
    (* [fmt.Errorf(prefix + "%v", cause)]: the text [prefix] and then the
       text of [cause] *)
| json_error (cause : json.error).
    (* an error of [encoding/json], returned as it is *)

Inductive panic : Type :=
| InterfaceConversion (have : any) (want : string)
    (* [x.(T)] on an [x] whose dynamic type is not [T] *)
| NilPointerDereference
| PanicError (e : error).
    (* [panic(err)] *)

(** How a call ends: it returns a value and a nil error, it returns a
    non-nil error, or it panics. *)
Inductive outcome (A : Type) : Type :=
| Ok (a : A)
| Err (e : error)
| Panic (p : panic).
Arguments Ok {A} a.
Arguments Err {A} e.
Arguments Panic {A} p.

(** Calls that may use the network thread the list of the requests handed
    to [http.Client.Do] so far, oldest first. *)
Definition M (A : Type) : Type := list http.Request -> outcome A * list http.Request.

Definition ret {A} (a : A) : M A := fun w => (Ok a, w).
Definition fail {A} (e : error) : M A := fun w => (Err e, w).
Definition lift {A} (o : outcome A) : M A := fun w => (o, w).
Definition bind {A B} (m : M A) (k : A -> M B) : M B :=
  fun w =>
    match m w with
    | (Ok a, w') => k a w'
    | (Err e, w') => (Err e, w')
    | (Panic p, w') => (Panic p, w')
    end.

Notation "x <- m ;; k" := (bind m (fun x => k))
  (at level 100, m at next level, right associativity).

(** ** The client (client.go) *)

Record Client := { cl : http.Client; baseURL : string }.

(** [NewClient(opts...)], given [http.DefaultClient]. *)
Definition NewClient (DefaultClient : http.Client) (opts : list (Client -> Client)) : Client :=
  fold_left (fun c opt => opt c) opts
            {| cl := DefaultClient; baseURL := "https://game.wordfeud.com/wf" |}.

(** [WithBaseURL(baseURL)] applied to a client. *)
Definition WithBaseURL (url : string) (c : Client) : Client :=
  {| cl := cl c; baseURL := strings.TrimSuffix url "/" |}.

Definition WithHTTPClient (h : http.Client) (c : Client) : Client :=
  {| cl := h; baseURL := baseURL c |}.

Definition SessionID : Type := string.

Definition SessionID_cookie (s : SessionID) : string := "sessionid=" +:+ s.

Definition PasswordSalt : string := "JarJarBinks9".

Definition hashPassword (password : string) : string :=
  hex.EncodeToString (sha1.Sum (password +:+ PasswordSalt)).

(** The map literal of [convertToSentinel]. *)
Definition sentinel_map : gmap string error :=
  list_to_map
    [ ("access_denied", sentinel ErrAccessDenied);
      ("already_exists", sentinel ErrAlreadyExists);
      ("duplicate_invite", sentinel ErrDuplicateInvite);
      ("game_over", sentinel ErrGameOver);
      ("illegal_move", sentinel ErrIllegalMove);
      ("illegal_tiles", sentinel ErrIllegalTiles);
      ("illegal_user_self", sentinel ErrIllegalUserSelf);
      ("illegal_word", sentinel ErrIllegalWord);
      ("invalid_board_type", sentinel ErrInvalidBoardType);
      ("invalid_id", sentinel ErrInvalidID);
      ("invalid_ruleset", sentinel ErrInvalidRuleset);
      ("login_required", sentinel ErrLoginRequired);
      ("not_found", sentinel ErrNotFound);
      ("not_your_turn", sentinel ErrNotYourTurn);
      ("unknown_email", sentinel ErrUnknownEmail);
      ("user_not_found", sentinel ErrUserNotFound);
      ("wrong_password", sentinel ErrWrongPassword) ].

(** [convertToSentinel(e)] for a pointer [e] that may be nil ([None]):
    reading [e.Type] through a nil pointer panics. *)
Definition convertToSentinel (e : option apiError) : panic + error :=
  match e with
  | None => inl NilPointerDereference
  | Some e =>
    match sentinel_map !! Type_ e with
    | Some s => inr s
    | None => inr (api e)
    end
  end.

(** ** The transport layer (http.go) *)

Record response := {
  Content : option string;    (* a [json.RawMessage]; [None] is nil *)
  Header : gmap string (list string)
}.

(** The struct [responseBody] declared inside [request]. *)
Record responseBody := { Status : string; rbContent : option string }.

Definition responseBody_fields : list (json.field responseBody) :=
  [ json.string_field "status" (fun s b => {| Status := s; rbContent := rbContent b |});
    json.raw_field "content" (fun r b => {| Status := Status b; rbContent := Some r |}) ].

Definition Unmarshal_responseBody : string -> json.error + responseBody :=
  json.Unmarshal_struct "struct { Status string; Content json.RawMessage }"
    responseBody_fields {| Status := EmptyString; rbContent := None |}.

Definition apiError_fields : list (json.field apiError) :=
  [ json.string_field "type" (fun s e => {| Type_ := s; Message := Message e |});
    json.string_field "message" (fun s e => {| Type_ := Type_ e; Message := s |}) ].

(** [json.Unmarshal(data, &e)] for [var e *apiError]. *)
Definition Unmarshal_apiError : string -> json.error + option apiError :=
  json.Unmarshal_struct_ptr "wordfeud.apiError" apiError_fields
    {| Type_ := EmptyString; Message := EmptyString |}.

Definition apiError_Error (e : apiError) : string :=
  if String.eqb (Message e) EmptyString then Type_ e
  else Type_ e +:+ ": " +:+ Message e.

Definition bytes_of (b : option string) : string :=
  match b with Some s => s | None => EmptyString end.

(** What [request] does with a response once [Do] has returned it, up to
    the deferred close. *)
Definition classify (res : http.Response) : outcome response :=
  match http.read_err (http.Body res) with
  | Some msg => Err (errorf ("reading response body: " +:+ msg))
  | None =>
    let bodyBytes := http.data (http.Body res) in
    let code := http.StatusCode res in
    if (String.length bodyBytes =? 0)%nat then
      if code =? http.StatusOK
      then Ok {| Content := None; Header := http.Header res |}
      else Err (errorf ("status code " +:+ itoa code +:+ " (no body)"))
    else if http.StatusInternalServerError <=? code then
      Err (errorf ("status code " +:+ itoa code +:+ ": " +:+ bodyBytes))
    else
      match Unmarshal_responseBody bodyBytes with
      | inl e =>
        Err (errorf_v ("unmarshalling response body (status code " +:+ itoa code +:+ "): ")
                      (json_error e))
      | inr rb =>
        if String.eqb (Status rb) "error" then
          match Unmarshal_apiError (bytes_of (rbContent rb)) with
          | inl e =>
            Err (errorf_v ("unmarshalling error response (status code " +:+ itoa code +:+ "): ")
                          (json_error e))
          | inr e =>
            match convertToSentinel e with
            | inr err => Err err
            | inl p => Panic p
            end
          end
        else Ok {| Content := rbContent rb; Header := http.Header res |}
      end
  end.

(** The deferred function of [request]: the body is closed when [request]
    is left, however it is left, and a failure to close panics. *)
Definition deferred_close {A} (body : http.ReadCloser) (r : outcome A) : outcome A :=
  match http.close_err body with
  | Some msg => Panic (PanicError (errorf ("closing response body: " +:+ msg)))
  | None => r
  end.

Definition request_url (c : Client) (path : string) : string :=
  baseURL c +:+ "/" +:+ strings.Trim path "/" +:+ "/".

(** The request [request] hands to [Do]. *)
Definition new_request (c : Client) (method path : string) (session : SessionID)
           (body : option string) : http.Request :=
  {| http.Method := method;
     http.URL := request_url c path;
     http.ReqHeader :=
       [("Accept", "application/json")]
       ++ (match body with Some _ => [("Content-Type", "application/json")] | None => [] end)
       ++ (if String.eqb session EmptyString then []
           else [("Cookie", SessionID_cookie session)]);
     http.ReqBody := bytes_of body |}.

Definition request `{NewRequestError} (c : Client) (method path : string)
           (session : SessionID) (body : option string) : M response :=
  fun w =>
    match NewRequest_error method (request_url c path) with
    | Some msg => (Err (errorf ("creating request: " +:+ msg)), w)
    | None =>
      let req := new_request c method path session body in
      match cl c req with
      | inl msg => (Err (errorf ("sending request: " +:+ msg)), w ++ [req])
      | inr res => (deferred_close (http.Body res) (classify res), w ++ [req])
      end
    end.

(** The transport answers the call with the response [res], whose body is
    read to the end and closed without error. *)
Definition answered `{NewRequestError} (c : Client) (method path : string)
           (session : SessionID) (body : option string) (res : http.Response) : Prop :=
  NewRequest_error method (request_url c path) = None
  /\ cl c (new_request c method path session body) = inr res
  /\ http.read_err (http.Body res) = None
  /\ http.close_err (http.Body res) = None.

(** [sub] occurs in [s]. *)
Definition contains (sub s : string) : Prop :=
  exists pre post : string, s = pre +:+ sub +:+ post.

(** The status codes that indicate success in HTTP: the class 2xx
    (Successful).  [request] itself compares with [StatusOK] only. *)
Definition indicates_success (code : Z) : bool := (200 <=? code) && (code <? 300).

(** The type parameter [C] of [roundtrip] with what [json.Unmarshal] does
    on a fresh [C], and the type of a request body with what
    [json.Marshal] does on it. *)
Class Unmarshaler (C : Type) := Unmarshal : string -> outcome C.
Class Marshaler (B : Type) := Marshal : B -> json.error + string.

(** What [roundtrip] hands to [request] as the body. *)
Definition marshalled {B : Type} `{Marshaler B} (body : option B) (b : option string) : Prop :=
  match body with
  | None => b = None
  | Some v => exists bs, Marshal v = inr bs /\ b = Some bs
  end.

Definition roundtrip {B C : Type} `{NewRequestError} `{Marshaler B} `{Unmarshaler C}
           (c : Client) (method path : string) (session : SessionID) (body : option B) : M C :=
  b <- match body with
       | None => ret None
       | Some v =>
         match Marshal v with
         | inl e => fail (errorf_v "marshalling request body: " (json_error e))
         | inr bs => ret (Some bs)
         end
       end ;;
  res <- request c method path session b ;;
  match Content res with
  | None => fail (errorf "response body content field is empty")
  | Some content =>
    match Unmarshal content with
    | Ok t => ret t
    | Err e => fail (errorf_v "unmarshalling response body: " e)
    | Panic p => lift (Panic p)
    end
  end.

(** The text of [s] up to the first [;] or the end. *)
Fixpoint up_to_semicolon (s : string) : string :=
  match s with
  | EmptyString => EmptyString
  | String c r => if Ascii.eqb c ";" then EmptyString else String c (up_to_semicolon r)
  end.

(** The value of the attribute [sessionid] of a cookie header as the
    contract of session extraction words it: the text behind the first
    [sessionid=] up to the next [;] or the end of the string; [None] when
    the header holds no [sessionid=]. *)
Fixpoint sessionid_value (cookie : string) : option string :=
  if String.prefix "sessionid=" cookie
  then Some (up_to_semicolon (drop_bytes 10 cookie))
  else
    match cookie with
    | EmptyString => None
    | String _ r => sessionid_value r
    end.

(** A byte of a cookie value: neither the [;] that ends the value nor a
    newline, which [.] does not match. *)
Definition value_byte (c : ascii) : bool :=
  negb (Ascii.eqb c ";") && negb (byte_val c =? 10).

(** The rest of a cookie behind a value: nothing, or a [;] and more. *)
Definition value_end (tail : string) : Prop :=
  tail = EmptyString \/ exists r, tail = String ";" r.

(** [sessionid=(.+?)(?:;|$)] *)
Definition cookieRegexp : regexp.re :=
  regexp.Cat (regexp.Lit "sessionid=")
    (regexp.Cat (regexp.Group 1 (regexp.PlusLazy regexp.AnyCharNotNL))
                (regexp.Alt (regexp.Lit ";") regexp.EndText)).

Definition extractSessionID (r : response) : outcome SessionID :=
  let cookie := http.Get (Header r) "Set-Cookie" in
  if String.eqb cookie EmptyString then Err (errorf "cookie not found in response")
  else
    let matches := regexp.FindStringSubmatch cookieRegexp 1 cookie in
    if (length matches <? 2)%nat then Err (errorf "sessionid not found in cookie")
    else Ok (nth 1 matches EmptyString).

(** ** The data model (types.go) *)

Record Placement := { Column : Z; Row : Z; Letter : string; Blank : bool }.

Definition Place (column row : Z) (letter : string) (blank : bool) : Placement :=
  {| Column := column; Row := row; Letter := letter; Blank := blank |}.

Definition Placement_Array (p : Placement) : array4 any :=
  (a_int (Column p), a_int (Row p), a_string (Letter p), a_bool (Blank p)).

(** The type assertions [x.(float64)], [x.(string)] and [x.(bool)]. *)
Definition assert_float64 (x : any) : panic + float64 :=
  match x with a_float64 f => inr f | _ => inl (InterfaceConversion x "float64") end.
Definition assert_string (x : any) : panic + string :=
  match x with a_string s => inr s | _ => inl (InterfaceConversion x "string") end.
Definition assert_bool (x : any) : panic + bool :=
  match x with a_bool b => inr b | _ => inl (InterfaceConversion x "bool") end.

(** [p.UnmarshalJSON(b)]: [Ok p'] stands for [*p = p'] and a nil error; on
    an error [*p] is left as it was.  The four operands of the composite
    literal are evaluated from left to right. *)
Definition Placement_UnmarshalJSON (b : string) : outcome Placement :=
  match json.Unmarshal_array4_any b with
  | inl err => Err (json_error err)
  | inr (a0, a1, a2, a3) =>
    match assert_float64 a0 with
    | inl p => Panic p
    | inr f0 =>
      match assert_float64 a1 with
      | inl p => Panic p
      | inr f1 =>
        match assert_string a2 with
        | inl p => Panic p
        | inr s =>
          match assert_bool a3 with
          | inl p => Panic p
          | inr bl =>
            Ok {| Column := f64.to_int64 f0; Row := f64.to_int64 f1;
                  Letter := s; Blank := bl |}
          end
        end
      end
    end
  end.

(** [json.Marshal] of a [[4]any]. *)
Definition Marshal_array4_any (a : array4 any) : json.error + string :=
  let '(a0, a1, a2, a3) := a in
  match json.marshal_any a0, json.marshal_any a1, json.marshal_any a2, json.marshal_any a3 with
  | inr e0, inr e1, inr e2, inr e3 => inr (json.marshal_array [e0; e1; e2; e3])
  | inl e, _, _, _ | _, inl e, _, _ | _, _, inl e, _ | _, _, _, inl e => inl e
  end.

(** The text [Marshal] writes for the array of a placement. *)
Definition placement_text (c r : Z) (l : string) (b : bool) : string :=
  String "[" (itoa c +:+ String "," (itoa r +:+ String ","
    (json.appendString l +:+ String "," (json.marshal_bool b +:+ "]")))).

(** The inner loop of [uniqueSquares] is [existsb]; [positions] starts as
    [make([]position, len(placements))], a slice of [len(placements)] zero
    positions, and grows by [append]. *)
Fixpoint uniqueSquares_loop (placements : list Placement) (positions : list (Z * Z)) : bool :=
  match placements with
  | [] => true
  | pl :: rest =>
    if existsb (fun pos => (Column pl =? fst pos) && (Row pl =? snd pos)) positions
    then false
    else uniqueSquares_loop rest (positions ++ [(Column pl, Row pl)])
  end.

Definition uniqueSquares (placements : list Placement) : bool :=
  uniqueSquares_loop placements (repeat (0, 0) (length placements)).

(** The square a placement covers. *)
Definition square (p : Placement) : Z * Z := (Column p, Row p).

Record Timestamp := { Time : time.Time }.

(** [t.UnmarshalJSON(b)]: [Ok t'] stands for [*t = t'] and a nil error. *)
Definition Timestamp_UnmarshalJSON (b : string) : outcome Timestamp :=
  match json.Unmarshal_float64 b with
  | inl err => Err (json_error err)
  | inr f =>
    let '(sec, dec) := math.Modf f in
    Ok {| Time := time.Unix (f64.to_int64 sec)
                            (f64.to_int64 (f64.mul dec (f64.of_Z 1000000000))) |}
  end.

(** ** The endpoints (api.go) *)

(** Request bodies: the anonymous structs the endpoints marshal. *)
Record CreateAccountBody := { ca_Username : string; ca_Email : string; ca_Password : string }.
Record LoginWithEmailBody := { le_Email : string; le_Password : string }.
Record LoginWithIDBody := { li_ID : Z; li_Password : string }.
Record ChangePasswordBody := { cp_Password : string }.
Record MoveBody := { mb_Move : list (array4 any) }.

Definition Marshal_CreateAccountBody (b : CreateAccountBody) : json.error + string :=
  inr (json.marshal_object [ ("username", json.appendString (ca_Username b));
                             ("email", json.appendString (ca_Email b));
                             ("password", json.appendString (ca_Password b)) ]).

Definition Marshal_LoginWithEmailBody (b : LoginWithEmailBody) : json.error + string :=
  inr (json.marshal_object [ ("email", json.appendString (le_Email b));
                             ("password", json.appendString (le_Password b)) ]).

Definition Marshal_LoginWithIDBody (b : LoginWithIDBody) : json.error + string :=
  inr (json.marshal_object [ ("id", itoa (li_ID b));
                             ("password", json.appendString (li_Password b)) ]).

Definition Marshal_ChangePasswordBody (b : ChangePasswordBody) : json.error + string :=
  inr (json.marshal_object [ ("password", json.appendString (cp_Password b)) ]).

Fixpoint marshal_all (l : list (array4 any)) : json.error + list string :=
  match l with
  | [] => inr []
  | a :: rest =>
    match Marshal_array4_any a with
    | inl e => inl e
    | inr x =>
      match marshal_all rest with
      | inl e => inl e
      | inr xs => inr (x :: xs)
      end
    end
  end.

(** A nil slice is encoded as [null]; [Move] leaves [placements] nil when
    the move is empty. *)
#[global] Instance Marshal_MoveBody : Marshaler MoveBody :=
  fun b =>
    match mb_Move b with
    | [] => inr (json.marshal_object [("move", "null")])
    | l =>
      match marshal_all l with
      | inl e => inl e
      | inr xs => inr (json.marshal_object [("move", json.marshal_array xs)])
      end
    end.

(** Between the request lists [w] and [w'] exactly the request [req] was
    sent when [http.NewRequest] accepts its method and URL, and nothing
    when it refuses them. *)
Definition sent_if_built `{NewRequestError} (req : http.Request)
           (w w' : list http.Request) : Prop :=
  match NewRequest_error (http.Method req) (http.URL req) with
  | Some _ => w' = w
  | None => w' = w ++ [req]
  end.

Definition is_lower_hex (c : ascii) : bool :=
  let b := byte_val c in ((48 <=? b) && (b <=? 57)) || ((97 <=? b) && (b <=? 102)).

Fixpoint all_bytes (P : ascii -> bool) (s : string) : bool :=
  match s with
  | EmptyString => true
  | String c r => P c && all_bytes P r
  end.

Definition marshalling {A} (r : json.error + string) (k : string -> M A) : M A :=
  match r with
  | inl e => fail (errorf_v "marshalling request body: " (json_error e))
  | inr body => k body
  end.

Definition CreateAccount {Login : Type} `{NewRequestError} `{Unmarshaler Login}
           (c : Client) (username email password : string) : M (Login * SessionID) :=
  marshalling
    (Marshal_CreateAccountBody
       {| ca_Username := username; ca_Email := email; ca_Password := hashPassword password |})
    (fun body =>
       res <- request c http.MethodPost "/user/create" EmptyString (Some body) ;;
       match Unmarshal (bytes_of (Content res)) with
       | Err e => fail (errorf_v "unmarshalling response: " e)
       | Panic p => lift (Panic p)
       | Ok login =>
         sessionID <- lift (extractSessionID res) ;;
         ret (login, sessionID)
       end).

Definition LoginWithEmail `{NewRequestError} (c : Client) (email password : string)
  : M SessionID :=
  marshalling
    (Marshal_LoginWithEmailBody {| le_Email := email; le_Password := hashPassword password |})
    (fun body =>
       res <- request c http.MethodPost "/user/login/email" EmptyString (Some body) ;;
       lift (extractSessionID res)).

Definition LoginWithID `{NewRequestError} (c : Client) (id : Z) (password : string)
  : M SessionID :=
  marshalling
    (Marshal_LoginWithIDBody {| li_ID := id; li_Password := hashPassword password |})
    (fun body =>
       res <- request c http.MethodPost "/user/login/id" EmptyString (Some body) ;;
       lift (extractSessionID res)).

Definition ChangePassword `{NewRequestError} (c : Client) (session : SessionID)
           (newPassword : string) : M unit :=
  marshalling
    (Marshal_ChangePasswordBody {| cp_Password := hashPassword newPassword |})
    (fun body =>
       _ <- request c http.MethodPost "/user/password/set" session (Some body) ;;
       ret tt).

Definition Move {MoveResult : Type} `{NewRequestError} `{Unmarshaler MoveResult}
           (c : Client) (session : SessionID) (game : Z) (move : list Placement)
  : M MoveResult :=
  if negb (uniqueSquares move) then fail (sentinel ErrIllegalMove)
  else
    let placements := map Placement_Array move in
    roundtrip c http.MethodPost ("/game/" +:+ itoa game +:+ "/move") session
              (Some {| mb_Move := placements |}).

Definition Pass {MoveResult : Type} `{NewRequestError} `{Unmarshaler MoveResult}
           (c : Client) (session : SessionID) (game : Z) : M MoveResult :=
  roundtrip (B := MoveBody) c http.MethodPost ("/game/" +:+ itoa game +:+ "/pass") session None.

(** The endpoints that send no body hand [nil] to [roundtrip]. *)
Inductive NoBody : Type := .

#[global] Instance Marshal_NoBody : Marshaler NoBody :=
  fun b => match b with end.

(** [BoardID.String] (types.go). *)
Definition BoardNormal : Z := 0.
Definition BoardRandom : Z := 1.

Definition BoardID_String (i : Z) : string :=
  if i =? BoardNormal then "normal"
  else if i =? BoardRandom then "random"
  else EmptyString.

Record AvatarBody := { av_ImageData : string }.
Record RelationshipBody := { rl_ID : Z; rl_Type : Z }.
Record InviteBody := { iv_Invitee : string; iv_Ruleset : Z; iv_BoardType : string }.
Record RandomRequestBody := { rq_Ruleset : Z; rq_BoardType : string }.
Record ChatBody := { ch_Message : string }.

#[global] Instance Marshal_AvatarBody : Marshaler AvatarBody :=
  fun b => inr (json.marshal_object [ ("image_data", json.appendString (av_ImageData b)) ]).

#[global] Instance Marshal_RelationshipBody : Marshaler RelationshipBody :=
  fun b => inr (json.marshal_object [ ("id", itoa (rl_ID b)); ("type", itoa (rl_Type b)) ]).

#[global] Instance Marshal_InviteBody : Marshaler InviteBody :=
  fun b => inr (json.marshal_object [ ("invitee", json.appendString (iv_Invitee b));
                                      ("ruleset", itoa (iv_Ruleset b));
                                      ("board_type", json.appendString (iv_BoardType b)) ]).

#[global] Instance Marshal_RandomRequestBody : Marshaler RandomRequestBody :=
  fun b => inr (json.marshal_object [ ("ruleset", itoa (rq_Ruleset b));
                                      ("board_type", json.appendString (rq_BoardType b)) ]).

#[global] Instance Marshal_ChatBody : Marshaler ChatBody :=
  fun b => inr (json.marshal_object [ ("message", json.appendString (ch_Message b)) ]).

(** The anonymous structs the endpoints decode the content into.  The
    types of the data model they hold ([Relationship], [Game],
    [Invitation], [Message], [Grid]) are parameters, decoded by the
    [Unmarshaler] of the struct. *)
Record AvatarResult := { res_AvatarUpdated : Timestamp }.
Record RelationshipsResult (Relationship : Type) := { res_Relationships : list Relationship }.
Record GamesResult (Game : Type) := { res_Games : list Game }.
Record GameResult (Game : Type) := { res_Game : Game }.
Record InvitationResult (Invitation : Type) := { res_Invitation : Invitation }.
Record AcceptResult := { res_ID : Z }.
Record MessagesResult (Message : Type) := { res_Messages : list Message }.
Record SentResult := { res_Sent : Timestamp }.
Record BoardResult (Grid : Type) := { res_Board : Grid }.
Arguments res_Relationships {Relationship} _.
Arguments res_Games {Game} _.
Arguments res_Game {Game} _.
Arguments res_Invitation {Invitation} _.
Arguments res_Messages {Message} _.
Arguments res_Board {Grid} _.

(** [UpdateAvatar]: the encoder writes into a [bytes.Buffer], whose
    writes do not fail, so [io.Copy] fails only when reading [image]
    fails, and [encoder.Close] returns nil. *)
Definition UpdateAvatar `{NewRequestError} `{Unmarshaler AvatarResult}
           (c : Client) (session : SessionID) (image : io.Reader) : M Timestamp :=
  match io.err image with
  | Some msg => fail (errorf ("reading image: " +:+ msg))
  | None =>
    res <- roundtrip c http.MethodPost "/user/avatar/upload" session
                     (Some {| av_ImageData := base64.EncodeToString (io.data image) |}) ;;
    ret (res_AvatarUpdated res)
  end.

Definition Relationships {Relationship : Type} `{NewRequestError}
           `{Unmarshaler (RelationshipsResult Relationship)}
           (c : Client) (session : SessionID) : M (list Relationship) :=
  res <- roundtrip (B := NoBody) c http.MethodGet "/user/relationships" session None ;;
  ret (res_Relationships res).

Definition CreateRelationship {Relationship : Type} `{NewRequestError}
           `{Unmarshaler Relationship}
           (c : Client) (session : SessionID) (user : Z) : M Relationship :=
  roundtrip c http.MethodPost "/relationship/create" session
            (Some {| rl_ID := user; rl_Type := 0 |}).

Definition DeleteRelationship `{NewRequestError} (c : Client) (session : SessionID)
           (user : Z) : M unit :=
  _ <- request c http.MethodPost ("/relationship/" +:+ itoa user +:+ "/delete") session None ;;
  ret tt.

Definition Games {Game : Type} `{NewRequestError} `{Unmarshaler (GamesResult Game)}
           (c : Client) (session : SessionID) : M (list Game) :=
  res <- roundtrip (B := NoBody) c http.MethodGet "/user/games" session None ;;
  ret (res_Games res).

Definition Game {Game : Type} `{NewRequestError} `{Unmarshaler (GameResult Game)}
           (c : Client) (session : SessionID) (game : Z) : M Game :=
  res <- roundtrip (B := NoBody) c http.MethodGet ("/game/" +:+ itoa game) session None ;;
  ret (res_Game res).

Definition Invite {Invitation : Type} `{NewRequestError}
           `{Unmarshaler (InvitationResult Invitation)}
           (c : Client) (session : SessionID) (username : string) (ruleset board : Z)
  : M Invitation :=
  res <- roundtrip c http.MethodPost "/invite/new" session
                   (Some {| iv_Invitee := username; iv_Ruleset := ruleset;
                            iv_BoardType := BoardID_String board |}) ;;
  ret (res_Invitation res).

Definition InviteRandomOpponent {Invitation : Type} `{NewRequestError}
           `{Unmarshaler (InvitationResult Invitation)}
           (c : Client) (session : SessionID) (ruleset board : Z) : M Invitation :=
  res <- roundtrip c http.MethodPost "random_request/create" session
                   (Some {| rq_Ruleset := ruleset; rq_BoardType := BoardID_String board |}) ;;
  ret (res_Invitation res).

Definition AcceptInvitation `{NewRequestError} `{Unmarshaler AcceptResult}
           (c : Client) (session : SessionID) (invitation : Z) : M Z :=
  res <- roundtrip (B := NoBody) c http.MethodPost
                   ("/invite/" +:+ itoa invitation +:+ "/accept") session None ;;
  ret (res_ID res).

Definition RejectInvitation `{NewRequestError} (c : Client) (session : SessionID)
           (invitation : Z) : M unit :=
  _ <- request c http.MethodPost ("/invite/" +:+ itoa invitation +:+ "/reject") session None ;;
  ret tt.

Definition Resign {MoveResult : Type} `{NewRequestError} `{Unmarshaler MoveResult}
           (c : Client) (session : SessionID) (game : Z) : M MoveResult :=
  roundtrip (B := NoBody) c http.MethodPost ("/game/" +:+ itoa game +:+ "/resign") session None.

Definition ChatMessages {Message : Type} `{NewRequestError}
           `{Unmarshaler (MessagesResult Message)}
           (c : Client) (session : SessionID) (game : Z) : M (list Message) :=
  res <- roundtrip (B := NoBody) c http.MethodGet ("/user/" +:+ itoa game +:+ "/chat") session None ;;
  ret (res_Messages res).

Definition SendChatMessage `{NewRequestError} `{Unmarshaler SentResult}
           (c : Client) (session : SessionID) (game : Z) (message : string) : M Timestamp :=
  res <- roundtrip c http.MethodPost ("/game/" +:+ itoa game +:+ "/chat/send") session
                   (Some {| ch_Message := message |}) ;;
  ret (res_Sent res).

Definition Board {Grid : Type} `{NewRequestError} `{Unmarshaler (BoardResult Grid)}
           (c : Client) (board : Z) : M Grid :=
  res <- roundtrip (B := NoBody) c http.MethodGet ("/board/" +:+ itoa board) EmptyString None ;;
  ret (res_Board res).

(** Between the request lists [w] and [w'] nothing was sent, or the one
    request [req]. *)
Definition sent_only (req : http.Request) (w w' : list http.Request) : Prop :=
  w' = w \/ w' = w ++ [req].

(** * Properties *)

Arguments append s1 s2 : simpl nomatch.

(** ** The uniqueness check of [Move] *)

Lemma existsb_square (pl : Placement) (positions : list (Z * Z)) :
  existsb (fun pos => (Column pl =? fst pos) && (Row pl =? snd pos)) positions = true
  <-> elem_of (square pl) positions.
Proof.
  rewrite existsb_exists, list_elem_of_In. split.
  - intros [[x y] [Hin Heq]]. simpl in Heq.
    apply andb_true_iff in Heq as [Hc Hr].
    apply Z.eqb_eq in Hc, Hr. unfold square. now rewrite Hc, Hr.
  - intros Hin. exists (square pl). split; [exact Hin|].
    unfold square. simpl. now rewrite !Z.eqb_refl.
Qed.

(** The loop accepts exactly the lists without a repeated square and
    without a square already among [positions]. *)
Lemma uniqueSquares_loop_spec (placements : list Placement) :
  forall positions : list (Z * Z),
    uniqueSquares_loop placements positions = true
    <-> NoDup (map square placements)
        /\ forall pl, elem_of pl placements -> ~ elem_of (square pl) positions.
Proof.
  induction placements as [|pl rest IH]; intros positions; simpl.
  - split; [intros _|reflexivity]. split; [constructor|].
    intros pl Hin. inversion Hin.
  - destruct (existsb _ positions) eqn:Hex.
    + apply existsb_square in Hex. split; [discriminate|].
      intros [_ Hnot]. exfalso. apply (Hnot pl); [left|exact Hex].
    + assert (Hpl : ~ elem_of (square pl) positions).
      { intros Hin. apply existsb_square in Hin. congruence. }
      rewrite IH, NoDup_cons. split.
      * intros [Hnd Hnot]. split; [split; [|exact Hnd]|].
        -- intros Hin. apply list_elem_of_fmap in Hin as [q [Hq Hin]].
           apply (Hnot q Hin). rewrite <- Hq. apply elem_of_app. right. left.
        -- intros q Hq Hin. apply elem_of_cons in Hq as [->|Hq]; [auto|].
           apply (Hnot q Hq). apply elem_of_app. now left.
      * intros [[Hfresh Hnd] Hnot]. split; [exact Hnd|].
        intros q Hq Hin. apply elem_of_app in Hin as [Hin|Hin].
        -- apply (Hnot q); [now right|exact Hin].
        -- apply list_elem_of_singleton in Hin. apply Hfresh.
           apply list_elem_of_fmap. exists q. split; [|exact Hq].
           symmetry. exact Hin.
Qed.

(** What [uniqueSquares] accepts: the squares are pairwise distinct and,
    because [positions] starts with [len(placements)] zero positions, no
    tile lies on column 0, row 0. *)
Lemma uniqueSquares_spec (placements : list Placement) :
  uniqueSquares placements = true
  <-> NoDup (map square placements)
      /\ forall pl, elem_of pl placements -> square pl <> (0, 0).
Proof.
  unfold uniqueSquares. rewrite uniqueSquares_loop_spec.
  split; intros [Hnd H]; (split; [exact Hnd|]); intros pl Hin.
  - intros Heq. apply (H pl Hin). rewrite Heq.
    destruct placements as [|q rest]; [inversion Hin|]. simpl. left.
  - intros Hrep. apply list_elem_of_In, repeat_spec in Hrep. now apply (H pl Hin).
Qed.

(** A move with two tiles on one square is refused. *)
Lemma uniqueSquares_duplicate (placements : list Placement) :
  ~ NoDup (map square placements) -> uniqueSquares placements = false.
Proof.
  intros Hdup. destruct (uniqueSquares placements) eqn:Hu; [|reflexivity].
  apply uniqueSquares_spec in Hu as [Hnd _]. contradiction.
Qed.

(** A refused move ends in [ErrIllegalMove] and leaves the list of
    requests as it was: nothing is sent. *)
Lemma Move_refused {MoveResult : Type} `{NewRequestError} `{Unmarshaler MoveResult}
      (c : Client) (session : SessionID) (game : Z) (move : list Placement)
      (w : list http.Request) :
  uniqueSquares move = false ->
  Move (MoveResult := MoveResult) c session game move w = (Err (sentinel ErrIllegalMove), w).
Proof. intros Hu. unfold Move. rewrite Hu. reflexivity. Qed.

(** An accepted move is handed to [roundtrip]. *)
Lemma Move_accepted {MoveResult : Type} `{NewRequestError} `{Unmarshaler MoveResult}
      (c : Client) (session : SessionID) (game : Z) (move : list Placement) :
  uniqueSquares move = true ->
  Move (MoveResult := MoveResult) c session game move
  = roundtrip c http.MethodPost ("/game/" +:+ itoa game +:+ "/move") session
              (Some {| mb_Move := map Placement_Array move |}).
Proof. intros Hu. unfold Move. rewrite Hu. reflexivity. Qed.

(** C1, at the input where the code departs from it: a move of one tile on
    column 0, row 0 has pairwise distinct squares, and [Move] refuses it
    with [ErrIllegalMove] without sending anything. *)
Theorem Move_single_tile_on_origin {MoveResult : Type} `{NewRequestError}
        `{Unmarshaler MoveResult}
        (c : Client) (session : SessionID) (game : Z) (w : list http.Request) :
  NoDup (map square [Place 0 0 "A" false])
  /\ Move (MoveResult := MoveResult) c session game [Place 0 0 "A" false] w
     = (Err (sentinel ErrIllegalMove), w).
Proof.
  split.
  - apply NoDup_singleton.
  - apply Move_refused. reflexivity.
Qed.


(** ** The transport layer *)

Lemma request_answered `{NewRequestError} (c : Client) (method path : string)
      (session : SessionID) (body : option string) (res : http.Response)
      (w : list http.Request) :
  answered c method path session body res ->
  request c method path session body w
  = (classify res, w ++ [new_request c method path session body]).
Proof.
  intros (Hnew & Hdo & _ & Hclose). unfold request.
  rewrite Hnew, Hdo. unfold deferred_close. now rewrite Hclose.
Qed.

Lemma string_length_zero (s : string) : (String.length s =? 0)%nat = true <-> s = EmptyString.
Proof. destruct s; simpl; split; intros; congruence. Qed.

Lemma contains_middle (pre sub post : string) : contains sub (pre +:+ sub +:+ post).
Proof. now exists pre, post. Qed.

Lemma contains_empty (s : string) : contains EmptyString s.
Proof. exists EmptyString, s. reflexivity. Qed.

Lemma string_app_nil_r (s : string) : s +:+ EmptyString = s.
Proof. induction s as [|a s IH]; simpl; [reflexivity|now rewrite IH]. Qed.

Lemma string_app_assoc (a b c : string) : (a +:+ b) +:+ c = a +:+ (b +:+ c).
Proof. induction a as [|x a IH]; simpl; [reflexivity|now rewrite IH]. Qed.

(** The empty-body rule does not hold for every status code that
    indicates success: an empty 204 (No Content) is answered with an
    error. *)
Lemma empty_body_success_refuted :
  ~ (forall (N : NewRequestError) (c : Client) (method path : string) (session : SessionID)
            (body : option string) (res : http.Response) (w : list http.Request),
        answered c method path session body res ->
        http.data (http.Body res) = EmptyString ->
        indicates_success (http.StatusCode res) = true ->
        exists r, fst (request c method path session body w) = Ok r /\ Content r = None).
Proof.
  intros Hall.
  pose (res := {| http.StatusCode := 204; http.Header := empty;
                  http.Body := {| http.data := EmptyString; http.read_err := None;
                                  http.close_err := None |} |}).
  pose (c := {| cl := fun _ => inr res; baseURL := "https://game.wordfeud.com/wf" |}).
  destruct (Hall (fun _ _ => None) c "GET" "/user/games" "s" None res [])
    as (r & Hr & _); try reflexivity.
  - repeat split.
  - discriminate Hr.
Qed.

(** C4, amended.  For a response with an empty body, [request] returns a
    success with nil content when the status code is 200 and otherwise, also
    for the other codes of the class 2xx, the error "status code N (no
    body)", which carries the code and nothing else; the body is not
    decoded. *)
Theorem request_empty_body `{NewRequestError} (c : Client) (method path : string)
        (session : SessionID) (body : option string) (res : http.Response)
        (w : list http.Request) :
  answered c method path session body res ->
  http.data (http.Body res) = EmptyString ->
  request c method path session body w
  = (if http.StatusCode res =? 200
     then Ok {| Content := None; Header := http.Header res |}
     else Err (errorf ("status code " +:+ itoa (http.StatusCode res) +:+ " (no body)")),
     w ++ [new_request c method path session body]).
Proof.
  intros Hans Hempty. rewrite (request_answered _ _ _ _ _ _ _ Hans).
  destruct Hans as (_ & _ & Hread & _). unfold classify.
  rewrite Hread, Hempty. reflexivity.
Qed.

Lemma request_empty_body_witness :
  let res := {| http.StatusCode := 404; http.Header := empty;
                http.Body := {| http.data := EmptyString; http.read_err := None;
                                http.close_err := None |} |} in
  let c := {| cl := fun _ => inr res; baseURL := "https://game.wordfeud.com/wf" |} in
  fst (@request (fun _ _ => None) c "GET" "/user/games" "s" None [])
  = Err (errorf "status code 404 (no body)").
Proof.
  intros res c.
  rewrite (@request_empty_body (fun _ _ => None) c "GET" "/user/games" "s" None res []).
  - reflexivity.
  - repeat split.
  - reflexivity.
Defined.

(** C5.  For a response with a status code of 500 or more, [request] fails
    with an error whose text contains the code and the body.  When the body
    is not empty the text is "status code N: " followed by the body as it
    is; the result is this for every body, JSON or not, so no decoding takes
    part. *)
Theorem request_server_fault `{NewRequestError} (c : Client) (method path : string)
        (session : SessionID) (body : option string) (res : http.Response)
        (w : list http.Request) :
  answered c method path session body res ->
  500 <= http.StatusCode res ->
  exists msg : string,
    request c method path session body w
    = (Err (errorf msg), w ++ [new_request c method path session body])
    /\ contains (itoa (http.StatusCode res)) msg
    /\ contains (http.data (http.Body res)) msg
    /\ (http.data (http.Body res) <> EmptyString ->
        msg = "status code " +:+ itoa (http.StatusCode res) +:+ ": "
              +:+ http.data (http.Body res)).
Proof.
  intros Hans Hcode. rewrite (request_answered _ _ _ _ _ _ _ Hans).
  destruct Hans as (_ & _ & Hread & _). unfold classify. rewrite Hread.
  destruct (String.length (http.data (http.Body res)) =? 0)%nat eqn:Hlen.
  - apply string_length_zero in Hlen. rewrite Hlen.
    replace (http.StatusCode res =? http.StatusOK) with false
      by (symmetry; apply Z.eqb_neq; unfold http.StatusOK; lia).
    eexists. split; [reflexivity|]. split; [apply contains_middle|].
    split; [apply contains_empty|]. congruence.
  - replace (http.StatusInternalServerError <=? http.StatusCode res) with true
      by (symmetry; apply Z.leb_le; exact Hcode).
    eexists. split; [reflexivity|]. split; [apply contains_middle|]. split.
    + exists ("status code " +:+ itoa (http.StatusCode res) +:+ ": "), EmptyString.
      now rewrite string_app_nil_r, !string_app_assoc.
    + reflexivity.
Qed.

Lemma request_server_fault_witness :
  let res := {| http.StatusCode := 503; http.Header := empty;
                http.Body := {| http.data := "<html>Service Unavailable</html>";
                                http.read_err := None; http.close_err := None |} |} in
  let c := {| cl := fun _ => inr res; baseURL := "https://game.wordfeud.com/wf" |} in
  exists msg : string,
    @request (fun _ _ => None) c "GET" "/user/games" "s" None []
    = (Err (errorf msg), [new_request c "GET" "/user/games" "s" None])
    /\ msg = "status code 503: <html>Service Unavailable</html>".
Proof.
  intros res c.
  destruct (@request_server_fault (fun _ _ => None) c "GET" "/user/games" "s" None res [])
    as (msg & Hreq & _ & _ & Hmsg).
  - repeat split.
  - simpl. lia.
  - exists msg. split; [exact Hreq|]. apply Hmsg. discriminate.
Defined.


(** ** The error taxonomy *)

Lemma Sentinel_text_inj (s1 s2 : Sentinel) :
  Sentinel_text s1 = Sentinel_text s2 -> s1 = s2.
Proof. destruct s1, s2; simpl; intros Heq; first [reflexivity|discriminate Heq]. Qed.

Lemma sentinel_map_known (s : Sentinel) :
  sentinel_map !! Sentinel_text s = Some (sentinel s).
Proof. destruct s; vm_compute; reflexivity. Qed.

Lemma sentinel_map_unknown (ty : string) :
  (forall s, ty <> Sentinel_text s) -> sentinel_map !! ty = None.
Proof.
  intros Hno. unfold sentinel_map. apply not_elem_of_list_to_map_1.
  cbn [fmap list_fmap fst]. intros Hin.
  repeat (apply elem_of_cons in Hin as [Heq|Hin];
          [ first [ exact (Hno ErrAccessDenied Heq) | exact (Hno ErrAlreadyExists Heq)
                  | exact (Hno ErrDuplicateInvite Heq) | exact (Hno ErrGameOver Heq)
                  | exact (Hno ErrIllegalMove Heq) | exact (Hno ErrIllegalTiles Heq)
                  | exact (Hno ErrIllegalUserSelf Heq) | exact (Hno ErrIllegalWord Heq)
                  | exact (Hno ErrInvalidBoardType Heq) | exact (Hno ErrInvalidID Heq)
                  | exact (Hno ErrInvalidRuleset Heq) | exact (Hno ErrLoginRequired Heq)
                  | exact (Hno ErrNotFound Heq) | exact (Hno ErrNotYourTurn Heq)
                  | exact (Hno ErrUnknownEmail Heq) | exact (Hno ErrUserNotFound Heq)
                  | exact (Hno ErrWrongPassword Heq) ] | ]).
  inversion Hin.
Qed.

(** [convertToSentinel] on a descriptor: the sentinel of a known type, the
    descriptor itself otherwise. *)
Lemma convertToSentinel_known (e : apiError) (s : Sentinel) :
  Type_ e = Sentinel_text s -> convertToSentinel (Some e) = inr (sentinel s).
Proof. intros Hty. unfold convertToSentinel. now rewrite Hty, sentinel_map_known. Qed.

Lemma convertToSentinel_unknown (e : apiError) :
  (forall s, Type_ e <> Sentinel_text s) -> convertToSentinel (Some e) = inr (api e).
Proof. intros Hno. unfold convertToSentinel. now rewrite sentinel_map_unknown. Qed.

(** C2.  A response with a body, a status code below 500 and an envelope
    whose status is "error" and whose content decodes to a descriptor makes
    [request] fail with the error the descriptor alone determines: the
    sentinel of its type when the type is one of the seventeen known ones
    (distinct types give distinct sentinels, [Sentinel_text_inj]), the
    descriptor with its type and message otherwise.  The status code, 200
    included, plays no part. *)
Theorem request_error_envelope `{NewRequestError} (c : Client) (method path : string)
        (session : SessionID) (body : option string) (res : http.Response)
        (w : list http.Request) (rb : responseBody) (e : apiError) :
  answered c method path session body res ->
  http.data (http.Body res) <> EmptyString ->
  http.StatusCode res < 500 ->
  Unmarshal_responseBody (http.data (http.Body res)) = inr rb ->
  Status rb = "error" ->
  Unmarshal_apiError (bytes_of (rbContent rb)) = inr (Some e) ->
  exists err : error,
    request c method path session body w
    = (Err err, w ++ [new_request c method path session body])
    /\ (forall s, Type_ e = Sentinel_text s -> err = sentinel s)
    /\ ((forall s, Type_ e <> Sentinel_text s) -> err = api e).
Proof.
  intros Hans Hbody Hcode Henv Hstatus Hdesc.
  rewrite (request_answered _ _ _ _ _ _ _ Hans).
  destruct Hans as (_ & _ & Hread & _). unfold classify. rewrite Hread.
  destruct (String.length (http.data (http.Body res)) =? 0)%nat eqn:Hlen.
  { apply string_length_zero in Hlen. contradiction. }
  replace (http.StatusInternalServerError <=? http.StatusCode res) with false
    by (symmetry; apply Z.leb_gt; exact Hcode).
  rewrite Henv, Hstatus, Hdesc. simpl String.eqb. cbv iota.
  destruct (convertToSentinel (Some e)) as [p|err] eqn:Hconv.
  { unfold convertToSentinel in Hconv. destruct (sentinel_map !! Type_ e); discriminate. }
  exists err. split; [reflexivity|]. split.
  - intros s Hs. rewrite (convertToSentinel_known e s Hs) in Hconv. congruence.
  - intros Hno. rewrite (convertToSentinel_unknown e Hno) in Hconv. congruence.
Qed.

Lemma request_error_envelope_witness :
  let res := {| http.StatusCode := 200; http.Header := empty;
                http.Body :=
                  {| http.data :=
                       json_text "{'status':'error','content':{'type':'not_your_turn','message':'x'}}";
                     http.read_err := None; http.close_err := None |} |} in
  let c := {| cl := fun _ => inr res; baseURL := "https://game.wordfeud.com/wf" |} in
  fst (@request (fun _ _ => None) c "POST" "/game/7/pass" "s" None [])
  = Err (sentinel ErrNotYourTurn).
Proof.
  intros res c.
  destruct (@request_error_envelope (fun _ _ => None) c "POST" "/game/7/pass" "s" None res []
              {| Status := "error";
                 rbContent := Some (json_text "{'type':'not_your_turn','message':'x'}") |}
              {| Type_ := "not_your_turn"; Message := "x" |})
    as (err & Hreq & Hknown & _).
  - repeat split.
  - discriminate.
  - simpl. lia.
  - vm_compute. reflexivity.
  - reflexivity.
  - vm_compute. reflexivity.
  - rewrite Hreq. simpl. f_equal. apply (Hknown ErrNotYourTurn). reflexivity.
Defined.

(** ** The decode helper *)

(** C7.  When the call of [request] succeeds, [roundtrip] fails if the
    content is nil; otherwise it decodes the content into a fresh [C] and
    returns the decoded value when decoding succeeds, and the error of the
    decoder, wrapped as "unmarshalling response body: ...", when it
    fails. *)
Theorem roundtrip_decodes {B C : Type} `{NewRequestError} `{Marshaler B} `{Unmarshaler C}
        (c : Client) (method path : string) (session : SessionID) (body : option B)
        (b : option string) (res : response) (w w' : list http.Request) :
  marshalled body b ->
  request c method path session b w = (Ok res, w') ->
  (Content res = None ->
   roundtrip (C := C) c method path session body w
   = (Err (errorf "response body content field is empty"), w'))
  /\ (forall content, Content res = Some content ->
      (forall t : C, Unmarshal content = Ok t ->
                     roundtrip (C := C) c method path session body w = (Ok t, w'))
      /\ (forall e, Unmarshal (C := C) content = Err e ->
                    roundtrip (C := C) c method path session body w
                    = (Err (errorf_v "unmarshalling response body: " e), w'))).
Proof.
  intros Hm Hreq.
  assert (Hrt : roundtrip (C := C) c method path session body w
                = match Content res with
                  | None => (Err (errorf "response body content field is empty"), w')
                  | Some content =>
                    match Unmarshal (C := C) content with
                    | Ok t => (Ok t, w')
                    | Err e => (Err (errorf_v "unmarshalling response body: " e), w')
                    | Panic p => (Panic p, w')
                    end
                  end).
  { unfold roundtrip, bind. destruct body as [v|]; simpl in Hm.
    - destruct Hm as (bs & Hbs & ->). rewrite Hbs. unfold ret at 1. rewrite Hreq.
      destruct (Content res) as [content|]; [|reflexivity].
      destruct (Unmarshal content); reflexivity.
    - subst b. unfold ret at 1. rewrite Hreq.
      destruct (Content res) as [content|]; [|reflexivity].
      destruct (Unmarshal content); reflexivity. }
  rewrite Hrt. split.
  - intros ->. reflexivity.
  - intros content ->. split.
    + intros t ->. reflexivity.
    + intros e ->. reflexivity.
Qed.

Lemma roundtrip_decodes_witness :
  let res := {| http.StatusCode := 200; http.Header := empty;
                http.Body := {| http.data := json_text "{'status':'ok','content':1609459200.5}";
                                http.read_err := None; http.close_err := None |} |} in
  let c := {| cl := fun _ => inr res; baseURL := "https://game.wordfeud.com/wf" |} in
  fst (@roundtrip MoveBody Timestamp (fun _ _ => None) _ Timestamp_UnmarshalJSON
                  c "GET" "/user/avatar" "s" None [])
  = Ok {| Time := {| time.sec := 1609459200; time.nsec := 500000000 |} |}.
Proof.
  intros res c.
  destruct (@roundtrip_decodes MoveBody Timestamp (fun _ _ => None) _ Timestamp_UnmarshalJSON
              c "GET" "/user/avatar" "s" None None
              {| Content := Some "1609459200.5"; Header := empty |}
              [] [new_request c "GET" "/user/avatar" "s" None])
    as (_ & Hsome).
  - reflexivity.
  - vm_compute. reflexivity.
  - destruct (Hsome "1609459200.5" eq_refl) as (Hok & _).
    rewrite (Hok {| Time := {| time.sec := 1609459200; time.nsec := 500000000 |} |}).
    + reflexivity.
    + vm_compute. reflexivity.
Defined.


(** ** Passwords *)

Lemma byte_val_range (c : ascii) : 0 <= byte_val c < 256.
Proof.
  unfold byte_val. pose proof (N_ascii_bounded c) as Hb. lia.
Qed.

Lemma hex_digit_lower (z : Z) : 0 <= z < 16 -> is_lower_hex (hex_digit z) = true.
Proof.
  intros Hz.
  assert (Hcases : z = 0 \/ z = 1 \/ z = 2 \/ z = 3 \/ z = 4 \/ z = 5 \/ z = 6 \/ z = 7
                   \/ z = 8 \/ z = 9 \/ z = 10 \/ z = 11 \/ z = 12 \/ z = 13 \/ z = 14
                   \/ z = 15) by lia.
  repeat (destruct Hcases as [->|Hcases]; [reflexivity|]). now subst.
Qed.

Lemma EncodeToString_hex (s : string) : all_bytes is_lower_hex (hex.EncodeToString s) = true.
Proof.
  induction s as [|c r IH]; [reflexivity|]. simpl.
  pose proof (byte_val_range c) as Hc.
  rewrite !hex_digit_lower, IH; [reflexivity| |].
  - apply Z.mod_pos_bound. lia.
  - split; [apply Z.div_pos; lia|apply Z.div_lt_upper_bound; lia].
Qed.

Lemma EncodeToString_length (s : string) :
  String.length (hex.EncodeToString s) = (2 * String.length s)%nat.
Proof. induction s as [|c r IH]; simpl; [reflexivity|]. rewrite IH. lia. Qed.

(** Hexadecimal digits are copied by the encoder of JSON strings as they
    are. *)
Lemma quote_body_hex (s : string) :
  all_bytes is_lower_hex s = true ->
  forall fuel, (String.length s <= fuel)%nat -> json.quote_body fuel s = s.
Proof.
  induction s as [|c r IH]; intros Hhex fuel Hfuel.
  - destruct fuel; reflexivity.
  - simpl in Hhex. apply andb_true_iff in Hhex as [Hc Hr].
    destruct fuel as [|fuel]; [simpl in Hfuel; lia|]. simpl in Hfuel.
    simpl. unfold is_lower_hex in Hc.
    assert (Hlt : (byte_val c <? utf8.RuneSelf) = true) by (unfold utf8.RuneSelf; lia).
    assert (Hsafe : json.htmlSafe (byte_val c) = true) by (unfold json.htmlSafe; lia).
    rewrite Hlt, Hsafe, IH; [reflexivity|exact Hr|lia].
Qed.

Lemma appendString_hex (s : string) :
  all_bytes is_lower_hex s = true ->
  json.appendString s = quoted s.
Proof.
  intros Hhex. unfold json.appendString. now rewrite quote_body_hex.
Qed.

(** The digest [hashPassword] yields is forty lower-case hexadecimal
    digits, whatever the password. *)
Lemma hashPassword_hex (password : string) :
  all_bytes is_lower_hex (hashPassword password) = true.
Proof. apply EncodeToString_hex. Qed.

Lemma sha1_Sum_length (msg : string) : String.length (sha1.Sum msg) = 20%nat.
Proof.
  unfold sha1.Sum.
  destruct (sha1.blocks _ _ _) as [[[[h0 h1] h2] h3] h4]. reflexivity.
Qed.

(** What [request] leaves in the list of requests: the request it built,
    whatever the transport answers, or nothing when the request cannot be
    built. *)
Lemma request_sent_if_built `{NewRequestError} (c : Client) (method path : string)
      (session : SessionID) (body : option string) (w : list http.Request) :
  sent_if_built (new_request c method path session body) w
                (snd (request c method path session body w)).
Proof.
  unfold request, sent_if_built. cbn [new_request http.Method http.URL].
  destruct (NewRequest_error _ _); [reflexivity|].
  destruct (cl c _); reflexivity.
Qed.

Lemma bind_request_sent `{NewRequestError} {A : Type} (c : Client) (path : string)
      (session : SessionID) (body : string) (k : response -> outcome A)
      (w : list http.Request) :
  snd ((res <- request c http.MethodPost path session (Some body) ;; lift (k res)) w)
  = snd (request c http.MethodPost path session (Some body) w).
Proof.
  unfold bind.
  destruct (request c http.MethodPost path session (Some body) w) as [[res|e|p] w'];
    reflexivity.
Qed.

Lemma sent_as `{NewRequestError} (req req' : http.Request) (w w' : list http.Request) :
  sent_if_built req w w' -> req = req' -> sent_if_built req' w w'.
Proof. now intros Hs <-. Qed.

(** The request [new_request] builds, field by field. *)
Ltac same_request :=
  unfold new_request, request_url, json.marshal_object, json.join_members,
         json.appendString, quoted;
  cbn; f_equal; cbn;
  repeat first [progress cbn [append] | rewrite string_app_assoc]; reflexivity.

(** C9.  Each of the four operations that take a password sends exactly
    one request when the request can be built (and none otherwise): a POST
    to the operation's URL whose body is the JSON object written out here.
    Its [password] member is, between quotes, what [hashPassword] returns:
    the forty lower-case hexadecimal digits of the SHA-1 digest of the
    password followed by the fixed salt [JarJarBinks9]; the password
    enters the request in no other way. *)
Theorem passwords_sent_hashed {Login : Type} `{NewRequestError} `{Unmarshaler Login}
        (c : Client) (username email password : string) (id : Z) (session : SessionID)
        (w : list http.Request) :
  let digest := hex.EncodeToString (sha1.Sum (password +:+ "JarJarBinks9")) in
  let post (url : string) (cookie : list (string * string)) (body : string) :=
      {| http.Method := "POST";
         http.URL := baseURL c +:+ url;
         http.ReqHeader := [("Accept", "application/json");
                            ("Content-Type", "application/json")] ++ cookie;
         http.ReqBody := body |} in
  (hashPassword password = digest
   /\ String.length digest = 40%nat /\ all_bytes is_lower_hex digest = true)
  /\ sent_if_built
       (post "/user/create/" []
             (json_text "{'username':" +:+ json.appendString username
              +:+ json_text ",'email':" +:+ json.appendString email
              +:+ json_text ",'password':'" +:+ digest +:+ json_text "'}"))
       w (snd (CreateAccount (Login := Login) c username email password w))
  /\ sent_if_built
       (post "/user/login/email/" []
             (json_text "{'email':" +:+ json.appendString email
              +:+ json_text ",'password':'" +:+ digest +:+ json_text "'}"))
       w (snd (LoginWithEmail c email password w))
  /\ sent_if_built
       (post "/user/login/id/" []
             (json_text "{'id':" +:+ itoa id
              +:+ json_text ",'password':'" +:+ digest +:+ json_text "'}"))
       w (snd (LoginWithID c id password w))
  /\ sent_if_built
       (post "/user/password/set/"
             (if String.eqb session EmptyString then []
              else [("Cookie", "sessionid=" +:+ session)])
             (json_text "{'password':'" +:+ digest +:+ json_text "'}"))
       w (snd (ChangePassword c session password w)).
Proof.
  intros digest post. subst post.
  assert (Hhex : all_bytes is_lower_hex digest = true) by apply EncodeToString_hex.
  assert (Hq : json.appendString (hashPassword password) = quoted digest)
    by (apply appendString_hex, hashPassword_hex).
  split; [split; [reflexivity|split; [|exact Hhex]]|].
  { unfold digest. now rewrite EncodeToString_length, sha1_Sum_length. }
  repeat split.
  - unfold CreateAccount, marshalling, Marshal_CreateAccountBody. simpl. rewrite Hq.
    set (body := json.marshal_object _).
    replace (snd _) with (snd (request c http.MethodPost "/user/create" EmptyString
                                       (Some body) w)).
    + eapply sent_as; [apply request_sent_if_built|]. unfold body. same_request.
    + unfold bind.
      destruct (request c http.MethodPost "/user/create" EmptyString (Some body) w)
        as [[res|e|p] w']; try reflexivity. cbn [fst snd].
      destruct (Unmarshal (bytes_of (Content res))); try reflexivity.
      unfold lift. destruct (extractSessionID res); reflexivity.
  - unfold LoginWithEmail, marshalling, Marshal_LoginWithEmailBody. simpl. rewrite Hq.
    rewrite bind_request_sent.
    eapply sent_as; [apply request_sent_if_built|same_request].
  - unfold LoginWithID, marshalling, Marshal_LoginWithIDBody. simpl. rewrite Hq.
    rewrite bind_request_sent.
    eapply sent_as; [apply request_sent_if_built|same_request].
  - unfold ChangePassword, marshalling, Marshal_ChangePasswordBody. simpl. rewrite Hq.
    replace (snd _) with (snd (request c http.MethodPost "/user/password/set" session
                                       (Some (json.marshal_object
                                                [("password", quoted digest)])) w)).
    + eapply sent_as; [apply request_sent_if_built|].
      unfold new_request, request_url, SessionID_cookie.
      destruct (String.eqb session EmptyString); same_request.
    + unfold bind.
      destruct (request c http.MethodPost "/user/password/set" session _ w)
        as [[res|e|p] w']; reflexivity.
Qed.


(** The request of [ChangePassword] for the password [hunter2], in full. *)
Example ChangePassword_wire :
  snd (@ChangePassword (fun _ _ => None)
         {| cl := fun _ => inl "no network"; baseURL := "https://game.wordfeud.com/wf" |}
         "abc123" "hunter2" [])
  = [ {| http.Method := "POST";
         http.URL := "https://game.wordfeud.com/wf/user/password/set/";
         http.ReqHeader := [("Accept", "application/json");
                            ("Content-Type", "application/json");
                            ("Cookie", "sessionid=abc123")];
         http.ReqBody :=
           json_text "{'password':'bb68ad5a1fec9e4ce6a0875da3a6fc64450727b2'}" |} ].
Proof. vm_compute. reflexivity. Qed.

Example sha1_abc :
  hex.EncodeToString (sha1.Sum "abc") = "a9993e364706816aba3e25717850c26c9cd0d89d".
Proof. vm_compute. reflexivity. Qed.

Example sha1_two_blocks :
  hex.EncodeToString (sha1.Sum "abcdbcdecdefdefgefghfghighijhijkijkljklmklmnlmnomnopnopq")
  = "84983e441c3bd26ebaae4aa1f95129e5e54670f1".
Proof. vm_compute. reflexivity. Qed.


(** ** [Placement.UnmarshalJSON] on other shapes *)

(** Once the input is a JSON array (or [null]), the decoder returns a
    placement exactly when the first four elements are two numbers, a
    string and a boolean, and panics on every other shape: no error is
    returned for them. *)
Lemma Placement_UnmarshalJSON_shape (b : string) (a0 a1 a2 a3 : any) :
  json.Unmarshal_array4_any b = inr (a0, a1, a2, a3) ->
  (exists f0 f1 s bl,
      (a0, a1, a2, a3) = (a_float64 f0, a_float64 f1, a_string s, a_bool bl)
      /\ Placement_UnmarshalJSON b
         = Ok {| Column := f64.to_int64 f0; Row := f64.to_int64 f1;
                 Letter := s; Blank := bl |})
  \/ (exists p, Placement_UnmarshalJSON b = Panic p).
Proof.
  intros Hdec. unfold Placement_UnmarshalJSON. rewrite Hdec.
  destruct a0 as [| | f0 | | | |]; try (right; eexists; reflexivity).
  destruct a1 as [| | f1 | | | |]; try (right; eexists; reflexivity).
  destruct a2 as [| | | s | | |]; try (right; eexists; reflexivity).
  destruct a3 as [| bl | | | | |]; try (right; eexists; reflexivity).
  left. exists f0, f1, s, bl. split; reflexivity.
Qed.

(** C10, at an input where the code departs from it: a JSON array of four
    elements that are not (number, number, string, bool) makes the decoder
    panic on the first type assertion instead of returning an error. *)
Theorem Placement_UnmarshalJSON_panics :
  Placement_UnmarshalJSON (json_text "['7','7','A',false]")
  = Panic (InterfaceConversion (a_string "7") "float64").
Proof. vm_compute. reflexivity. Qed.

(** The same happens on [null] and on arrays that are too short, whose
    missing elements stay nil. *)
Example Placement_UnmarshalJSON_null :
  Placement_UnmarshalJSON "null" = Panic (InterfaceConversion a_nil "float64")
  /\ Placement_UnmarshalJSON "[7,7]" = Panic (InterfaceConversion a_nil "string").
Proof. split; vm_compute; reflexivity. Qed.

(** ** Timestamps *)

Lemma iter_xO_spec (m k : positive) :
  digits2_pos (Pos.iter xO m k) = (digits2_pos m + k)%positive
  /\ Zpos (Pos.iter xO m k) = Zpos m * 2 ^ Zpos k.
Proof.
  apply (Pos.iter_ind positive xO m
           (fun k a => digits2_pos a = (digits2_pos m + k)%positive
                       /\ Zpos a = Zpos m * 2 ^ Zpos k)).
  - split; [simpl; lia|]. rewrite Z.pow_1_r. lia.
  - intros p a [Hd Hv]. split.
    + simpl. rewrite Hd. lia.
    + rewrite Pos2Z.inj_succ, Z.pow_succ_r by lia. lia.
Qed.

Lemma binary_round_aux_canonical (s : bool) (m : positive) (e : Z) :
  fexp f64.prec f64.emax (Zpos (digits2_pos m) + e) = e ->
  e <= 971 ->
  binary_round_aux f64.prec f64.emax s (Zpos m) e loc_Exact = S754_finite s m e.
Proof.
  intros Hc He. unfold binary_round_aux, shr_fexp.
  change (Zdigits2 (Zpos m)) with (Zpos (digits2_pos m)).
  rewrite Hc, Z.sub_diag. cbn [shr shr_record_of_loc shr_m loc_of_shr_record
                                  round_nearest_even Zdigits2].
  rewrite Hc, Z.sub_diag. cbn [shr shr_record_of_loc shr_m].
  replace (e <=? f64.emax - f64.prec) with true; [reflexivity|].
  symmetry. apply Z.leb_le. unfold f64.emax, f64.prec. lia.
Qed.

(** Rounding a number that needs no rounding: a mantissa that fits the
    precision at its exponent is only shifted to the canonical exponent. *)
Lemma binary_round_exact (s : bool) (m : positive) (e : Z) :
  let e' := fexp f64.prec f64.emax (Zpos (digits2_pos m) + e) in
  e' <= e -> e' <= 971 ->
  exists m' : positive,
    binary_round f64.prec f64.emax s m e = S754_finite s m' e'
    /\ Zpos m' = Zpos m * 2 ^ (e - e').
Proof.
  intros e' Hle Hmax. unfold binary_round, shl_align. fold e'.
  destruct (e' - e) as [|d|d] eqn:Hd; try lia.
  - assert (He : e' = e) by lia. exists m. rewrite He. split.
    + apply binary_round_aux_canonical; [exact He|lia].
    + rewrite Z.sub_diag. lia.
  - destruct (iter_xO_spec m d) as [Hdig Hval].
    exists (Pos.iter xO m d). split.
    + apply binary_round_aux_canonical; [|exact Hmax].
      rewrite Hdig, Pos2Z.inj_add.
      replace (Zpos (digits2_pos m) + Zpos d + e') with (Zpos (digits2_pos m) + e) by lia.
      reflexivity.
    + rewrite Hval. f_equal. f_equal. lia.
Qed.

Lemma digits2_pos_le (a b : positive) :
  (a <= b)%positive -> (digits2_pos a <= digits2_pos b)%positive.
Proof.
  revert b. induction a as [a IH|a IH|]; intros b Hab; destruct b as [b|b|]; simpl;
    try lia; try (specialize (IH b); lia).
Qed.

(** A valid finite float has a mantissa of at most 53 bits and an exponent
    between -1074 and 971. *)
Lemma valid_finite (s : bool) (m : positive) (e : Z) :
  valid_binary f64.prec f64.emax (S754_finite s m e) = true ->
  Zpos (digits2_pos m) <= 53 /\ -1074 <= e <= 971.
Proof.
  unfold valid_binary, bounded, canonical_mantissa, fexp, emin, f64.prec, f64.emax.
  intros H. apply andb_true_iff in H as [H1 H2].
  apply Z.eqb_eq in H1. apply Z.leb_le in H2. lia.
Qed.

Lemma trunc_neg_exp (s : bool) (m p : positive) :
  f64.trunc (S754_finite s m (Zneg p))
  = if s then - (Zpos m / 2 ^ Zpos p) else Zpos m / 2 ^ Zpos p.
Proof. unfold f64.trunc. rewrite Z.shiftr_div_pow2 by lia. reflexivity. Qed.

Lemma trunc_nonneg_exp (s : bool) (m : positive) (e : Z) :
  0 <= e ->
  f64.trunc (S754_finite s m e) = if s then - (Zpos m * 2 ^ e) else Zpos m * 2 ^ e.
Proof.
  intros He. unfold f64.trunc.
  destruct e as [|q|q]; try lia; rewrite Z.shiftl_mul_pow2 by lia; reflexivity.
Qed.

Lemma to_int64_trunc (x y : float64) :
  f64.is_finite x = true -> f64.is_finite y = true -> f64.trunc x = f64.trunc y ->
  f64.to_int64 x = f64.to_int64 y.
Proof. intros Hx Hy Ht. unfold f64.to_int64. now rewrite Hx, Hy, Ht. Qed.

Lemma pos_div_pow2_le (m p : positive) (q : positive) :
  Zpos m / 2 ^ Zpos p = Zpos q -> (q <= m)%positive.
Proof.
  intros Hq. assert (0 < 2 ^ Zpos p) by (apply Z.pow_pos_nonneg; lia).
  assert (Zpos m / 2 ^ Zpos p <= Zpos m).
  { apply Z.div_le_upper_bound; [lia|]. nia. }
  lia.
Qed.

(** The integer part [Modf] returns is the float truncated to an integer,
    and the fractional part is exactly what is left. *)
Lemma Modf_spec (f : float64) :
  valid_binary f64.prec f64.emax f = true ->
  f64.to_int64 (fst (math.Modf f)) = f64.to_int64 f
  /\ fraction_value f (snd (math.Modf f)).
Proof.
  intros Hvalid.
  destruct f as [s|s| |s m e]; try (split; [reflexivity|]; unfold fraction_value; simpl; lia).
  destruct (valid_finite s m e Hvalid) as [Hdig He].
  destruct e as [|q|p].
  - split; [reflexivity|]. unfold fraction_value. simpl math.Modf. simpl snd.
    rewrite trunc_nonneg_exp by lia. unfold f64.num_den. destruct s; split; lia.
  - split; [reflexivity|]. unfold fraction_value. simpl math.Modf. simpl snd.
    rewrite trunc_nonneg_exp by lia. unfold f64.num_den. destruct s; split; lia.
  - assert (Hpow : 0 < 2 ^ Zpos p) by (apply Z.pow_pos_nonneg; lia).
    pose proof (Z.div_mod (Zpos m) (2 ^ Zpos p) ltac:(lia)) as Hdm.
    pose proof (Z.mod_pos_bound (Zpos m) (2 ^ Zpos p) Hpow) as Hmod.
    assert (Hdiv : 0 <= Zpos m / 2 ^ Zpos p) by (apply Z.div_pos; lia).
    unfold math.Modf. rewrite Z.shiftr_div_pow2, Z.land_ones by lia.
    cbn [fst snd]. split.
    + (* the integer part *)
      destruct (Zpos m / 2 ^ Zpos p) as [|ip|ip] eqn:Hip; try lia.
      * simpl Z.eqb. cbv iota. apply to_int64_trunc; try reflexivity.
        rewrite trunc_neg_exp, Hip. destruct s; reflexivity.
      * simpl Z.eqb. cbv iota.
        assert (Hbn : binary_normalize f64.prec f64.emax
                        (if s then - Zpos ip else Zpos ip) 0 s
                      = binary_round f64.prec f64.emax s ip 0) by (destruct s; reflexivity).
        rewrite Hbn.
        pose proof (digits2_pos_le ip m (pos_div_pow2_le m p ip Hip)) as Hdip.
        destruct (binary_round_exact s ip 0) as (m' & Hr & Hm');
          [unfold fexp, emin, f64.prec, f64.emax; lia
          |unfold fexp, emin, f64.prec, f64.emax; lia|].
        rewrite Hr. apply to_int64_trunc; try reflexivity.
        rewrite trunc_neg_exp, Hip.
        set (e' := fexp f64.prec f64.emax (Zpos (digits2_pos ip) + 0)) in *.
        assert (He' : e' <= 0) by (unfold e', fexp, emin, f64.prec, f64.emax; lia).
        destruct e' as [|q|q] eqn:Heq; try lia.
        -- rewrite trunc_nonneg_exp by lia. rewrite Hm'. simpl. destruct s; lia.
        -- rewrite trunc_neg_exp, Hm'. replace (0 - Zneg q) with (Zpos q) by lia.
           rewrite Z.div_mul by lia. destruct s; reflexivity.
    + (* the fractional part *)
      unfold fraction_value. rewrite trunc_neg_exp.
      destruct (Zpos m mod 2 ^ Zpos p) as [|fp|fp] eqn:Hfp; try lia.
      * simpl Z.eqb. cbv iota. unfold f64.num_den. destruct s; split; nia.
      * simpl Z.eqb. cbv iota.
        assert (Hbn : binary_normalize f64.prec f64.emax
                        (if s then - Zpos fp else Zpos fp) (Zneg p) s
                      = binary_round f64.prec f64.emax s fp (Zneg p))
          by (destruct s; reflexivity).
        rewrite Hbn.
        assert (Hfm : (fp <= m)%positive).
        { assert (Zpos m mod 2 ^ Zpos p <= Zpos m) by (apply Z.mod_le; lia). lia. }
        pose proof (digits2_pos_le fp m Hfm) as Hdfp.
        destruct (binary_round_exact s fp (Zneg p)) as (m' & Hr & Hm');
          [unfold fexp, emin, f64.prec, f64.emax; lia
          |unfold fexp, emin, f64.prec, f64.emax; lia|].
        rewrite Hr.
        set (e' := fexp f64.prec f64.emax (Zpos (digits2_pos fp) + Zneg p)) in *.
        assert (He' : e' <= Zneg p) by (unfold e', fexp, emin, f64.prec, f64.emax; lia).
        destruct e' as [|q|q] eqn:Heq; try lia.
        assert (Hqp : Zpos q = Zpos p + (Zneg p - Zneg q)) by lia.
        assert (Hsplit : 2 ^ Zpos q = 2 ^ Zpos p * 2 ^ (Zneg p - Zneg q)).
        { rewrite Hqp at 1. apply Z.pow_add_r; lia. }
        assert (Hk : 0 < 2 ^ (Zneg p - Zneg q)) by (apply Z.pow_pos_nonneg; lia).
        unfold f64.num_den. rewrite Hsplit.
        destruct s; split; nia.
Qed.

(** [time.Unix] keeps the instant and brings the nanoseconds into
    [0, 999999999], as long as the seconds stay within int64. *)
Lemma Unix_normalizes (sec nsec : Z) :
  - 2 ^ 62 <= sec <= 2 ^ 62 -> - 2 ^ 62 <= nsec <= 2 ^ 62 ->
  let t := time.Unix sec nsec in
  0 <= time.nsec t < 1000000000
  /\ time.sec t * 1000000000 + time.nsec t = sec * 1000000000 + nsec.
Proof.
  intros Hs Hn. unfold time.Unix.
  destruct ((nsec <? 0) || (1000000000 <=? nsec)) eqn:Hout; [|simpl; lia].
  pose proof (Z.quot_rem' nsec 1000000000) as Hqr.
  pose proof (Z.rem_bound_abs nsec 1000000000 ltac:(lia)) as Hrb.
  assert (Hq : Z.abs (Z.quot nsec 1000000000) <= 2 ^ 62) by lia.
  assert (Hw : forall z, - 2 ^ 63 <= z < 2 ^ 63 -> time.wrap64 z = z).
  { intros z Hz. unfold time.wrap64. rewrite Z.mod_small; lia. }
  rewrite (Hw (sec + _)) by lia.
  rewrite (Hw (Z.quot nsec 1000000000 * 1000000000)) by lia.
  rewrite (Hw (nsec - _)) by lia.
  destruct (nsec - Z.quot nsec 1000000000 * 1000000000 <? 0) eqn:Hneg; cbn [time.sec time.nsec].
  - rewrite !Hw by lia. lia.
  - lia.
Qed.

(** *** The digits of a mantissa *)

Lemma digits2_bounds (m : positive) :
  2 ^ (Zpos (digits2_pos m) - 1) <= Zpos m < 2 ^ Zpos (digits2_pos m).
Proof.
  induction m as [m IH|m IH|]; cbn [digits2_pos]; [| |simpl; lia];
    rewrite Pos2Z.inj_succ;
    replace (Z.succ (Zpos (digits2_pos m)) - 1) with (Z.succ (Zpos (digits2_pos m) - 1))
      by lia;
    rewrite !Z.pow_succ_r by lia; lia.
Qed.

Lemma digits2_unique (m : positive) (d : Z) :
  2 ^ (d - 1) <= Zpos m < 2 ^ d -> Zpos (digits2_pos m) = d.
Proof.
  intros [Hlo Hhi]. pose proof (digits2_bounds m) as [Hl Hh].
  assert (Hd : 0 < d).
  { destruct (Z.ltb_spec 0 d) as [|Hn]; [assumption|].
    assert (2 ^ d <= 2 ^ 0) by (apply Z.pow_le_mono_r; lia).
    change (2 ^ 0) with 1 in *. lia. }
  assert (H1 : Zpos (digits2_pos m) - 1 < d).
  { apply (Z.pow_lt_mono_r_iff 2); lia. }
  assert (H2 : d - 1 < Zpos (digits2_pos m)).
  { apply (Z.pow_lt_mono_r_iff 2); lia. }
  lia.
Qed.

(** A mantissa multiplied by a power of two has that many digits more. *)
Lemma digits2_shift (m m' : positive) (k : Z) :
  0 <= k -> Zpos m' = Zpos m * 2 ^ k ->
  Zpos (digits2_pos m') = Zpos (digits2_pos m) + k.
Proof.
  intros Hk Hm. apply digits2_unique. pose proof (digits2_bounds m) as [Hl Hh].
  replace (Zpos (digits2_pos m) + k - 1) with (Zpos (digits2_pos m) - 1 + k) by lia.
  rewrite !Z.pow_add_r by lia.
  assert (0 < 2 ^ k) by (apply Z.pow_pos_nonneg; lia). nia.
Qed.

(** *** Rounding what needs no rounding *)

Lemma iter_pos_iter {A : Type} (f : A -> A) (n : positive) (x : A) :
  SpecFloat.iter_pos f n x = Pos.iter f x n.
Proof.
  revert x. induction n as [n IH|n IH|]; intros x; cbn [SpecFloat.iter_pos Pos.iter].
  - now rewrite !IH, !Pos.iter_swap.
  - now rewrite !IH.
  - reflexivity.
Qed.

(** Shifting out zero bits leaves no remainder. *)
Lemma shr_zero_bits (m q : positive) :
  SpecFloat.iter_pos shr_1 q {| shr_m := Zpos (Pos.iter xO m q); shr_r := false; shr_s := false |}
  = {| shr_m := Zpos m; shr_r := false; shr_s := false |}.
Proof.
  rewrite iter_pos_iter. induction q as [|q IH] using Pos.peano_ind; [reflexivity|].
  rewrite (Pos.iter_succ q _ xO m), (Pos.iter_succ_r q _ shr_1). exact IH.
Qed.

(** A product [m * 2^n] whose factor [m] fits the format at the exponent
    raised by [n] is rounded to [m] at that exponent. *)
Lemma binary_round_aux_exact (s : bool) (M m : positive) (e n : Z) :
  0 <= n -> Zpos M = Zpos m * 2 ^ n ->
  fexp f64.prec f64.emax (Zpos (digits2_pos M) + e) = e + n ->
  e + n <= 971 ->
  binary_round_aux f64.prec f64.emax s (Zpos M) e loc_Exact = S754_finite s m (e + n).
Proof.
  intros Hn HM Hc He.
  destruct n as [|q|q]; [| |lia].
  - rewrite Z.pow_0_r, Z.mul_1_r in HM. injection HM as ->. rewrite Z.add_0_r in *.
    now apply binary_round_aux_canonical.
  - destruct (iter_xO_spec m q) as [Hdig Hval].
    assert (HMq : M = Pos.iter xO m q) by lia. subst M.
    unfold binary_round_aux, shr_fexp.
    change (Zdigits2 (Zpos (Pos.iter xO m q))) with (Zpos (digits2_pos (Pos.iter xO m q))).
    rewrite Hc. replace (e + Zpos q - e) with (Zpos q) by lia.
    cbn [shr shr_record_of_loc]. rewrite shr_zero_bits.
    cbn [shr_m loc_of_shr_record round_nearest_even Zdigits2].
    rewrite Hdig, Pos2Z.inj_add in Hc.
    replace (Zpos (digits2_pos m) + (e + Zpos q))
      with (Zpos (digits2_pos m) + Zpos q + e) by lia.
    rewrite Hc, Z.sub_diag. cbn [shr shr_record_of_loc shr_m].
    replace (e + Zpos q <=? f64.emax - f64.prec) with true; [reflexivity|].
    symmetry. apply Z.leb_le. unfold f64.emax, f64.prec. lia.
Qed.

(** *** The fractional part is one float *)

Lemma valid_canonical (s : bool) (m : positive) (e : Z) :
  valid_binary f64.prec f64.emax (S754_finite s m e) = true <->
  fexp f64.prec f64.emax (Zpos (digits2_pos m) + e) = e /\ e <= 971.
Proof.
  unfold valid_binary, bounded, canonical_mantissa. rewrite andb_true_iff.
  rewrite Z.eqb_eq, Z.leb_le. unfold f64.emax, f64.prec. intuition lia.
Qed.

(** Two floats in canonical form with the same value are the same. *)
Lemma canonical_unique (m1 m2 : positive) (p1 p2 : positive) :
  fexp f64.prec f64.emax (Zpos (digits2_pos m1) + Zneg p1) = Zneg p1 ->
  fexp f64.prec f64.emax (Zpos (digits2_pos m2) + Zneg p2) = Zneg p2 ->
  Zpos m1 * 2 ^ Zpos p2 = Zpos m2 * 2 ^ Zpos p1 ->
  m1 = m2 /\ p1 = p2.
Proof.
  assert (Hle : forall (a b : positive) (pa pb : positive),
             fexp f64.prec f64.emax (Zpos (digits2_pos a) + Zneg pa) = Zneg pa ->
             fexp f64.prec f64.emax (Zpos (digits2_pos b) + Zneg pb) = Zneg pb ->
             Zpos a * 2 ^ Zpos pb = Zpos b * 2 ^ Zpos pa ->
             Zpos pb <= Zpos pa -> a = b /\ pa = pb).
  { intros a b pa pb Ha Hb Hv Hp.
    assert (Hsplit : 2 ^ Zpos pa = 2 ^ (Zpos pa - Zpos pb) * 2 ^ Zpos pb).
    { rewrite <- Z.pow_add_r by lia. f_equal. lia. }
    assert (Hpb : 0 < 2 ^ Zpos pb) by (apply Z.pow_pos_nonneg; lia).
    assert (Hab : Zpos a = Zpos b * 2 ^ (Zpos pa - Zpos pb)).
    { rewrite Hsplit in Hv. nia. }
    pose proof (digits2_shift b a (Zpos pa - Zpos pb) ltac:(lia) Hab) as Hd.
    assert (Heq : Zpos (digits2_pos a) + Zneg pa = Zpos (digits2_pos b) + Zneg pb) by lia.
    rewrite Heq, Hb in Ha. assert (pa = pb) by lia. subst pb.
    rewrite Z.sub_diag, Z.pow_0_r in Hab. split; [lia|reflexivity]. }
  intros H1 H2 Hv. destruct (Z.le_ge_cases (Zpos p2) (Zpos p1)) as [Hp|Hp].
  - now apply Hle.
  - destruct (Hle m2 m1 p2 p1 H2 H1 (eq_sym Hv) Hp) as [-> ->]. now split.
Qed.

Lemma num_den_pos (x : float64) : 0 < snd (f64.num_den x).
Proof.
  destruct x as [s|s| |s m [|q|q]]; cbn [f64.num_den snd];
    first [lia | apply Z.pow_pos_nonneg; lia].
Qed.

(** The fractional part of a float is determined up to the sign of a
    zero, so its product with 1e9 is one integer. *)
Lemma fraction_unique (f fp1 fp2 : float64) :
  fraction_of f fp1 -> fraction_of f fp2 ->
  f64.to_int64 (f64.mul fp1 (f64.of_Z 1000000000))
  = f64.to_int64 (f64.mul fp2 (f64.of_Z 1000000000)).
Proof.
  intros (Hv1 & Hf1 & H1) (Hv2 & Hf2 & H2). revert H1 H2. unfold fraction_value.
  pose proof (num_den_pos f) as Hdf.
  destruct (f64.num_den f) as [nf df]. cbn [snd] in Hdf.
  set (X := nf - f64.trunc f * df).
  assert (Hbig : forall (b : bool) (m : positive) (e : Z),
             0 <= e -> ~ Z.abs ((if b then Zneg m else Zpos m) * 2 ^ e) < 1).
  { intros b m e He. assert (0 < 2 ^ e) by (apply Z.pow_pos_nonneg; lia).
    destruct b; nia. }
  destruct fp1 as [s1|s1| |s1 m1 e1]; try discriminate Hf1;
    destruct fp2 as [s2|s2| |s2 m2 e2]; try discriminate Hf2.
  - intros _ _. reflexivity.
  - destruct e2 as [|q|q]; cbn [f64.num_den]; intros [H1 _] [H2 B2]; exfalso;
      try (eapply Hbig; [|exact B2]; lia).
    assert (HX : X = 0) by lia. rewrite HX in H2. destruct s2; nia.
  - destruct e1 as [|q|q]; cbn [f64.num_den]; intros [H1 B1] [H2 _]; exfalso;
      try (eapply Hbig; [|exact B1]; lia).
    assert (HX : X = 0) by lia. rewrite HX in H1. destruct s1; nia.
  - apply valid_canonical in Hv1 as [Hc1 _]. apply valid_canonical in Hv2 as [Hc2 _].
    destruct e1 as [|q1|p1]; destruct e2 as [|q2|p2]; cbn [f64.num_den];
      intros [H1 B1] [H2 B2];
      try (exfalso; eapply Hbig; [|exact B1]; lia);
      try (exfalso; eapply Hbig; [|exact B2]; lia).
    assert (Hp1 : 0 < 2 ^ Zpos p1) by (apply Z.pow_pos_nonneg; lia).
    assert (Hp2 : 0 < 2 ^ Zpos p2) by (apply Z.pow_pos_nonneg; lia).
    assert (Hcross : (if s1 then Zneg m1 else Zpos m1) * 2 ^ Zpos p2
                     = (if s2 then Zneg m2 else Zpos m2) * 2 ^ Zpos p1).
    { apply (Z.mul_reg_r _ _ df); [lia|]. 
      transitivity (X * 2 ^ Zpos p1 * 2 ^ Zpos p2); [rewrite <- H1; ring|].
      rewrite (Z.mul_comm _ df) in H2.
      transitivity (df * (if s2 then Zneg m2 else Zpos m2) * 2 ^ Zpos p1); [|ring].
      rewrite Z.mul_comm in H2. rewrite (Z.mul_comm df), H2. ring. }
    assert (Hs : s1 = s2) by (destruct s1, s2; try reflexivity; nia).
    subst s2.
    assert (Hm : Zpos m1 * 2 ^ Zpos p2 = Zpos m2 * 2 ^ Zpos p1) by (destruct s1; lia).
    destruct (canonical_unique m1 m2 p1 p2 Hc1 Hc2 Hm) as [-> ->]. reflexivity.
Qed.

(** The fractional part [Modf] returns is a float64 in canonical form. *)
Lemma Modf_fraction_valid (f : float64) :
  valid_binary f64.prec f64.emax f = true -> f64.is_finite f = true ->
  valid_binary f64.prec f64.emax (snd (math.Modf f)) = true
  /\ f64.is_finite (snd (math.Modf f)) = true.
Proof.
  intros Hvalid Hfin.
  destruct f as [s|s| |s m e]; try discriminate Hfin; [split; reflexivity|].
  destruct (valid_finite s m e Hvalid) as [Hdig He].
  destruct e as [|q|p]; [split; reflexivity|split; reflexivity|].
  assert (Hpow : 0 < 2 ^ Zpos p) by (apply Z.pow_pos_nonneg; lia).
  pose proof (Z.mod_pos_bound (Zpos m) (2 ^ Zpos p) Hpow) as Hmod.
  unfold math.Modf. rewrite Z.land_ones by lia. cbn [snd].
  destruct (Zpos m mod 2 ^ Zpos p) as [|fp|fp] eqn:Hfp; try lia; [split; reflexivity|].
  simpl Z.eqb. cbv iota.
  assert (Hbn : binary_normalize f64.prec f64.emax
                  (if s then - Zpos fp else Zpos fp) (Zneg p) s
                = binary_round f64.prec f64.emax s fp (Zneg p))
    by (destruct s; reflexivity).
  rewrite Hbn.
  assert (Hfm : (fp <= m)%positive).
  { assert (Zpos m mod 2 ^ Zpos p <= Zpos m) by (apply Z.mod_le; lia). lia. }
  pose proof (digits2_pos_le fp m Hfm) as Hdfp.
  destruct (binary_round_exact s fp (Zneg p)) as (m' & Hr & Hm');
    [unfold fexp, emin, f64.prec, f64.emax; lia
    |unfold fexp, emin, f64.prec, f64.emax; lia|].
  rewrite Hr. split; [|reflexivity]. apply valid_canonical.
  set (e' := fexp f64.prec f64.emax (Zpos (digits2_pos fp) + Zneg p)) in *.
  assert (He' : e' <= Zneg p) by (unfold e', fexp, emin, f64.prec, f64.emax; lia).
  split; [|lia].
  rewrite (digits2_shift fp m' (Zneg p - e') ltac:(lia) Hm').
  replace (Zpos (digits2_pos fp) + (Zneg p - e') + e')
    with (Zpos (digits2_pos fp) + Zneg p) by lia.
  reflexivity.
Qed.

(** [Modf] returns the fractional part. *)
Lemma Modf_fraction (f : float64) :
  valid_binary f64.prec f64.emax f = true -> f64.is_finite f = true ->
  fraction_of f (snd (math.Modf f)).
Proof.
  intros Hvalid Hfin. destruct (Modf_fraction_valid f Hvalid Hfin) as [Hv Hf].
  destruct (Modf_spec f Hvalid) as [_ Hfrac]. now repeat split.
Qed.

(** What the decoder returns for the float [f], with [fp] any float64
    that is the fractional part of [f]. *)
Lemma Timestamp_of_float (b : string) (f fp : float64) :
  json.Unmarshal_float64 b = inr f ->
  valid_binary f64.prec f64.emax f = true -> f64.is_finite f = true ->
  fraction_of f fp ->
  Timestamp_UnmarshalJSON b
  = Ok {| Time := time.Unix (f64.to_int64 f)
                            (f64.to_int64 (f64.mul fp (f64.of_Z 1000000000))) |}.
Proof.
  intros Hdec Hvalid Hfin Hfrac.
  destruct (Modf_spec f Hvalid) as [Hint _].
  unfold Timestamp_UnmarshalJSON. rewrite Hdec.
  rewrite (fraction_unique f fp (snd (math.Modf f)) Hfrac (Modf_fraction f Hvalid Hfin)).
  destruct (math.Modf f) as [ip fp']. cbn [fst snd] in *. now rewrite Hint.
Qed.

(** *** Whole nanoseconds *)

Lemma div_pow2_scale (x a b k : Z) :
  0 <= a -> 0 <= b -> 0 <= k ->
  (x * 2 ^ (a + k)) / 2 ^ (b + k) = (x * 2 ^ a) / 2 ^ b.
Proof.
  intros Ha Hb Hk. rewrite !Z.pow_add_r by lia. rewrite Z.mul_assoc.
  apply Z.div_mul_cancel_r.
  - apply Z.pow_nonzero; lia.
  - apply Z.pow_nonzero; lia.
Qed.

(** The product of 1e9 and a fraction [r / 2^p] of at most 32 bits has at
    most 53 bits: the float64 multiplication returns it as it is, and the
    conversion to an integer cuts it to whole nanoseconds. *)
Lemma mul_1e9_exact (s : bool) (r p : positive) :
  Zpos r < 2 ^ Zpos p -> Zpos p <= 32 ->
  f64.to_int64 (f64.mul (binary_round f64.prec f64.emax s r (Zneg p))
                        (f64.of_Z 1000000000))
  = if s then - (Zpos r * 10 ^ 9 / 2 ^ Zpos p) else Zpos r * 10 ^ 9 / 2 ^ Zpos p.
Proof.
  intros Hr Hp.
  pose proof (digits2_bounds r) as [Hrl Hrh].
  set (d := Zpos (digits2_pos r)) in *.
  assert (Hd1 : 1 <= d) by (unfold d; lia).
  assert (Hdp : d <= Zpos p).
  { assert (d - 1 < Zpos p); [|lia]. apply (Z.pow_lt_mono_r_iff 2); lia. }
  destruct (binary_round_exact s r (Zneg p)) as (m' & Hround & Hm');
    [fold d; unfold fexp, emin, f64.prec, f64.emax; lia
    |fold d; unfold fexp, emin, f64.prec, f64.emax; lia|].
  fold d in Hround, Hm'.
  assert (He' : fexp f64.prec f64.emax (d + Zneg p) = d - Zpos p - 53)
    by (unfold fexp, emin, f64.prec, f64.emax; lia).
  rewrite He' in Hround, Hm'. rewrite Hround. clear Hround He'.
  replace (Zneg p - (d - Zpos p - 53)) with (53 - d) in Hm' by lia.
  assert (H1e9 : f64.of_Z 1000000000 = S754_finite false 8388608000000000 (-23))
    by (vm_compute; reflexivity).
  rewrite H1e9. unfold f64.mul. cbn [SFmul]. rewrite xorb_false_r.
  (* the product of the mantissas *)
  set (R := (r * 1953125)%positive).
  assert (HR : Zpos R = Zpos r * 1953125) by (unfold R; lia).
  pose proof (digits2_bounds R) as [HRl HRh].
  set (D := Zpos (digits2_pos R)) in *.
  assert (HdD : d <= D).
  { unfold d, D. pose proof (digits2_pos_le r R ltac:(unfold R; lia)). lia. }
  assert (HD : D <= 53).
  { assert (D - 1 < 53); [|lia]. apply (Z.pow_lt_mono_r_iff 2); [lia|lia|].
    assert (Zpos r < 2 ^ 32).
    { apply Z.lt_le_trans with (1 := Hr). apply Z.pow_le_mono_r; lia. }
    lia. }
  set (M := (m' * 8388608000000000)%positive).
  assert (HM : Zpos M = Zpos R * 2 ^ (85 - d)).
  { unfold M. rewrite Pos2Z.inj_mul, Hm', HR.
    replace (85 - d) with (53 - d + 32) by lia. rewrite Z.pow_add_r by lia.
    change (2 ^ 32) with 4294967296. lia. }
  pose proof (digits2_shift R M (85 - d) ltac:(lia) HM) as HdM. fold D in HdM.
  set (n := D + 32 - d).
  assert (Hpow : 0 < 2 ^ (53 - D)) by (apply Z.pow_pos_nonneg; lia).
  set (M2 := Z.to_pos (Zpos R * 2 ^ (53 - D))).
  assert (HM2 : Zpos M2 = Zpos R * 2 ^ (53 - D)) by (unfold M2; rewrite Z2Pos.id; nia).
  assert (HMn : Zpos M = Zpos M2 * 2 ^ n).
  { rewrite HM, HM2. replace (85 - d) with (53 - D + n) by (unfold n; lia).
    rewrite Z.pow_add_r by (unfold n; lia). ring. }
  rewrite (binary_round_aux_exact s M M2 (d - Zpos p - 53 + -23) n);
    [|unfold n; lia|exact HMn
     |rewrite HdM; unfold n, fexp, emin, f64.prec, f64.emax; lia|unfold n; lia].
  replace (d - Zpos p - 53 + -23 + n) with (D - Zpos p - 44) by (unfold n; lia).
  assert (H10 : Zpos r * 10 ^ 9 = Zpos R * 2 ^ 9) by (rewrite HR; lia).
  assert (Hpp : 0 < 2 ^ Zpos p) by (apply Z.pow_pos_nonneg; lia).
  set (Q := Zpos r * 10 ^ 9 / 2 ^ Zpos p).
  assert (HQ : 0 <= Q < 10 ^ 9).
  { unfold Q. split; [apply Z.div_pos; lia|]. apply Z.div_lt_upper_bound; [lia|]. nia. }
  assert (Ht : f64.trunc (S754_finite s M2 (D - Zpos p - 44)) = if s then - Q else Q).
  { destruct (D - Zpos p - 44) as [|x|x] eqn:HX.
    - rewrite trunc_nonneg_exp by lia. rewrite Z.pow_0_r, Z.mul_1_r, HM2.
      assert (HQv : Q = Zpos R * 2 ^ (53 - D)).
      { unfold Q. rewrite H10. replace 9 with (53 - D + Zpos p) by lia.
        rewrite Z.pow_add_r, Z.mul_assoc by lia. apply Z.div_mul. lia. }
      now rewrite HQv.
    - rewrite trunc_nonneg_exp by lia. rewrite HM2.
      assert (HQv : Q = Zpos R * 2 ^ (53 - D) * 2 ^ Zpos x).
      { unfold Q. rewrite H10. replace 9 with (53 - D + Zpos x + Zpos p) by lia.
        rewrite !Z.pow_add_r, !Z.mul_assoc by lia. apply Z.div_mul. lia. }
      now rewrite HQv.
    - rewrite trunc_neg_exp, HM2.
      assert (HQv : Q = Zpos R * 2 ^ (53 - D) / 2 ^ Zpos x).
      { unfold Q. rewrite H10.
        destruct (Z.le_ge_cases D 44) as [Hle|Hge].
        - replace (53 - D) with (9 + (44 - D)) by lia.
          replace (Zpos x) with (Zpos p + (44 - D)) by lia.
          symmetry. apply div_pow2_scale; lia.
        - replace 9 with (53 - D + (D - 44)) by lia.
          replace (Zpos p) with (Zpos x + (D - 44)) by lia.
          apply div_pow2_scale; lia. }
      now rewrite HQv. }
  unfold f64.to_int64. rewrite Ht. cbn [f64.is_finite andb].
  destruct s.
  - replace (- 2 ^ 63 <=? - Q) with true by (symmetry; apply Z.leb_le; lia).
    replace (- Q <? 2 ^ 63) with true by (symmetry; apply Z.ltb_lt; lia).
    reflexivity.
  - replace (- 2 ^ 63 <=? Q) with true by (symmetry; apply Z.leb_le; lia).
    replace (Q <? 2 ^ 63) with true by (symmetry; apply Z.ltb_lt; lia).
    reflexivity.
Qed.

(** [time.Unix] on seconds and less than a second of either sign: the
    instant in nanoseconds, split at the second below. *)
Lemma Unix_nanos (sec nsec : Z) :
  - 2 ^ 62 <= sec <= 2 ^ 62 -> - 10 ^ 9 < nsec < 10 ^ 9 ->
  time.Unix sec nsec
  = {| time.sec := (sec * 10 ^ 9 + nsec) / 10 ^ 9;
       time.nsec := (sec * 10 ^ 9 + nsec) mod 10 ^ 9 |}.
Proof.
  intros Hs Hn. pose proof (Unix_normalizes sec nsec Hs ltac:(lia)) as [Hr Hv].
  destruct (time.Unix sec nsec) as [a b]. cbn [time.sec time.nsec] in Hr, Hv.
  change (10 ^ 9) with 1000000000 in *. rewrite <- Hv. f_equal.
  - apply (Z.div_unique _ _ a b); lia.
  - apply (Z.mod_unique _ _ a b); lia.
Qed.

(** A float [+-m / 2^p] times 1e9, cut to an integer toward zero: the
    whole seconds times 1e9 and the nanoseconds of the fraction. *)
Lemma quot_parts (s : bool) (m p : positive) :
  let a := Zpos m / 2 ^ Zpos p in
  let r := Zpos m mod 2 ^ Zpos p in
  Z.quot ((if s then Zneg m else Zpos m) * 10 ^ 9) (2 ^ Zpos p)
  = (if s then - a else a) * 10 ^ 9
    + (if s then - (r * 10 ^ 9 / 2 ^ Zpos p) else r * 10 ^ 9 / 2 ^ Zpos p).
Proof.
  intros a r.
  assert (Hpow : 0 < 2 ^ Zpos p) by (apply Z.pow_pos_nonneg; lia).
  assert (Hsplit : Zpos m * 10 ^ 9 / 2 ^ Zpos p = a * 10 ^ 9 + r * 10 ^ 9 / 2 ^ Zpos p).
  { pose proof (Z.div_mod (Zpos m) (2 ^ Zpos p) ltac:(lia)) as Hdm. fold a r in Hdm.
    rewrite Hdm at 1.
    replace ((2 ^ Zpos p * a + r) * 10 ^ 9) with (a * 10 ^ 9 * 2 ^ Zpos p + r * 10 ^ 9)
      by ring.
    apply Z.div_add_l. lia. }
  destruct s.
  - change (Zneg m) with (- Zpos m). rewrite Z.mul_opp_l, Z.quot_opp_l by lia.
    rewrite Z.quot_div_nonneg, Hsplit by lia. ring.
  - rewrite Z.quot_div_nonneg, Hsplit by lia. reflexivity.
Qed.

(** The seconds and nanoseconds decoded from a float64 between 2^20 and
    2^62 in magnitude: the float, cut to a whole number of nanoseconds. *)
Lemma Timestamp_whole_nanos (b : string) (f : float64) :
  json.Unmarshal_float64 b = inr f ->
  valid_binary f64.prec f64.emax f = true ->
  2 ^ 20 <= Z.abs (f64.trunc f) < 2 ^ 62 ->
  let T := Z.quot (fst (f64.num_den f) * 10 ^ 9) (snd (f64.num_den f)) in
  Timestamp_UnmarshalJSON b
  = Ok {| Time := {| time.sec := T / 10 ^ 9; time.nsec := T mod 10 ^ 9 |} |}.
Proof.
  intros Hdec Hvalid Hrange T.
  destruct f as [s|s| |s m e]; try (cbn [f64.trunc Z.abs] in Hrange; lia).
  destruct (valid_finite s m e Hvalid) as [Hdig He].
  destruct (Modf_spec _ Hvalid) as [Hint _].
  assert (Hin : f64.to_int64 (S754_finite s m e) = f64.trunc (S754_finite s m e)).
  { unfold f64.to_int64. cbn [f64.is_finite andb].
    replace (- 2 ^ 63 <=? _) with true by (symmetry; apply Z.leb_le; lia).
    replace (_ <? 2 ^ 63) with true by (symmetry; apply Z.ltb_lt; lia).
    reflexivity. }
  rewrite Hin in Hint.
  assert (Hparts : exists N : Z,
             f64.to_int64 (f64.mul (snd (math.Modf (S754_finite s m e)))
                                   (f64.of_Z 1000000000)) = N
             /\ - 10 ^ 9 < N < 10 ^ 9
             /\ f64.trunc (S754_finite s m e) * 10 ^ 9 + N = T).
  { assert (H1e9 : f64.of_Z 1000000000 = S754_finite false 8388608000000000 (-23))
      by (vm_compute; reflexivity).
    destruct e as [|q|p].
    - exists 0. cbn [math.Modf snd]. rewrite H1e9. split; [reflexivity|]. split; [lia|].
      unfold T. cbn [f64.num_den fst snd]. rewrite Z.quot_1_r, trunc_nonneg_exp by lia.
      destruct s; lia.
    - exists 0. cbn [math.Modf snd]. rewrite H1e9. split; [reflexivity|]. split; [lia|].
      unfold T. cbn [f64.num_den fst snd]. rewrite Z.quot_1_r, trunc_nonneg_exp by lia.
      destruct s; lia.
    - assert (Hpow : 0 < 2 ^ Zpos p) by (apply Z.pow_pos_nonneg; lia).
      pose proof (Z.mod_pos_bound (Zpos m) (2 ^ Zpos p) Hpow) as Hmod.
      rewrite trunc_neg_exp in *.
      assert (Hp : Zpos p <= 32).
      { pose proof (digits2_bounds m) as [_ Hm].
        assert (Hm53 : Zpos m < 2 ^ 53).
        { apply Z.lt_le_trans with (1 := Hm). apply Z.pow_le_mono_r; lia. }
        assert (Hdiv : 0 <= Zpos m / 2 ^ Zpos p) by (apply Z.div_pos; lia).
        assert (Ha : 2 ^ 20 <= Zpos m / 2 ^ Zpos p) by (destruct s; lia).
        assert (Hmul : 2 ^ 20 * 2 ^ Zpos p <= Zpos m).
        { pose proof (Z.mul_div_le (Zpos m) (2 ^ Zpos p) Hpow). nia. }
        rewrite <- Z.pow_add_r in Hmul by lia.
        assert (20 + Zpos p < 53); [|lia].
        apply (Z.pow_lt_mono_r_iff 2); lia. }
      unfold T. cbn [f64.num_den fst snd]. rewrite quot_parts.
      unfold math.Modf. rewrite Z.land_ones by lia. cbn [snd].
      destruct (Zpos m mod 2 ^ Zpos p) as [|fp|fp] eqn:Hfp; try lia.
      + exists 0. simpl Z.eqb. cbv iota. rewrite H1e9. split; [reflexivity|].
        split; [lia|]. cbn [Z.mul]. rewrite Z.div_0_l by lia. destruct s; lia.
      + simpl Z.eqb. cbv iota.
        assert (Hbn : binary_normalize f64.prec f64.emax
                        (if s then - Zpos fp else Zpos fp) (Zneg p) s
                      = binary_round f64.prec f64.emax s fp (Zneg p))
          by (destruct s; reflexivity).
        rewrite Hbn, (mul_1e9_exact s fp p) by lia.
        assert (HQ : 0 <= Zpos fp * 10 ^ 9 / 2 ^ Zpos p < 10 ^ 9).
        { split; [apply Z.div_pos; lia|]. apply Z.div_lt_upper_bound; [lia|]. nia. }
        eexists. split; [reflexivity|]. split; destruct s; lia. }
  destruct Hparts as (N & HN & HNr & HT).
  unfold Timestamp_UnmarshalJSON. rewrite Hdec.
  destruct (math.Modf (S754_finite s m e)) as [ip fp]. cbn [fst snd] in *.
  rewrite Hint, HN, Unix_nanos by lia. now rewrite HT.
Qed.

(** The integer part and the fractional part of the number as it is
    written do not in general become the seconds and the nanoseconds:
    1609459200.999999999 is read as the float64 1609459201 and decodes to
    that second and no nanoseconds. *)
Lemma Timestamp_decimal_refuted :
  ~ (forall sec ns : Z,
        0 <= sec -> 0 <= ns < 10 ^ 9 ->
        Timestamp_UnmarshalJSON
          (itoa sec +:+ "." +:+ substring 1 9 (itoa (10 ^ 9 + ns)))
        = Ok {| Time := {| time.sec := sec; time.nsec := ns |} |}).
Proof.
  intros Hall.
  specialize (Hall 1609459200 999999999 ltac:(lia) ltac:(lia)).
  vm_compute in Hall. discriminate Hall.
Qed.

(** C8, amended.  The value 1609459200.5 decodes to 1609459200 seconds and
    exactly 500,000,000 nanoseconds.  In general the parts are those of
    the float64 [f] the number is read as.  For [f] within the range of
    int64, the decoder hands [time.Unix] the integer part of [f] as
    seconds and, as nanoseconds, the fractional part of [f] multiplied by
    1e9 in float64 and cut to an integer; that fractional part is a
    float64 itself, and any float64 that is the fraction gives the same
    result.  For [f] of magnitude at least 2^20 and below 2^62 the product
    is exact, and the decoded instant is [f] cut to a whole number of
    nanoseconds: with [T] the value of [f] times 1e9, truncated toward
    zero, the seconds are [T / 10^9] and the nanoseconds [T mod 10^9]. *)
Theorem Timestamp_decodes :
  Timestamp_UnmarshalJSON "1609459200.5"
  = Ok {| Time := {| time.sec := 1609459200; time.nsec := 500000000 |} |}
  /\ (forall (b : string) (f : float64),
        json.Unmarshal_float64 b = inr f ->
        valid_binary f64.prec f64.emax f = true -> f64.is_finite f = true ->
        - 2 ^ 63 <= f64.trunc f < 2 ^ 63 ->
        (exists fp : float64, fraction_of f fp)
        /\ (forall fp : float64,
              fraction_of f fp ->
              Timestamp_UnmarshalJSON b
              = Ok {| Time := time.Unix (f64.trunc f)
                                        (f64.to_int64
                                           (f64.mul fp (f64.of_Z 1000000000))) |}))
  /\ (forall (b : string) (f : float64),
        json.Unmarshal_float64 b = inr f ->
        valid_binary f64.prec f64.emax f = true ->
        2 ^ 20 <= Z.abs (f64.trunc f) < 2 ^ 62 ->
        let T := Z.quot (fst (f64.num_den f) * 10 ^ 9) (snd (f64.num_den f)) in
        Timestamp_UnmarshalJSON b
        = Ok {| Time := {| time.sec := T / 10 ^ 9; time.nsec := T mod 10 ^ 9 |} |}).
Proof.
  split; [vm_compute; reflexivity|]. split.
  - intros b f Hdec Hvalid Hfin Hrange. split.
    + exists (snd (math.Modf f)). now apply Modf_fraction.
    + intros fp Hfrac.
      rewrite (Timestamp_of_float b f fp Hdec Hvalid Hfin Hfrac).
      unfold f64.to_int64 at 1. rewrite Hfin. cbn [andb].
      replace (- 2 ^ 63 <=? f64.trunc f) with true by (symmetry; apply Z.leb_le; lia).
      replace (f64.trunc f <? 2 ^ 63) with true by (symmetry; apply Z.ltb_lt; lia).
      reflexivity.
  - exact Timestamp_whole_nanos.
Qed.

Lemma Timestamp_decodes_witness :
  Timestamp_UnmarshalJSON "1609459200.3"
  = Ok {| Time := {| time.sec := 1609459200; time.nsec := 299999952 |} |}
  /\ Timestamp_UnmarshalJSON "0.75"
     = Ok {| Time := time.Unix 0 (f64.to_int64
                                    (f64.mul (S754_finite false 6755399441055744 (-53))
                                             (f64.of_Z 1000000000))) |}.
Proof.
  split.
  - apply (proj2 (proj2 Timestamp_decodes) "1609459200.3"
                 (S754_finite false 6750561161655091 (-22))).
    + vm_compute. reflexivity.
    + vm_compute. reflexivity.
    + vm_compute. split; [discriminate|reflexivity].
  - apply (proj2 (proj1 (proj2 Timestamp_decodes) "0.75"
                        (S754_finite false 6755399441055744 (-53))
                        ltac:(vm_compute; reflexivity) eq_refl eq_refl
                        ltac:(vm_compute; split; [discriminate|reflexivity]))
                 (S754_finite false 6755399441055744 (-53))).
    vm_compute. repeat split; reflexivity.
Defined.

(** A number with a fraction that binary64 does not hold exactly: the
    nanoseconds are those of the nearest float, not of the decimal text. *)
Example Timestamp_inexact :
  Timestamp_UnmarshalJSON "1609459200.3"
  = Ok {| Time := {| time.sec := 1609459200; time.nsec := 299999952 |} |}
  /\ Timestamp_UnmarshalJSON "-1.75"
     = Ok {| Time := {| time.sec := -2; time.nsec := 250000000 |} |}.
Proof. split; vm_compute; reflexivity. Qed.

(** Below 2^20 the product with 1e9 is rounded before it is cut: 0.3 is
    read as a float64 just below three tenths, 299999999 whole nanoseconds,
    and decodes to 300000000. *)
Example Timestamp_small :
  json.Unmarshal_float64 "0.3" = inr (S754_finite false 5404319552844595 (-54))
  /\ Z.quot (5404319552844595 * 10 ^ 9) (2 ^ 54) = 299999999
  /\ Timestamp_UnmarshalJSON "0.3"
     = Ok {| Time := {| time.sec := 0; time.nsec := 300000000 |} |}.
Proof. repeat split; vm_compute; reflexivity. Qed.


(** ** UTF-8 *)

Lemma byte_of_val (c : ascii) : byte_of (byte_val c) = c.
Proof. unfold byte_of, byte_val. rewrite N2Z.id. apply ascii_N_embedding. Qed.

Lemma byte_val_of (z : Z) : 0 <= z < 256 -> byte_val (byte_of z) = z.
Proof.
  intros Hz. unfold byte_of, byte_val. rewrite N_ascii_embedding by lia. lia.
Qed.

Ltac bool_cases :=
  repeat match goal with
         | |- context [?a <=? ?b] => destruct (Z.leb_spec a b); try lia
         | |- context [?a <? ?b] => destruct (Z.ltb_spec a b); try lia
         | |- context [?a =? ?b] => destruct (Z.eqb_spec a b); try lia
         end.

Lemma encode_two (c0 c1 : ascii) :
  194 <= byte_val c0 < 224 -> 128 <= byte_val c1 <= 191 ->
  let rn := byte_val c0 mod 32 * 64 + byte_val c1 mod 64 in
  128 <= rn <= 2047 /\ utf8.EncodeRune rn = String c0 (String c1 EmptyString).
Proof.
  intros H0 H1 rn.
  assert (Hrn : 128 <= rn <= 2047 /\ 192 + rn / 64 = byte_val c0
                /\ 128 + rn mod 64 = byte_val c1).
  { unfold rn. Z.to_euclidean_division_equations. lia. }
  destruct Hrn as (Hr & Ha & Hb). split; [exact Hr|].
  unfold utf8.EncodeRune. bool_cases; simpl.
  all: now rewrite Ha, Hb, !byte_of_val.
Qed.

Lemma encode_three (c0 c1 c2 : ascii) (lo hi : Z) :
  224 <= byte_val c0 < 240 ->
  lo <= byte_val c1 <= hi -> 128 <= byte_val c2 <= 191 ->
  (byte_val c0 = 224 /\ lo = 160 /\ hi = 191
   \/ byte_val c0 = 237 /\ lo = 128 /\ hi = 159
   \/ byte_val c0 <> 224 /\ byte_val c0 <> 237 /\ lo = 128 /\ hi = 191) ->
  let rn := byte_val c0 mod 16 * 4096 + byte_val c1 mod 64 * 64 + byte_val c2 mod 64 in
  2048 <= rn <= 65535 /\ utf8.is_surrogate rn = false
  /\ utf8.EncodeRune rn = String c0 (String c1 (String c2 EmptyString)).
Proof.
  intros H0 H1 H2 Hacc rn.
  assert (Hrn : 2048 <= rn <= 65535 /\ (rn < 55296 \/ 57343 < rn)
                /\ 224 + rn / 4096 = byte_val c0
                /\ 128 + (rn / 64) mod 64 = byte_val c1
                /\ 128 + rn mod 64 = byte_val c2).
  { unfold rn. Z.to_euclidean_division_equations. lia. }
  destruct Hrn as (Hr & Hs & Ha & Hb & Hc). split; [exact Hr|].
  assert (Hsur : utf8.is_surrogate rn = false) by (unfold utf8.is_surrogate; lia).
  split; [exact Hsur|].
  unfold utf8.EncodeRune. rewrite Hsur. unfold utf8.MaxRune, utf8.encode3.
  bool_cases; simpl.
  all: now rewrite Ha, Hb, Hc, !byte_of_val.
Qed.

Lemma encode_four (c0 c1 c2 c3 : ascii) (lo hi : Z) :
  240 <= byte_val c0 < 245 ->
  lo <= byte_val c1 <= hi -> 128 <= byte_val c2 <= 191 -> 128 <= byte_val c3 <= 191 ->
  (byte_val c0 = 240 /\ lo = 144 /\ hi = 191
   \/ byte_val c0 = 244 /\ lo = 128 /\ hi = 143
   \/ byte_val c0 <> 240 /\ byte_val c0 <> 244 /\ lo = 128 /\ hi = 191) ->
  let rn := byte_val c0 mod 8 * 262144 + byte_val c1 mod 64 * 4096
            + byte_val c2 mod 64 * 64 + byte_val c3 mod 64 in
  65536 <= rn <= utf8.MaxRune
  /\ utf8.EncodeRune rn = String c0 (String c1 (String c2 (String c3 EmptyString))).
Proof.
  intros H0 H1 H2 H3 Hacc rn. unfold utf8.MaxRune.
  assert (Hrn : 65536 <= rn <= 1114111
                /\ 240 + rn / 262144 = byte_val c0
                /\ 128 + (rn / 4096) mod 64 = byte_val c1
                /\ 128 + (rn / 64) mod 64 = byte_val c2
                /\ 128 + rn mod 64 = byte_val c3).
  { unfold rn. Z.to_euclidean_division_equations. lia. }
  destruct Hrn as (Hr & Ha & Hb & Hc & Hd). split; [exact Hr|].
  assert (Hsur : utf8.is_surrogate rn = false) by (unfold utf8.is_surrogate; lia).
  unfold utf8.EncodeRune. rewrite Hsur. unfold utf8.MaxRune.
  bool_cases; simpl.
  all: now rewrite Ha, Hb, Hc, Hd, !byte_of_val.
Qed.

Lemma decode_tail_two (c0 : ascii) (lo hi : Z) (r0 : string) :
  194 <= byte_val c0 < 224 -> lo = 128 -> hi = 191 ->
  utf8.decoded c0 r0 (fst (utf8.decode_tail (byte_val c0) 2 lo hi r0))
                (snd (utf8.decode_tail (byte_val c0) 2 lo hi r0)).
Proof.
  intros H0 -> ->. unfold utf8.decode_tail, utf8.in_range.
  destruct r0 as [|c1 r1]; [apply utf8.dec_error; lia|].
  destruct (Z.leb_spec 128 (byte_val c1)); [|apply utf8.dec_error; lia].
  destruct (Z.leb_spec (byte_val c1) 191); [|apply utf8.dec_error; lia].
  cbn [negb andb fst snd Nat.leb].
  destruct (encode_two c0 c1) as [Hr He]; try lia.
  eapply utf8.dec_two; eauto; lia.
Qed.

Lemma decode_tail_three (c0 : ascii) (lo hi : Z) (r0 : string) :
  224 <= byte_val c0 < 240 ->
  (byte_val c0 = 224 /\ lo = 160 /\ hi = 191
   \/ byte_val c0 = 237 /\ lo = 128 /\ hi = 159
   \/ byte_val c0 <> 224 /\ byte_val c0 <> 237 /\ lo = 128 /\ hi = 191) ->
  utf8.decoded c0 r0 (fst (utf8.decode_tail (byte_val c0) 3 lo hi r0))
                (snd (utf8.decode_tail (byte_val c0) 3 lo hi r0)).
Proof.
  intros H0 Hacc. unfold utf8.decode_tail, utf8.in_range, utf8.locb, utf8.hicb.
  destruct r0 as [|c1 r1]; [apply utf8.dec_error; lia|].
  destruct (Z.leb_spec lo (byte_val c1)); [|apply utf8.dec_error; lia].
  destruct (Z.leb_spec (byte_val c1) hi); [|apply utf8.dec_error; lia].
  cbn [negb andb Nat.leb].
  destruct r1 as [|c2 r2]; [apply utf8.dec_error; lia|].
  destruct (Z.leb_spec 128 (byte_val c2)); [|apply utf8.dec_error; lia].
  destruct (Z.leb_spec (byte_val c2) 191); [|apply utf8.dec_error; lia].
  cbn [negb andb fst snd].
  destruct (encode_three c0 c1 c2 lo hi) as (Hr & Hs & He); try lia.
  eapply utf8.dec_three; eauto; lia.
Qed.

Lemma decode_tail_four (c0 : ascii) (lo hi : Z) (r0 : string) :
  240 <= byte_val c0 < 245 ->
  (byte_val c0 = 240 /\ lo = 144 /\ hi = 191
   \/ byte_val c0 = 244 /\ lo = 128 /\ hi = 143
   \/ byte_val c0 <> 240 /\ byte_val c0 <> 244 /\ lo = 128 /\ hi = 191) ->
  utf8.decoded c0 r0 (fst (utf8.decode_tail (byte_val c0) 4 lo hi r0))
                (snd (utf8.decode_tail (byte_val c0) 4 lo hi r0)).
Proof.
  intros H0 Hacc. unfold utf8.decode_tail, utf8.in_range, utf8.locb, utf8.hicb.
  destruct r0 as [|c1 r1]; [apply utf8.dec_error; lia|].
  destruct (Z.leb_spec lo (byte_val c1)); [|apply utf8.dec_error; lia].
  destruct (Z.leb_spec (byte_val c1) hi); [|apply utf8.dec_error; lia].
  cbn [negb andb Nat.leb].
  destruct r1 as [|c2 r2]; [apply utf8.dec_error; lia|].
  destruct (Z.leb_spec 128 (byte_val c2)); [|apply utf8.dec_error; lia].
  destruct (Z.leb_spec (byte_val c2) 191); [|apply utf8.dec_error; lia].
  cbn [negb andb].
  destruct r2 as [|c3 r3]; [apply utf8.dec_error; lia|].
  destruct (Z.leb_spec 128 (byte_val c3)); [|apply utf8.dec_error; lia].
  destruct (Z.leb_spec (byte_val c3) 191); [|apply utf8.dec_error; lia].
  cbn [negb andb fst snd].
  destruct (encode_four c0 c1 c2 c3 lo hi) as (Hr & He); try lia.
  eapply utf8.dec_four; eauto; lia.
Qed.

Lemma DecodeRune_decoded (c0 : ascii) (r0 : string) :
  utf8.decoded c0 r0 (fst (utf8.DecodeRune (String c0 r0))) (snd (utf8.DecodeRune (String c0 r0))).
Proof.
  pose proof (byte_val_range c0) as Hc0.
  unfold utf8.DecodeRune, utf8.first, utf8.locb, utf8.hicb.
  destruct (Z.ltb_spec (byte_val c0) 128); [apply utf8.dec_ascii; lia|].
  destruct (Z.ltb_spec (byte_val c0) 194); [apply utf8.dec_error; lia|].
  destruct (Z.ltb_spec (byte_val c0) 224); [apply decode_tail_two; lia|].
  destruct (Z.eqb_spec (byte_val c0) 224); [apply decode_tail_three; lia|].
  destruct (Z.ltb_spec (byte_val c0) 237); [apply decode_tail_three; lia|].
  destruct (Z.eqb_spec (byte_val c0) 237); [apply decode_tail_three; lia|].
  destruct (Z.ltb_spec (byte_val c0) 240); [apply decode_tail_three; lia|].
  destruct (Z.eqb_spec (byte_val c0) 240); [apply decode_tail_four; lia|].
  destruct (Z.ltb_spec (byte_val c0) 244); [apply decode_tail_four; lia|].
  destruct (Z.eqb_spec (byte_val c0) 244); [apply decode_tail_four; lia|].
  apply utf8.dec_error; lia.
Qed.


(** ** Session extraction *)

Lemma string_length_app (a b : string) :
  String.length (a +:+ b) = (String.length a + String.length b)%nat.
Proof. induction a as [|x a IH]; simpl; [reflexivity|now rewrite IH]. Qed.

Lemma drop_bytes_app (v tail : string) : drop_bytes (String.length v) (v +:+ tail) = tail.
Proof. induction v as [|x v IH]; simpl; [reflexivity|exact IH]. Qed.

Lemma substring_app (v tail : string) : substring 0 (String.length v) (v +:+ tail) = v.
Proof.
  induction v as [|x v IH]; simpl.
  - destruct tail; reflexivity.
  - now rewrite IH.
Qed.

Lemma consumed_app (v tail : string) : consumed (v +:+ tail) tail = v.
Proof.
  unfold consumed. rewrite string_length_app.
  replace (String.length v + String.length tail - String.length tail)%nat
    with (String.length v) by lia.
  apply substring_app.
Qed.

Lemma prefix_inv (l s : string) :
  String.prefix l s = true -> s = l +:+ drop_bytes (String.length l) s.
Proof.
  revert s. induction l as [|a l IH]; intros s Hp; [reflexivity|].
  destruct s as [|b s]; [discriminate|]. simpl in Hp.
  destruct (ascii_dec a b) as [->|]; [|discriminate].
  simpl. f_equal. now apply IH.
Qed.

Lemma prefix_app (l r : string) : String.prefix l (l +:+ r) = true.
Proof.
  induction l as [|a l IH]; simpl; [destruct r; reflexivity|].
  destruct (ascii_dec a a); [exact IH|contradiction].
Qed.

Lemma prefix_head_neq (a c : ascii) (l r : string) :
  a <> c -> String.prefix (String a l) (String c r) = false.
Proof. intros Hac. simpl. destruct (ascii_dec a c); [contradiction|reflexivity]. Qed.

Lemma all_bytes_app (P : ascii -> bool) (a b : string) :
  all_bytes P (a +:+ b) = all_bytes P a && all_bytes P b.
Proof. induction a as [|x a IH]; simpl; [reflexivity|]. now rewrite IH, andb_assoc. Qed.

(** A text splits at its first [;]. *)
Lemma up_to_semicolon_split (t : string) :
  exists tail, t = up_to_semicolon t +:+ tail
               /\ value_end tail
               /\ all_bytes (fun c => negb (Ascii.eqb c ";")) (up_to_semicolon t) = true.
Proof.
  induction t as [|c t (tail & Ht & Hend & Hall)]; simpl.
  - exists EmptyString. repeat split. now left.
  - destruct (Ascii.eqb_spec c ";") as [->|Hc].
    + exists (String ";" t). repeat split. right. now exists t.
    + exists tail. simpl. split; [now rewrite <- Ht|]. split; [exact Hend|].
      apply andb_true_iff. split; [|exact Hall].
      apply negb_true_iff. now apply Ascii.eqb_neq.
Qed.

(** One [.] at the head of a value takes a rune of the value and leaves a
    shorter value in front of the same rest. *)
Lemma dot_step (c : ascii) (v tail : string) (caps : regexp.captures)
      (k : string -> regexp.captures -> option regexp.captures) :
  byte_val c <> 10 -> value_end tail ->
  exists p v', v = p +:+ v'
               /\ regexp.run regexp.AnyCharNotNL (String c v +:+ tail) caps k
                  = k (v' +:+ tail) caps.
Proof.
  intros Hnl Hend. cbn [regexp.run append].
  pose proof (DecodeRune_decoded c (v +:+ tail)) as Hdec.
  destruct (utf8.DecodeRune (String c (v +:+ tail))) as [rn size]. cbn [fst snd] in Hdec.
  assert (Hsemi : forall c1 r, tail = String c1 r -> byte_val c1 < 128).
  { intros c1 r ->. destruct Hend as [Hend|[r' Hend]]; [discriminate|].
    injection Hend as -> _. vm_compute. reflexivity. }
  inversion Hdec as [Hlt Hrn Hsz | Hge Hrn Hsz
                     | c1 r1 rn' Hr0 H0 H1 Hrange Henc Hrn Hsz
                     | c1 c2 r2 rn' Hr0 H0 H1 H2 Hrange Hsur Henc Hrn Hsz
                     | c1 c2 c3 r3 rn' Hr0 H0 H1 H2 H3 Hrange Henc Hrn Hsz]; subst.
  - exists EmptyString, v. split; [reflexivity|].
    destruct (Z.eqb_spec (byte_val c) 10); [contradiction|reflexivity].
  - exists EmptyString, v. split; [reflexivity|]. reflexivity.
  - destruct v as [|d1 v1]; simpl in Hr0.
    { specialize (Hsemi c1 r1 Hr0). lia. }
    injection Hr0 as <- <-. exists (String d1 EmptyString), v1. split; [reflexivity|].
    destruct (Z.eqb_spec rn 10); [lia|reflexivity].
  - destruct v as [|d1 [|d2 v2]]; simpl in Hr0.
    { specialize (Hsemi c1 _ Hr0). lia. }
    { injection Hr0 as <- Hr0. specialize (Hsemi c2 _ Hr0). lia. }
    injection Hr0 as <- <- <-.
    exists (String d1 (String d2 EmptyString)), v2. split; [reflexivity|].
    destruct (Z.eqb_spec rn 10); [lia|reflexivity].
  - destruct v as [|d1 [|d2 [|d3 v3]]]; simpl in Hr0.
    { specialize (Hsemi c1 _ Hr0). lia. }
    { injection Hr0 as <- Hr0. specialize (Hsemi c2 _ Hr0). lia. }
    { injection Hr0 as <- <- Hr0. specialize (Hsemi c3 _ Hr0). lia. }
    injection Hr0 as <- <- <- <-.
    exists (String d1 (String d2 (String d3 EmptyString))), v3. split; [reflexivity|].
    destruct (Z.eqb_spec rn 10); [lia|reflexivity].
Qed.

Lemma value_byte_inv (c : ascii) :
  value_byte c = true -> c <> ";"%char /\ byte_val c <> 10.
Proof.
  unfold value_byte. intros H. apply andb_true_iff in H as [H1 H2].
  apply negb_true_iff in H1, H2. split.
  - now apply Ascii.eqb_neq.
  - now apply Z.eqb_neq.
Qed.

(** [.+?] in front of an expression [k] that fails inside a value and
    matches at its end takes the whole value. *)
Lemma plus_lazy_value (k : string -> regexp.captures -> option regexp.captures)
      (tail : string) (caps : regexp.captures) (res : regexp.captures) :
  value_end tail ->
  (forall c v, value_byte c = true -> k (String c v +:+ tail) caps = None) ->
  k tail caps = Some res ->
  forall (n : nat) (v : string),
    (String.length v <= n)%nat -> v <> EmptyString -> all_bytes value_byte v = true ->
    regexp.plus_lazy (regexp.run regexp.AnyCharNotNL) n (v +:+ tail) caps k = Some res.
Proof.
  intros Hend Hinside Hlast n. induction n as [n IH] using lt_wf_ind.
  intros v Hlen Hne Hall. destruct v as [|c v]; [contradiction|].
  simpl in Hall. apply andb_true_iff in Hall as [Hc Hall].
  destruct (value_byte_inv c Hc) as [_ Hnl].
  destruct n as [|n]; [simpl in Hlen; lia|].
  cbn [regexp.plus_lazy].
  destruct (dot_step c v tail caps
              (fun s' caps' =>
                 match k s' caps' with
                 | Some r => Some r
                 | None => regexp.plus_lazy (regexp.run regexp.AnyCharNotNL) n s' caps' k
                 end) Hnl Hend) as (p & v' & Hv & Hrun).
  rewrite Hrun. destruct v' as [|c' v'].
  - simpl append. now rewrite Hlast.
  - assert (Hall' : all_bytes value_byte (String c' v') = true).
    { rewrite Hv, all_bytes_app in Hall. now apply andb_true_iff in Hall as [_ Hall]. }
    pose proof Hall' as Hc'. simpl in Hc'. apply andb_true_iff in Hc' as [Hc' _].
    rewrite (Hinside c' v' Hc').
    apply IH; [lia| |discriminate|exact Hall'].
    simpl in Hlen. rewrite Hv, string_length_app in Hlen. lia.
Qed.

(** At a [sessionid=] that is followed by a non-empty value without a
    newline, the expression matches and its group holds the value. *)
Lemma cookieRegexp_matches (v tail : string) :
  v <> EmptyString -> all_bytes value_byte v = true -> value_end tail ->
  exists caps, regexp.match_here cookieRegexp ("sessionid=" +:+ v +:+ tail) = Some caps
               /\ regexp.group caps 1 = v.
Proof.
  intros Hne Hall Hend. unfold regexp.match_here, cookieRegexp.
  set (s := "sessionid=" +:+ v +:+ tail).
  cbn [regexp.run]. unfold s at 1. rewrite prefix_app.
  unfold s at 1. rewrite (drop_bytes_app "sessionid=" (v +:+ tail)).
  set (k := fun (s' : string) (caps' : regexp.captures) =>
              match
                (if String.prefix ";" s'
                 then Some ((0%nat, consumed s (drop_bytes (String.length ";") s'))
                            :: (1%nat, consumed (v +:+ tail) s') :: caps')
                 else None)
              with
              | Some r => Some r
              | None =>
                match s' with
                | EmptyString =>
                  Some ((0%nat, consumed s s') :: (1%nat, consumed (v +:+ tail) s') :: caps')
                | String _ _ => None
                end
              end).
  change (exists caps,
             regexp.plus_lazy (regexp.run regexp.AnyCharNotNL)
                              (String.length (v +:+ tail)) (v +:+ tail) [] k = Some caps
             /\ regexp.group caps 1 = v).
  assert (Hlast : exists whole, k tail [] = Some [(0%nat, whole); (1%nat, v)]).
  { unfold k. rewrite consumed_app. destruct Hend as [->|[r ->]].
    - simpl. eexists. reflexivity.
    - destruct r; simpl; eexists; reflexivity. }
  destruct Hlast as [whole Hlast].
  exists [(0%nat, whole); (1%nat, v)]. split; [|reflexivity].
  apply plus_lazy_value; try assumption.
  - intros c v0 Hc. unfold k. destruct (value_byte_inv c Hc) as [Hsemi _].
    cbn [append]. rewrite prefix_head_neq by congruence. reflexivity.
  - rewrite string_length_app. lia.
Qed.

Lemma sessionid_value_eq (s : string) :
  sessionid_value s
  = if String.prefix "sessionid=" s
    then Some (up_to_semicolon (drop_bytes 10 s))
    else match s with
         | EmptyString => None
         | String _ r => sessionid_value r
         end.
Proof. destruct s; reflexivity. Qed.

Lemma sessionid_value_skip (c : ascii) (r : string) :
  128 <= byte_val c -> sessionid_value (String c r) = sessionid_value r.
Proof.
  intros Hc. rewrite sessionid_value_eq.
  assert (Hs : "s"%char <> c) by (intros <-; vm_compute in Hc; now apply Hc).
  change "sessionid=" with (String "s" "essionid=").
  now rewrite (prefix_head_neq "s" c "essionid=" r Hs).
Qed.

Lemma sessionid_value_drop (k : nat) :
  forall s, sessionid_value s = None -> sessionid_value (drop_bytes k s) = None.
Proof.
  induction k as [|k IH]; intros s Hs; [exact Hs|].
  destruct s as [|c r]; [reflexivity|]. simpl. apply IH.
  rewrite sessionid_value_eq in Hs.
  destruct (String.prefix "sessionid=" (String c r)); [discriminate|exact Hs].
Qed.

Lemma match_here_no_prefix (s : string) :
  String.prefix "sessionid=" s = false -> regexp.match_here cookieRegexp s = None.
Proof.
  intros Hp. unfold regexp.match_here, cookieRegexp. cbn [regexp.run]. now rewrite Hp.
Qed.

(** Moving on by one rune keeps the first [sessionid=] in front. *)
Lemma sessionid_value_advance (c : ascii) (r : string) :
  String.prefix "sessionid=" (String c r) = false ->
  let s' := drop_bytes (snd (utf8.DecodeRune (String c r))) (String c r) in
  sessionid_value s' = sessionid_value (String c r)
  /\ (String.length s' <= String.length r)%nat.
Proof.
  intros Hp s'. subst s'. rewrite (sessionid_value_eq (String c r)), Hp.
  pose proof (DecodeRune_decoded c r) as Hdec.
  destruct (utf8.DecodeRune (String c r)) as [rn size]. cbn [fst snd] in *.
  inversion Hdec; subst; cbn [drop_bytes String.length];
    rewrite ?sessionid_value_skip by assumption; split; try reflexivity; lia.
Qed.

(** The search stops at the first [sessionid=] when a value it can match
    follows. *)
Lemma search_finds (n : nat) :
  forall s v,
    (String.length s <= n)%nat ->
    sessionid_value s = Some v -> v <> EmptyString ->
    all_bytes (fun c => negb (byte_val c =? 10)) v = true ->
    exists caps, regexp.search n cookieRegexp s = Some caps /\ regexp.group caps 1 = v.
Proof.
  induction n as [|n IH]; intros s v Hlen Hv Hne Hnl.
  - destruct s; [discriminate Hv|simpl in Hlen; lia].
  - rewrite sessionid_value_eq in Hv.
    destruct (String.prefix "sessionid=" s) eqn:Hp.
    + remember (drop_bytes 10 s) as t eqn:Ht. injection Hv as Hv.
      destruct (up_to_semicolon_split t) as (tail & Hsplit & Hend & Hsemi).
      rewrite Hv in Hsplit, Hsemi.
      assert (Hall : all_bytes value_byte v = true).
      { clear - Hsemi Hnl. induction v as [|c v IHv]; [reflexivity|].
        simpl in *. apply andb_true_iff in Hsemi as [H1 H2].
        apply andb_true_iff in Hnl as [H3 H4].
        unfold value_byte at 1. now rewrite H1, H3, IHv. }
      destruct (cookieRegexp_matches v tail Hne Hall Hend) as (caps & Hm & Hg).
      exists caps. split; [|exact Hg].
      rewrite (prefix_inv _ _ Hp). change (String.length "sessionid=") with 10%nat.
      rewrite <- Ht, Hsplit. cbn [regexp.search]. now rewrite Hm.
    + destruct s as [|c r]; [discriminate Hv|].
      destruct (sessionid_value_advance c r Hp) as [Hadv Hshort].
      cbn [regexp.search]. rewrite (match_here_no_prefix _ Hp).
      apply IH; [simpl in Hlen; lia| |exact Hne|exact Hnl].
      rewrite Hadv, sessionid_value_eq, Hp. exact Hv.
Qed.

Lemma search_none (n : nat) :
  forall s, sessionid_value s = None -> regexp.search n cookieRegexp s = None.
Proof.
  induction n as [|n IH]; intros s Hs.
  - simpl. rewrite match_here_no_prefix; [destruct s; reflexivity|].
    rewrite sessionid_value_eq in Hs.
    destruct (String.prefix "sessionid=" s); [discriminate|reflexivity].
  - cbn [regexp.search]. rewrite match_here_no_prefix.
    + destruct s as [|c r]; [reflexivity|]. apply IH. now apply sessionid_value_drop.
    + rewrite sessionid_value_eq in Hs.
      destruct (String.prefix "sessionid=" s); [discriminate|reflexivity].
Qed.

(** A cookie whose [sessionid] has an empty value is not answered with
    that value: the expression asks for a byte at least, and takes the
    text behind the [;]. *)
Lemma extractSessionID_empty_value_refuted :
  ~ (forall (r : response) (v : string),
        sessionid_value (http.Get (Header r) "Set-Cookie") = Some v ->
        extractSessionID r = Ok v).
Proof.
  intros Hall.
  specialize (Hall {| Content := None;
                      Header := list_to_map [("Set-Cookie", ["sessionid=; Path=/"])] |}
                   EmptyString).
  vm_compute in Hall. specialize (Hall eq_refl). discriminate Hall.
Qed.

(** C6, amended.  When the [Set-Cookie] header holds [sessionid=], the
    text [v] between the first [sessionid=] and the next [;] or the end is
    returned, provided [v] is not empty and holds no newline; extraction
    fails when the header is absent or empty and when it holds no
    [sessionid=]. *)
Theorem extractSessionID_spec (r : response) :
  let cookie := http.Get (Header r) "Set-Cookie" in
  (forall v, sessionid_value cookie = Some v ->
             v <> EmptyString ->
             all_bytes (fun c => negb (byte_val c =? 10)) v = true ->
             extractSessionID r = Ok v)
  /\ (Header r !! "Set-Cookie" = None \/ cookie = EmptyString ->
      extractSessionID r = Err (errorf "cookie not found in response"))
  /\ (cookie <> EmptyString -> sessionid_value cookie = None ->
      extractSessionID r = Err (errorf "sessionid not found in cookie")).
Proof.
  intros cookie. repeat split.
  - intros v Hv Hne Hnl. unfold extractSessionID. fold cookie.
    destruct (String.eqb_spec cookie EmptyString) as [He|_].
    { rewrite He in Hv. discriminate Hv. }
    unfold regexp.FindStringSubmatch.
    destruct (search_finds (String.length cookie) cookie v (le_n _) Hv Hne Hnl)
      as (caps & Hs & Hg).
    rewrite Hs. simpl. now rewrite Hg.
  - intros Habs. unfold extractSessionID. fold cookie.
    assert (He : cookie = EmptyString).
    { destruct Habs as [Hnone|He]; [|exact He]. unfold cookie, http.Get. now rewrite Hnone. }
    now rewrite He.
  - intros Hne Hnone. unfold extractSessionID. fold cookie.
    destruct (String.eqb_spec cookie EmptyString) as [He|_]; [contradiction|].
    unfold regexp.FindStringSubmatch. now rewrite search_none.
Qed.

Lemma extractSessionID_spec_witness :
  extractSessionID {| Content := None;
                      Header := list_to_map [("Set-Cookie", ["sessionid=abc123; Path=/"])] |}
  = Ok "abc123".
Proof.
  apply (proj1 (extractSessionID_spec
                  {| Content := None;
                     Header := list_to_map [("Set-Cookie", ["sessionid=abc123; Path=/"])] |})).
  - vm_compute. reflexivity.
  - discriminate.
  - vm_compute. reflexivity.
Defined.


(** ** Strings through the JSON encoder and decoder *)

Lemma hex_val_digit (z : Z) : 0 <= z < 16 -> hex_val (hex_digit z) = Some z.
Proof.
  intros Hz.
  assert (Hcases : z = 0 \/ z = 1 \/ z = 2 \/ z = 3 \/ z = 4 \/ z = 5 \/ z = 6 \/ z = 7
                   \/ z = 8 \/ z = 9 \/ z = 10 \/ z = 11 \/ z = 12 \/ z = 13 \/ z = 14
                   \/ z = 15) by lia.
  repeat (destruct Hcases as [->|Hcases]; [reflexivity|]). now subst.
Qed.

Lemma prepend_parsed (p s rest : string) :
  json.prepend p (json.Parsed s rest) = json.Parsed (p +:+ s) rest.
Proof. reflexivity. Qed.

Lemma lex_string_eq (fuel : nat) (c : ascii) (r : string) :
  json.lex_string (S fuel) (String c r)
  = let b := byte_val c in
    if b =? 34 then json.Parsed EmptyString r
    else if b =? 92 then
      match r with
      | EmptyString => json.Invalid
      | String e r1 =>
        match json.simple_escape e with
        | Some ch => json.prepend (String ch EmptyString) (json.lex_string fuel r1)
        | None =>
          if byte_val e =? 117 then
            match json.hex4 r1 with
            | None => json.Invalid
            | Some (rr, r2) =>
              if utf8.is_surrogate rr then
                match json.getu4 r2 with
                | Some (rr1, r4) =>
                  if json.utf16_DecodeRune rr rr1 =? utf8.RuneError
                  then json.prepend (utf8.EncodeRune utf8.RuneError)
                                    (json.lex_string fuel r2)
                  else json.prepend (utf8.EncodeRune (json.utf16_DecodeRune rr rr1))
                                    (json.lex_string fuel r4)
                | None => json.prepend (utf8.EncodeRune utf8.RuneError)
                                       (json.lex_string fuel r2)
                end
              else json.prepend (utf8.EncodeRune rr) (json.lex_string fuel r2)
            end
          else json.Invalid
        end
      end
    else if b <? 32 then json.Invalid
    else if b <? utf8.RuneSelf
         then json.prepend (String c EmptyString) (json.lex_string fuel r)
         else
           let '(rr, size) := utf8.DecodeRune (String c r) in
           json.prepend (utf8.EncodeRune rr)
                        (json.lex_string fuel (drop_bytes size (String c r))).
Proof. reflexivity. Qed.

Lemma quote_body_eq (fuel : nat) (c : ascii) (r : string) :
  json.quote_body (S fuel) (String c r)
  = let b := byte_val c in
    if b <? utf8.RuneSelf then
      if json.htmlSafe b then String c (json.quote_body fuel r)
      else json.escape_byte c +:+ json.quote_body fuel r
    else
      let '(rn, size) := utf8.DecodeRune (String c r) in
      if (rn =? utf8.RuneError) && (size =? 1)%nat then
        json.replacement_escape +:+ json.quote_body fuel r
      else if (rn =? 8232) || (rn =? 8233) then
        "\u202" +:+ String (hex_digit (rn mod 16))
                           (json.quote_body fuel (drop_bytes size (String c r)))
      else
        substring 0 size (String c r)
        +:+ json.quote_body fuel (drop_bytes size (String c r)).
Proof. reflexivity. Qed.

(** The decoder reads back what the encoder writes for one ASCII byte. *)
Lemma lex_escape_byte (fuel : nat) (c : ascii) (out : string) :
  byte_val c < 128 -> json.htmlSafe (byte_val c) = false ->
  json.lex_string (S fuel) (json.escape_byte c +:+ out)
  = json.prepend (String c EmptyString) (json.lex_string fuel out).
Proof.
  intros Hlt Hunsafe. pose proof (byte_val_range c) as Hr.
  unfold json.escape_byte.
  destruct ((byte_val c =? 92) || (byte_val c =? 34)) eqn:Hq.
  { cbn [append]. rewrite lex_string_eq. cbn zeta.
    change (byte_val "\") with 92. cbn [Z.eqb Pos.eqb].
    unfold json.simple_escape.
    replace ((byte_val c =? 34) || (byte_val c =? 92) || (byte_val c =? 47)) with true
      by (symmetry; lia).
    reflexivity. }
  assert (Hc : c = byte_of (byte_val c)) by (symmetry; apply byte_of_val).
  destruct (Z.eqb_spec (byte_val c) 8) as [H8|_].
  { rewrite H8 in Hc. subst c. reflexivity. }
  destruct (Z.eqb_spec (byte_val c) 12) as [H12|_].
  { rewrite H12 in Hc. subst c. reflexivity. }
  destruct (Z.eqb_spec (byte_val c) 10) as [H10|_].
  { rewrite H10 in Hc. subst c. reflexivity. }
  destruct (Z.eqb_spec (byte_val c) 13) as [H13|_].
  { rewrite H13 in Hc. subst c. reflexivity. }
  destruct (Z.eqb_spec (byte_val c) 9) as [H9|_].
  { rewrite H9 in Hc. subst c. reflexivity. }
  cbn [append]. rewrite lex_string_eq. cbn zeta.
  change (byte_val "\") with 92. cbn [Z.eqb Pos.eqb].
  change (json.simple_escape "u") with (@None ascii). cbv iota.
  change (byte_val "u" =? 117) with true. cbv iota.
  unfold json.hex4.
  change (hex_val "0") with (Some 0).
  rewrite !hex_val_digit
    by (split; [try apply Z.div_pos; try apply Z.mod_pos_bound; lia
               |try apply Z.div_lt_upper_bound; try apply Z.mod_pos_bound; lia]).
  replace (0 * 4096 + 0 * 256 + byte_val c / 16 * 16 + byte_val c mod 16)
    with (byte_val c) by (Z.to_euclidean_division_equations; lia).
  replace (utf8.is_surrogate (byte_val c)) with false
    by (unfold utf8.is_surrogate; lia).
  unfold utf8.EncodeRune.
  replace ((0 <=? byte_val c) && (byte_val c <=? 127)) with true by (symmetry; lia).
  now rewrite byte_of_val.
Qed.

Lemma substring_0_0 (s : string) : substring 0 0 s = EmptyString.
Proof. destruct s; reflexivity. Qed.

(** A rune of several bytes is decoded from its own bytes alone. *)
Lemma decode_tail_app (p0 : Z) (sz : nat) (lo hi : Z) (r0 : string) (rn : Z) (size : nat) :
  utf8.decode_tail p0 sz lo hi r0 = (rn, size) -> (2 <= size)%nat ->
  forall t, utf8.decode_tail p0 sz lo hi (substring 0 (size - 1) r0 +:+ t) = (rn, size).
Proof.
  unfold utf8.decode_tail. intros Hdec Hsize t.
  destruct r0 as [|c1 r1]; [injection Hdec as _ <-; lia|].
  destruct (negb (utf8.in_range lo hi (byte_val c1))) eqn:H1; [injection Hdec as _ <-; lia|].
  destruct (sz <=? 2)%nat eqn:Hsz2.
  { injection Hdec as <- <-. cbn [Nat.sub substring append]. rewrite ?H1. reflexivity. }
  destruct r1 as [|c2 r2]; [injection Hdec as _ <-; lia|].
  destruct (negb (utf8.in_range utf8.locb utf8.hicb (byte_val c2))) eqn:H2;
    [injection Hdec as _ <-; lia|].
  destruct (sz <=? 3)%nat eqn:Hsz3.
  { injection Hdec as <- <-. cbn [Nat.sub substring append]. rewrite ?H1, ?H2. reflexivity. }
  destruct r2 as [|c3 r3]; [injection Hdec as _ <-; lia|].
  destruct (negb (utf8.in_range utf8.locb utf8.hicb (byte_val c3))) eqn:H3;
    [injection Hdec as _ <-; lia|].
  injection Hdec as <- <-. cbn [Nat.sub substring append].
  rewrite ?H1, ?H2, ?H3. reflexivity.
Qed.

Lemma DecodeRune_app (c0 : ascii) (r0 : string) (rn : Z) (size : nat) :
  utf8.DecodeRune (String c0 r0) = (rn, size) -> (2 <= size)%nat ->
  forall t, utf8.DecodeRune (substring 0 size (String c0 r0) +:+ t) = (rn, size).
Proof.
  intros Hdec Hsize t. destruct size as [|size]; [lia|].
  cbn [substring append]. unfold utf8.DecodeRune in *.
  destruct (utf8.first (byte_val c0)) as [[[sz lo] hi]|]; [|injection Hdec as _ Hs; lia].
  destruct sz as [|[|sz]]; try (injection Hdec as _ Hs; lia).
  - pose proof (decode_tail_app _ _ _ _ _ _ _ Hdec Hsize t) as H.
    now replace (S size - 1)%nat with size in H by lia.
  - pose proof (decode_tail_app _ _ _ _ _ _ _ Hdec Hsize t) as H.
    now replace (S size - 1)%nat with size in H by lia.
Qed.

(** A valid rune of several bytes at the head of a text: its bytes [p],
    which are its encoding, and the rest. *)
Lemma multibyte_head (c0 : ascii) (r0 : string) (rn : Z) (size : nat) :
  utf8.DecodeRune (String c0 r0) = (rn, size) ->
  128 <= byte_val c0 ->
  (rn =? utf8.RuneError) && (size =? 1)%nat = false ->
  exists p' r',
    r0 = p' +:+ r'
    /\ substring 0 size (String c0 r0) = String c0 p'
    /\ drop_bytes size (String c0 r0) = r'
    /\ size = S (String.length p')
    /\ utf8.EncodeRune rn = String c0 p'
    /\ 128 <= rn
    /\ (forall t, utf8.DecodeRune (String c0 p' +:+ t) = (rn, size)).
Proof.
  intros Hdec Hc0 Hvalid.
  pose proof (DecodeRune_decoded c0 r0) as Hd. rewrite Hdec in Hd. cbn [fst snd] in Hd.
  assert (Hsize : (2 <= size)%nat).
  { inversion Hd; subst; try lia. discriminate Hvalid. }
  pose proof (DecodeRune_app c0 r0 rn size Hdec Hsize) as Happ.
  inversion Hd as [Ha Hb Hc | Ha Hb Hc
                   | c1 r1 rn' Hr0 H0 H1 Hrange Henc Hrn Hsz
                   | c1 c2 r2 rn' Hr0 H0 H1 H2 Hrange Hsur Henc Hrn Hsz
                   | c1 c2 c3 r3 rn' Hr0 H0 H1 H2 H3 Hrange Henc Hrn Hsz]; subst; try lia.
  - cbn [substring] in *. rewrite substring_0_0 in *.
    exists (String c1 EmptyString), r1.
    repeat split; first [reflexivity | assumption | lia | exact Happ].
  - cbn [substring] in *. rewrite substring_0_0 in *.
    exists (String c1 (String c2 EmptyString)), r2.
    repeat split; first [reflexivity | assumption | lia | exact Happ].
  - cbn [substring] in *. rewrite substring_0_0 in *.
    exists (String c1 (String c2 (String c3 EmptyString))), r3.
    repeat split; first [reflexivity | assumption | lia | exact Happ].
Qed.

Lemma lex_line_separator (fuel : nat) (rn : Z) (out : string) :
  rn = 8232 \/ rn = 8233 ->
  json.lex_string (S fuel) ("\u202" +:+ String (hex_digit (rn mod 16)) out)
  = json.prepend (utf8.EncodeRune rn) (json.lex_string fuel out).
Proof. intros [-> | ->]; reflexivity. Qed.

Lemma lex_multibyte (fuel : nat) (c0 : ascii) (p' out : string) (rn : Z) (size : nat) :
  128 <= byte_val c0 -> size = S (String.length p') ->
  utf8.DecodeRune (String c0 p' +:+ out) = (rn, size) ->
  json.lex_string (S fuel) (String c0 p' +:+ out)
  = json.prepend (utf8.EncodeRune rn) (json.lex_string fuel out).
Proof.
  intros Hc0 Hsize Hdec. cbn [append]. rewrite lex_string_eq. cbn zeta.
  unfold utf8.RuneSelf.
  destruct (Z.eqb_spec (byte_val c0) 34); [lia|].
  destruct (Z.eqb_spec (byte_val c0) 92); [lia|].
  destruct (Z.ltb_spec (byte_val c0) 32); [lia|].
  destruct (Z.ltb_spec (byte_val c0) 128); [lia|].
  change (String c0 (p' +:+ out)) with (String c0 p' +:+ out). rewrite Hdec.
  subst size. change (S (String.length p')) with (String.length (String c0 p')).
  now rewrite drop_bytes_app.
Qed.

Lemma DecodeRune_ascii (c : ascii) (r : string) :
  byte_val c < 128 -> utf8.DecodeRune (String c r) = (byte_val c, 1%nat).
Proof.
  intros Hc. unfold utf8.DecodeRune, utf8.first.
  destruct (Z.ltb_spec (byte_val c) 128); [reflexivity|lia].
Qed.

Lemma escape_byte_length (c : ascii) : (1 <= String.length (json.escape_byte c))%nat.
Proof.
  unfold json.escape_byte.
  repeat match goal with |- context [if ?b then _ else _] => destruct b end; simpl; lia.
Qed.

Lemma lex_closing_quote (fuel : nat) (rest : string) :
  (0 < fuel)%nat -> json.lex_string fuel (String dquote rest) = json.Parsed EmptyString rest.
Proof. intros Hf. destruct fuel; [lia|reflexivity]. Qed.

(** The decoder reads back the text the encoder writes for a string of
    valid UTF-8, up to the closing quote. *)
Lemma lex_quote (q : nat) :
  forall (l : string) (vf fuel : nat) (rest : string),
    utf8.valid_from vf l = true ->
    (String.length l <= q)%nat ->
    (String.length (json.quote_body q l) < fuel)%nat ->
    json.lex_string fuel (json.quote_body q l +:+ String dquote rest) = json.Parsed l rest.
Proof.
  induction q as [|q IH]; intros l vf fuel rest Hvalid Hlen Hfuel.
  - destruct l; [|simpl in Hlen; lia]. apply lex_closing_quote. lia.
  - destruct l as [|c r]; [apply lex_closing_quote; lia|].
    destruct fuel as [|f]; [lia|]. simpl in Hlen.
    destruct vf as [|vf]; [discriminate Hvalid|]. cbn [utf8.valid_from] in Hvalid.
    rewrite quote_body_eq in Hfuel |- *. cbn zeta in Hfuel |- *.
    pose proof (byte_val_range c) as Hrange.
    destruct (Z.ltb_spec (byte_val c) utf8.RuneSelf) as [Hascii|Hmulti];
      unfold utf8.RuneSelf in *.
    + rewrite (DecodeRune_ascii c r Hascii) in Hvalid.
      replace ((byte_val c =? utf8.RuneError) && (1 =? 1)%nat) with false in Hvalid
        by (unfold utf8.RuneError; symmetry; apply andb_false_iff; left; lia).
      cbn [drop_bytes] in Hvalid.
      destruct (json.htmlSafe (byte_val c)) eqn:Hsafe.
      * cbn [append]. rewrite lex_string_eq. cbn zeta.
        unfold json.htmlSafe in Hsafe. unfold utf8.RuneSelf.
        destruct (Z.eqb_spec (byte_val c) 34); [lia|].
        destruct (Z.eqb_spec (byte_val c) 92); [lia|].
        destruct (Z.ltb_spec (byte_val c) 32); [lia|].
        destruct (Z.ltb_spec (byte_val c) 128); [|lia].
        rewrite (IH r vf f rest Hvalid); [reflexivity|lia|].
        simpl in Hfuel. lia.
      * rewrite string_app_assoc, (lex_escape_byte f c _ Hascii Hsafe).
        rewrite (IH r vf f rest Hvalid); [reflexivity|lia|].
        rewrite string_length_app in Hfuel. pose proof (escape_byte_length c). lia.
    + destruct (utf8.DecodeRune (String c r)) as [rn size] eqn:Hdec.
      destruct ((rn =? utf8.RuneError) && (size =? 1)%nat) eqn:Herr; [discriminate Hvalid|].
      destruct (multibyte_head c r rn size Hdec Hmulti Herr)
        as (p' & r' & Hr & Hsub & Hdrop & Hsize & Henc & Hrn & Happ).
      rewrite Hdrop in Hvalid, Hfuel |- *. rewrite Hsub in Hfuel |- *.
      assert (Hlen' : (String.length r' <= q)%nat).
      { rewrite Hr, string_length_app in Hlen. lia. }
      destruct ((rn =? 8232) || (rn =? 8233)) eqn:Hsep.
      * assert (Hcases : rn = 8232 \/ rn = 8233) by lia.
        change (("\u202" +:+ String (hex_digit (rn mod 16)) (json.quote_body q r'))
                +:+ String dquote rest)
          with ("\u202" +:+ String (hex_digit (rn mod 16))
                                   (json.quote_body q r' +:+ String dquote rest)).
        rewrite (lex_line_separator f rn _ Hcases).
        rewrite (IH r' vf f rest Hvalid Hlen'); [|simpl in Hfuel; lia].
        rewrite prepend_parsed, Henc, Hr. reflexivity.
      * rewrite string_app_assoc.
        rewrite (lex_multibyte f c p' _ rn size Hmulti Hsize (Happ _)).
        rewrite (IH r' vf f rest Hvalid Hlen');
          [|rewrite string_length_app in Hfuel; simpl in Hfuel; lia].
        rewrite prepend_parsed, Henc, Hr. reflexivity.
Qed.

(** ** The round trip of a placement *)

Ltac small_cases c H :=
  assert (Hcases : c = 0 \/ c = 1 \/ c = 2 \/ c = 3 \/ c = 4 \/ c = 5 \/ c = 6 \/ c = 7
                   \/ c = 8 \/ c = 9 \/ c = 10 \/ c = 11 \/ c = 12 \/ c = 13 \/ c = 14)
    by lia;
  clear H;
  repeat (destruct Hcases as [->|Hcases]); [..|subst c].

Lemma parse_value_number (fuel : nat) (depth c : Z) (rest : string) :
  0 <= c <= 14 ->
  json.parse_value (S fuel) depth (itoa c +:+ String "," rest)
  = json.Parsed (json.JNumber (itoa c)) (String "," rest).
Proof. intros Hc. small_cases c Hc; reflexivity. Qed.

Lemma skip_ws_number (c : Z) (rest : string) :
  0 <= c <= 14 -> json.skip_ws (itoa c +:+ rest) = itoa c +:+ rest.
Proof. intros Hc. small_cases c Hc; reflexivity. Qed.

Lemma open_bracket_number (fuel : nat) (c : Z) (rest : string) :
  0 <= c <= 14 ->
  json.parse_value (S fuel) 0 (String "[" (itoa c +:+ rest))
  = json.parse_elements fuel 1 (itoa c +:+ rest) [].
Proof. intros Hc. small_cases c Hc; reflexivity. Qed.

(** A number between 0 and 14 is read as the float of that value. *)
Lemma convertNumber_small (c : Z) :
  0 <= c <= 14 ->
  json.convertNumber (itoa c) = inr (f64.of_Z c) /\ f64.to_int64 (f64.of_Z c) = c.
Proof. intros Hc. small_cases c Hc; split; vm_compute; reflexivity. Qed.

Lemma parse_value_quote (fuel : nat) (depth : Z) (r : string) :
  json.parse_value (S fuel) depth (String dquote r)
  = match json.lex_string (S (String.length r)) r with
    | json.Parsed str rest => json.Parsed (json.JString str) rest
    | json.Invalid => json.Invalid
    | json.OutOfFuel => json.OutOfFuel
    end.
Proof. reflexivity. Qed.

Lemma parse_value_string (fuel : nat) (depth : Z) (l rest : string) :
  utf8.ValidString l = true ->
  json.parse_value (S fuel) depth (json.appendString l +:+ rest)
  = json.Parsed (json.JString l) rest.
Proof.
  intros Hvalid. unfold json.appendString, quoted. cbn [append].
  rewrite string_app_assoc. cbn [append].
  rewrite parse_value_quote.
  rewrite (lex_quote (String.length l) l (String.length l)); try reflexivity; try assumption.
  rewrite string_length_app. lia.
Qed.

Lemma parse_value_bool (fuel : nat) (depth : Z) (b : bool) :
  json.parse_value (S fuel) depth (json.marshal_bool b +:+ "]")
  = json.Parsed (json.JBool b) "]".
Proof. destruct b; reflexivity. Qed.

Lemma parse_elements_comma (fuel : nat) (depth : Z) (s rest : string) (v : json.value)
      (acc : list json.value) :
  json.parse_value fuel depth s = json.Parsed v (String "," rest) ->
  json.parse_elements (S fuel) depth s acc
  = json.parse_elements fuel depth (json.skip_ws rest) (acc ++ [v]).
Proof. intros Hv. cbn [json.parse_elements]. rewrite Hv. reflexivity. Qed.

Lemma parse_elements_close (fuel : nat) (depth : Z) (s rest : string) (v : json.value)
      (acc : list json.value) :
  json.parse_value fuel depth s = json.Parsed v (String "]" rest) ->
  json.parse_elements (S fuel) depth s acc = json.Parsed (json.JArray (acc ++ [v])) rest.
Proof. intros Hv. cbn [json.parse_elements]. rewrite Hv. reflexivity. Qed.

Lemma Marshal_placement (c r : Z) (l : string) (b : bool) :
  Marshal_array4_any (Placement_Array (Place c r l b)) = inr (placement_text c r l b).
Proof.
  unfold Marshal_array4_any, Placement_Array, Place, placement_text.
  cbn [Column Row Letter Blank json.marshal_any].
  unfold json.marshal_array. cbn [json.join_elems].
  repeat first [rewrite string_app_assoc | progress cbn [append]]. reflexivity.
Qed.

Lemma parse_placement (fuel : nat) (c r : Z) (l : string) (b : bool) :
  0 <= c <= 14 -> 0 <= r <= 14 -> utf8.ValidString l = true ->
  json.parse_value (6 + fuel) 0 (placement_text c r l b)
  = json.Parsed (json.JArray [json.JNumber (itoa c); json.JNumber (itoa r);
                              json.JString l; json.JBool b]) EmptyString.
Proof.
  intros Hc Hr Hl. unfold placement_text. cbn [Nat.add].
  rewrite (open_bracket_number _ c _ Hc).
  rewrite (parse_elements_comma _ _ _ _ _ _ (parse_value_number _ 1 c _ Hc)).
  rewrite (skip_ws_number r _ Hr).
  rewrite (parse_elements_comma _ _ _ _ _ _ (parse_value_number _ 1 r _ Hr)).
  change (json.skip_ws (json.appendString l +:+ ?x)) with (json.appendString l +:+ x).
  rewrite (parse_elements_comma _ _ _ _ _ _ (parse_value_string _ 1 l _ Hl)).
  replace (json.skip_ws (json.marshal_bool b +:+ "]")) with (json.marshal_bool b +:+ "]")
    by (destruct b; reflexivity).
  rewrite (parse_elements_close _ _ _ _ _ _ (parse_value_bool _ 1 b)).
  reflexivity.
Qed.

Lemma parse_placement_text (c r : Z) (l : string) (b : bool) :
  0 <= c <= 14 -> 0 <= r <= 14 -> utf8.ValidString l = true ->
  json.parse (placement_text c r l b)
  = Some (json.JArray [json.JNumber (itoa c); json.JNumber (itoa r);
                       json.JString l; json.JBool b]).
Proof.
  intros Hc Hr Hl. unfold json.parse.
  assert (Hskip : json.skip_ws (placement_text c r l b) = placement_text c r l b)
    by reflexivity.
  rewrite Hskip.
  assert (Hlen : (3 <= String.length (placement_text c r l b))%nat).
  { unfold placement_text. cbn [String.length]. rewrite string_length_app.
    cbn [String.length]. rewrite string_length_app. cbn [String.length]. lia. }
  replace (2 * String.length (placement_text c r l b) + 1)%nat
    with (6 + (2 * String.length (placement_text c r l b) - 5))%nat by lia.
  rewrite (parse_placement _ c r l b Hc Hr Hl). reflexivity.
Qed.

(** A letter that is not valid UTF-8 does not come back: [Marshal] writes
    the escape of U+FFFD for the byte 0xFF, which is decoded as the three
    bytes of U+FFFD. *)
Lemma Placement_roundtrip_refuted :
  ~ (forall (c r : Z) (l : string) (b : bool),
        0 <= c <= 14 -> 0 <= r <= 14 ->
        exists js, Marshal_array4_any (Placement_Array (Place c r l b)) = inr js
                   /\ Placement_UnmarshalJSON js = Ok (Place c r l b)).
Proof.
  intros Hall.
  destruct (Hall 7 7 (String "255" EmptyString) false) as (js & Hm & Hu); try lia.
  vm_compute in Hm. injection Hm as <-. vm_compute in Hu. discriminate Hu.
Qed.

(** C3, amended.  For every column and row in [0, 14], every letter that
    is valid UTF-8 and both values of the blank flag, the array of a
    placement is marshalled to a JSON text that [UnmarshalJSON] decodes to
    the same placement. *)
Theorem Placement_roundtrip (c r : Z) (l : string) (b : bool) :
  0 <= c <= 14 -> 0 <= r <= 14 -> utf8.ValidString l = true ->
  exists js, Marshal_array4_any (Placement_Array (Place c r l b)) = inr js
             /\ Placement_UnmarshalJSON js = Ok (Place c r l b).
Proof.
  intros Hc Hr Hl. exists (placement_text c r l b). split; [apply Marshal_placement|].
  unfold Placement_UnmarshalJSON, json.Unmarshal_array4_any.
  rewrite (parse_placement_text c r l b Hc Hr Hl).
  destruct (convertNumber_small c Hc) as [Hfc Hic].
  destruct (convertNumber_small r Hr) as [Hfr Hir].
  unfold json.elem_any. cbn [nth_error json.to_any]. rewrite Hfc, Hfr.
  cbn [assert_float64 assert_string assert_bool]. rewrite Hic, Hir. reflexivity.
Qed.

Lemma Placement_roundtrip_witness :
  exists js, Marshal_array4_any (Placement_Array (Place 7 5 "H" false)) = inr js
             /\ Placement_UnmarshalJSON js = Ok (Place 7 5 "H" false).
Proof.
  apply (Placement_roundtrip 7 5 "H" false).
  - lia.
  - lia.
  - vm_compute. reflexivity.
Defined.


(** ** Fuel

    The functions of the JSON model that take fuel never run out of it at
    the amounts they are called with. *)

Lemma within_prepend (n : nat) (p : string) (x : json.parsed string) :
  json.within n x -> json.within n (json.prepend p x).
Proof. destruct x; exact (fun H => H). Qed.

Lemma within_weaken {A : Type} (n m : nat) (x : json.parsed A) :
  (n <= m)%nat -> json.within n x -> json.within m x.
Proof. intros Hnm. destruct x; simpl; try tauto. lia. Qed.

Lemma hex4_length (s r : string) (v : Z) :
  json.hex4 s = Some (v, r) -> String.length s = (4 + String.length r)%nat.
Proof.
  unfold json.hex4. destruct s as [|a [|b [|c [|d t]]]]; try discriminate.
  destruct (hex_val a), (hex_val b), (hex_val c), (hex_val d); try discriminate.
  intros H. injection H as _ <-. reflexivity.
Qed.

Lemma getu4_length (s r : string) (v : Z) :
  json.getu4 s = Some (v, r) -> String.length s = (6 + String.length r)%nat.
Proof.
  unfold json.getu4. destruct s as [|a [|b t]]; try discriminate.
  - destruct a as [[] [] [] [] [] [] [] []]; discriminate.
  - destruct (Ascii.eqb_spec a "\") as [->|Ha];
      [|destruct a as [[] [] [] [] [] [] [] []]; try discriminate; now contradiction Ha].
    destruct (Ascii.eqb_spec b "u") as [->|Hb];
      [|destruct b as [[] [] [] [] [] [] [] []]; try discriminate; now contradiction Hb].
    intros Hh. apply hex4_length in Hh. simpl. lia.
Qed.

Lemma drop_bytes_length (n : nat) (s : string) :
  (String.length (drop_bytes n s) <= String.length s)%nat.
Proof.
  revert s. induction n as [|n IH]; intros s; [simpl; lia|].
  destruct s as [|c r]; simpl; [lia|]. specialize (IH r). lia.
Qed.

Lemma DecodeRune_advances (c : ascii) (r : string) :
  (String.length (drop_bytes (snd (utf8.DecodeRune (String c r))) (String c r))
   <= String.length r)%nat.
Proof.
  pose proof (DecodeRune_decoded c r) as Hdec.
  destruct (utf8.DecodeRune (String c r)) as [rn size]. cbn [fst snd] in *.
  inversion Hdec; subst; cbn [drop_bytes String.length]; lia.
Qed.

(** [lex_string] with more fuel than the text has bytes reads a string or
    finds the text invalid, and leaves less than it was given. *)
Lemma lex_string_fuel (fuel : nat) :
  forall s, (String.length s < fuel)%nat ->
            json.within (S (String.length s)) (json.lex_string fuel s).
Proof.
  induction fuel as [|fuel IH]; intros s Hlen; [lia|].
  destruct s as [|c r]; [exact I|]. simpl in Hlen.
  assert (Hrec : forall t, (String.length t <= String.length r)%nat ->
                           forall p, json.within (S (String.length (String c r)))
                                                 (json.prepend p (json.lex_string fuel t))).
  { intros t Ht p. apply within_prepend.
    apply (within_weaken (S (String.length t))); [simpl; lia|]. apply IH. lia. }
  rewrite lex_string_eq. cbn zeta.
  destruct (byte_val c =? 34); [simpl; lia|].
  destruct (byte_val c =? 92).
  - destruct r as [|e r1]; [exact I|].
    destruct (json.simple_escape e); [apply Hrec; simpl; lia|].
    destruct (byte_val e =? 117); [|exact I].
    destruct (json.hex4 r1) as [[rr r2]|] eqn:Hh; [|exact I].
    apply hex4_length in Hh.
    assert (H2 : (String.length r2 <= String.length (String e r1))%nat) by (simpl; lia).
    destruct (utf8.is_surrogate rr); [|apply Hrec; exact H2].
    destruct (json.getu4 r2) as [[rr1 r4]|] eqn:Hh3; [|apply Hrec; exact H2].
    apply getu4_length in Hh3.
    destruct (json.utf16_DecodeRune rr rr1 =? utf8.RuneError); apply Hrec; simpl in *; lia.
  - destruct (byte_val c <? 32); [exact I|].
    destruct (byte_val c <? utf8.RuneSelf); [apply Hrec; lia|].
    pose proof (DecodeRune_advances c r) as Hadv.
    destruct (utf8.DecodeRune (String c r)) as [rr size]. apply Hrec. exact Hadv.
Qed.

Lemma skip_ws_length (s : string) :
  (String.length (json.skip_ws s) <= String.length s)%nat.
Proof.
  induction s as [|c r IH]; simpl; [lia|]. destruct (json.isSpace c); simpl; lia.
Qed.

Lemma span_digits_length (s : string) :
  (String.length (snd (strconv.span_digits s)) <= String.length s)%nat.
Proof.
  induction s as [|c r IH]; simpl; [lia|].
  destruct (is_digit c); [|simpl; lia].
  destruct (strconv.span_digits r) as [d t]. simpl in *. lia.
Qed.

Lemma digits1_length (t ds u : string) :
  json.digits1 t = Some (ds, u) -> (String.length u <= String.length t)%nat.
Proof.
  unfold json.digits1. pose proof (span_digits_length t) as Hl.
  destruct (strconv.span_digits t) as [d r]. destruct d; [discriminate|].
  intros H. injection H as _ <-. exact Hl.
Qed.

(** The head of [s] decides a pattern on a literal byte; the cases are the
    empty text and the 256 bytes. *)
Ltac head_cases s :=
  let a := fresh "a" in
  let t := fresh "t" in
  destruct s as [|a t]; [|destruct a as [[] [] [] [] [] [] [] []]].

Lemma lex_number_within (s : string) : json.within (String.length s) (json.lex_number s).
Proof.
  unfold json.lex_number.
  assert (Hmain : forall sign s1,
             (String.length s1 <= String.length s)%nat ->
             json.within (String.length s)
               match s1 with
               | EmptyString => json.Invalid
               | String d r =>
                 if negb (is_digit d) then json.Invalid
                 else
                   let '(ip, s2) :=
                     if byte_val d =? 48 then (String d EmptyString, r)
                     else let '(ds, t) := strconv.span_digits r in (String d ds, t) in
                   let frac :=
                     match s2 with
                     | String "." t =>
                       match json.digits1 t with
                       | Some (ds, u) => Some (String "." ds, u)
                       | None => None
                       end
                     | _ => Some (EmptyString, s2)
                     end in
                   match frac with
                   | None => json.Invalid
                   | Some (fp, s3) =>
                     let ex :=
                       match s3 with
                       | String e t =>
                         if (byte_val e =? 101) || (byte_val e =? 69) then
                           let '(sg, u) :=
                             match t with
                             | String "+" u => ("+", u)
                             | String "-" u => ("-", u)
                             | _ => (EmptyString, t)
                             end in
                           match json.digits1 u with
                           | Some (ds, w) => Some (String e (sg +:+ ds), w)
                           | None => None
                           end
                         else Some (EmptyString, s3)
                       | EmptyString => Some (EmptyString, s3)
                       end in
                     match ex with
                     | None => json.Invalid
                     | Some (ep, s4) => json.Parsed (sign +:+ ip +:+ fp +:+ ep) s4
                     end
                   end
               end).
  { intros sign s1 Hs1. destruct s1 as [|d r]; [exact I|].
    destruct (negb (is_digit d)); [exact I|]. simpl in Hs1.
    assert (H2 : exists ip s2,
               (if byte_val d =? 48 then (String d EmptyString, r)
                else let '(ds, t) := strconv.span_digits r in (String d ds, t)) = (ip, s2)
               /\ (String.length s2 <= String.length r)%nat).
    { destruct (byte_val d =? 48); [now exists (String d EmptyString), r|].
      pose proof (span_digits_length r) as Hl.
      destruct (strconv.span_digits r) as [ds t]. now exists (String d ds), t. }
    destruct H2 as (ip & s2 & -> & Hs2). cbn zeta.
    assert (H3 : forall fp s3,
               match s2 with
               | String "." t =>
                 match json.digits1 t with
                 | Some (ds, u) => Some (String "." ds, u)
                 | None => None
                 end
               | _ => Some (EmptyString, s2)
               end = Some (fp, s3) -> (String.length s3 <= String.length s2)%nat).
    { intros fp s3. head_cases s2;
        try (intros H; injection H as _ <-; simpl; lia).
      destruct (json.digits1 t) as [[ds u]|] eqn:Hd; [|discriminate].
      apply digits1_length in Hd. intros H. injection H as _ <-. simpl. lia. }
    destruct (match s2 with String "." t => _ | _ => _ end) as [[fp s3]|]; [|exact I].
    specialize (H3 fp s3 eq_refl).
    assert (H4 : forall ep s4,
               match s3 with
               | String e t =>
                 if (byte_val e =? 101) || (byte_val e =? 69) then
                   let '(sg, u) :=
                     match t with
                     | String "+" u => ("+", u)
                     | String "-" u => ("-", u)
                     | _ => (EmptyString, t)
                     end in
                   match json.digits1 u with
                   | Some (ds, w) => Some (String e (sg +:+ ds), w)
                   | None => None
                   end
                 else Some (EmptyString, s3)
               | EmptyString => Some (EmptyString, s3)
               end = Some (ep, s4) -> (String.length s4 <= String.length s3)%nat).
    { intros ep s4. destruct s3 as [|e t]; [intros H; injection H as _ <-; lia|].
      destruct ((byte_val e =? 101) || (byte_val e =? 69));
        [|intros H; injection H as _ <-; lia].
      assert (Hu : exists sg u,
                 match t with
                 | String "+" u => ("+", u)
                 | String "-" u => ("-", u)
                 | _ => (EmptyString, t)
                 end = (sg, u) /\ (String.length u <= String.length t)%nat).
      { head_cases t; eexists; eexists; (split; [reflexivity|simpl; lia]). }
      destruct Hu as (sg & u & -> & Hu).
      destruct (json.digits1 u) as [[ds w]|] eqn:Hd; [|discriminate].
      apply digits1_length in Hd. intros H. injection H as _ <-. simpl. lia. }
    destruct (match s3 with String e t => _ | EmptyString => _ end) as [[ep s4]|];
      [|exact I].
    specialize (H4 ep s4 eq_refl). simpl. lia. }
  destruct s as [|a t]; [exact I|].
  destruct a as [[] [] [] [] [] [] [] []];
    first [ apply (Hmain "-" t); simpl; lia
          | apply (Hmain EmptyString (String _ t)); simpl; lia ].
Qed.

Lemma lit_rest_length (lit : string) (c : ascii) (r rest : string) :
  lit <> EmptyString -> json.lit_rest lit (String c r) = Some rest ->
  (String.length rest <= String.length r)%nat.
Proof.
  intros Hne. unfold json.lit_rest. destruct (String.prefix lit (String c r)); [|discriminate].
  intros H. injection H as <-. destruct lit as [|a l]; [contradiction|].
  simpl. apply drop_bytes_length.
Qed.

Lemma within_map {A B : Type} (n : nat) (x : json.parsed A) (f : A -> B) :
  json.within n x ->
  json.within n match x with
                | json.Parsed a rest => json.Parsed (f a) rest
                | json.Invalid => json.Invalid
                | json.OutOfFuel => json.OutOfFuel
                end.
Proof. destruct x; exact (fun H => H). Qed.

(** With fuel for twice the bytes of the text, the parser of values never
    runs out of it, and what it reads is not empty. *)
Lemma parse_fuel (fuel : nat) :
  (forall depth s, (2 * String.length s + 1 <= fuel)%nat ->
                   json.within (String.length s) (json.parse_value fuel depth s))
  /\ (forall depth s acc, (2 * String.length s + 2 <= fuel)%nat ->
                          json.within (String.length s) (json.parse_elements fuel depth s acc))
  /\ (forall depth s acc, (2 * String.length s + 2 <= fuel)%nat ->
                          json.within (String.length s) (json.parse_members fuel depth s acc)).
Proof.
  induction fuel as [|fuel (IHv & IHe & IHm)]; [repeat split; intros; lia|].
  repeat split.
  - intros depth s Hf. destruct s as [|c r]; [exact I|].
    cbn [json.parse_value]. cbn zeta. simpl String.length in *.
    pose proof (skip_ws_length r) as Hws.
    destruct (byte_val c =? 123).
    { destruct (json.maxNestingDepth <? depth + 1); [exact I|].
      destruct (json.skip_ws r) as [|a t] eqn:Hs.
      - apply (within_weaken (String.length EmptyString)); [simpl; lia|].
        apply IHm. simpl. lia.
      - simpl in Hws.
        destruct a as [[] [] [] [] [] [] [] []];
          first [ simpl; lia
                | match goal with
                  | |- json.within _ (json.parse_members _ _ ?s _) =>
                    apply (within_weaken (String.length s)); [simpl; lia|];
                    apply IHm; simpl; lia
                  end ]. }
    destruct (byte_val c =? 91).
    { destruct (json.maxNestingDepth <? depth + 1); [exact I|].
      destruct (json.skip_ws r) as [|a t] eqn:Hs.
      - apply (within_weaken (String.length EmptyString)); [simpl; lia|].
        apply IHe. simpl. lia.
      - simpl in Hws.
        destruct a as [[] [] [] [] [] [] [] []];
          first [ simpl; lia
                | match goal with
                  | |- json.within _ (json.parse_elements _ _ ?s _) =>
                    apply (within_weaken (String.length s)); [simpl; lia|];
                    apply IHe; simpl; lia
                  end ]. }
    destruct (byte_val c =? 34).
    { apply within_map. apply lex_string_fuel. lia. }
    destruct (byte_val c =? 116).
    { destruct (json.lit_rest "true" (String c r)) as [rest|] eqn:Hl; [|exact I].
      apply lit_rest_length in Hl; [simpl; lia|discriminate]. }
    destruct (byte_val c =? 102).
    { destruct (json.lit_rest "false" (String c r)) as [rest|] eqn:Hl; [|exact I].
      apply lit_rest_length in Hl; [simpl; lia|discriminate]. }
    destruct (byte_val c =? 110).
    { destruct (json.lit_rest "null" (String c r)) as [rest|] eqn:Hl; [|exact I].
      apply lit_rest_length in Hl; [simpl; lia|discriminate]. }
    destruct ((byte_val c =? 45) || is_digit c); [|exact I].
    apply within_map. apply (lex_number_within (String c r)).
  - intros depth s acc Hf. cbn [json.parse_elements].
    pose proof (IHv depth s ltac:(lia)) as Hv.
    destruct (json.parse_value fuel depth s) as [v r| |]; [|exact I|contradiction].
    simpl in Hv. pose proof (skip_ws_length r) as Hws.
    destruct (json.skip_ws r) as [|a t] eqn:Hs; [exact I|]. simpl in Hws.
    pose proof (skip_ws_length t) as Hwt.
    destruct a as [[] [] [] [] [] [] [] []];
      first [ exact I
            | simpl; lia
            | apply (within_weaken (String.length (json.skip_ws t))); [lia|];
              apply IHe; lia ].
  - intros depth s acc Hf. cbn [json.parse_members].
    destruct s as [|q r]; [exact I|]. simpl String.length in *.
    destruct q as [[] [] [] [] [] [] [] []]; try exact I.
    pose proof (lex_string_fuel (S (String.length r)) r ltac:(lia)) as Hk.
    destruct (json.lex_string (S (String.length r)) r) as [k r1| |];
      [|exact I|contradiction].
    simpl in Hk. pose proof (skip_ws_length r1) as Hw1.
    destruct (json.skip_ws r1) as [|a r2] eqn:Hs1; [exact I|]. simpl in Hw1.
    pose proof (skip_ws_length r2) as Hw2.
    destruct a as [[] [] [] [] [] [] [] []]; try exact I.
    pose proof (IHv depth (json.skip_ws r2) ltac:(lia)) as Hv.
    destruct (json.parse_value fuel depth (json.skip_ws r2)) as [v r3| |];
      [|exact I|contradiction].
    simpl in Hv. pose proof (skip_ws_length r3) as Hw3.
    destruct (json.skip_ws r3) as [|b r4] eqn:Hs3; [exact I|]. simpl in Hw3.
    pose proof (skip_ws_length r4) as Hw4.
    destruct b as [[] [] [] [] [] [] [] []];
      first [ exact I
            | simpl; lia
            | apply (within_weaken (String.length (json.skip_ws r4))); [lia|];
              apply IHm; lia ].
Qed.

(** [parse] gives its parser fuel enough: a text that [parse] refuses is
    not a JSON value. *)
Lemma parse_never_out_of_fuel (data : string) :
  json.parse_value (2 * String.length (json.skip_ws data) + 1) 0 (json.skip_ws data)
  <> json.OutOfFuel.
Proof.
  pose proof (proj1 (parse_fuel (2 * String.length (json.skip_ws data) + 1))
                    0 (json.skip_ws data) (le_n _)) as H.
  intros Heq. rewrite Heq in H. exact H.
Qed.


(** * Further properties of the client and the transport layer *)

(** ** The client (client.go) *)

Lemma TrimSuffix_app (u : string) (c : ascii) :
  strings.TrimSuffix (u +:+ String c EmptyString) c = u.
Proof.
  induction u as [|a u IH]; simpl.
  - now rewrite Ascii.eqb_refl.
  - destruct (u +:+ String c EmptyString) eqn:E.
    + destruct u; discriminate.
    + now rewrite IH.
Qed.

Lemma TrimSuffix_none (u : string) (c : ascii) :
  (forall v, u <> v +:+ String c EmptyString) -> strings.TrimSuffix u c = u.
Proof.
  induction u as [|a u IH]; intros Hne; [reflexivity|].
  simpl. destruct u as [|b u].
  - destruct (Ascii.eqb_spec a c) as [->|]; [|reflexivity].
    now destruct (Hne EmptyString).
  - rewrite IH; [reflexivity|].
    intros v Hv. apply (Hne (String a v)). simpl. now rewrite Hv.
Qed.

Lemma NewClient_app (d : http.Client) (opts : list (Client -> Client)) (opt : Client -> Client) :
  NewClient d (opts ++ [opt]) = opt (NewClient d opts).
Proof. unfold NewClient. now rewrite fold_left_app. Qed.

(** The options of [NewClient] are applied in order, so the last one of a
    kind wins: after a final [WithBaseURL(u)] the base URL is [u] less one
    trailing slash, if it has one (a second slash stays), and the HTTP
    client is the one the earlier options left; a final [WithHTTPClient]
    leaves the base URL alone. *)
Theorem NewClient_last_option (d h : http.Client) (opts : list (Client -> Client))
        (u : string) :
  baseURL (NewClient d (opts ++ [WithBaseURL (u +:+ "/")])) = u
  /\ ((forall v, u <> v +:+ "/") -> baseURL (NewClient d (opts ++ [WithBaseURL u])) = u)
  /\ cl (NewClient d (opts ++ [WithBaseURL u])) = cl (NewClient d opts)
  /\ cl (NewClient d (opts ++ [WithHTTPClient h])) = h
  /\ baseURL (NewClient d (opts ++ [WithHTTPClient h])) = baseURL (NewClient d opts).
Proof.
  rewrite !NewClient_app. simpl. repeat split.
  - apply TrimSuffix_app.
  - apply TrimSuffix_none.
Qed.

Lemma NewClient_last_option_witness :
  baseURL (NewClient (fun _ => inl "no network")
                     ([WithBaseURL "http://a/"] ++ [WithBaseURL "http://localhost:8080/wf"]))
  = "http://localhost:8080/wf".
Proof.
  apply (NewClient_last_option (fun _ => inl "no network") (fun _ => inl "no network")
                               [WithBaseURL "http://a/"] "http://localhost:8080/wf").
  intros v Hv.
  assert (H : forall a b : string, a = b ->
                String.get (String.length a - 1) a = String.get (String.length b - 1) b)
    by (intros a b ->; reflexivity).
  apply H in Hv. 
  assert (Hl : forall v, String.get (String.length (v +:+ "/") - 1) (v +:+ "/") = Some "/"%char).
  { clear. intros v. induction v as [|a v IH]; [reflexivity|].
    simpl. destruct (v +:+ "/") eqn:E; [destruct v; discriminate|].
    simpl in IH. rewrite Nat.sub_0_r in IH |- *. exact IH. }
  rewrite Hl in Hv. vm_compute in Hv. discriminate.
Defined.

(** [hashPassword] returns 40 lower-case hexadecimal digits, whatever the
    password. *)
Theorem hashPassword_shape (password : string) :
  String.length (hashPassword password) = 40%nat
  /\ all_bytes is_lower_hex (hashPassword password) = true.
Proof.
  split; [|apply EncodeToString_hex].
  unfold hashPassword. now rewrite EncodeToString_length, sha1_Sum_length.
Qed.

Lemma sentinel_map_lookup (ty : string) (err : error) :
  sentinel_map !! ty = Some err -> exists s, err = sentinel s /\ Sentinel_text s = ty.
Proof.
  intros H. apply elem_of_list_to_map_2 in H.
  repeat (apply elem_of_cons in H; destruct H as [H|H];
          [injection H as -> ->; eexists; split; reflexivity|]).
  now apply elem_of_nil in H.
Qed.

Lemma convertToSentinel_classifies_aux (e : apiError) :
  (exists s, convertToSentinel (Some e) = inr (sentinel s) /\ Sentinel_text s = Type_ e)
  \/ (convertToSentinel (Some e) = inr (api e) /\ forall s, Type_ e <> Sentinel_text s).
Proof.
  unfold convertToSentinel.
  destruct (sentinel_map !! Type_ e) as [err|] eqn:E.
  - left. apply sentinel_map_lookup in E as (s & -> & Hs). now exists s.
  - right. split; [reflexivity|]. intros s Hs.
    rewrite Hs, sentinel_map_known in E. discriminate.
Qed.

(** [convertToSentinel] on a descriptor that is not nil never panics and
    classifies it in one of two ways: as the sentinel whose text is the
    descriptor's type, the message being dropped, or, when the type is none
    of the seventeen texts, as the descriptor itself, unchanged. *)
Theorem convertToSentinel_classifies (e : apiError) :
  (exists s, convertToSentinel (Some e) = inr (sentinel s) /\ Sentinel_text s = Type_ e)
  \/ (convertToSentinel (Some e) = inr (api e) /\ forall s, Type_ e <> Sentinel_text s).
Proof. exact (convertToSentinel_classifies_aux e). Qed.


(** ** The transport layer (http.go) *)

Lemma TrimRight_app_cut (p : string) (c : ascii) :
  strings.TrimRight (p +:+ String c EmptyString) c = strings.TrimRight p c.
Proof.
  induction p as [|a p IH]; simpl.
  - now rewrite Ascii.eqb_refl.
  - now rewrite IH.
Qed.

Lemma Trim_cons_cut (p : string) (c : ascii) :
  strings.Trim (String c p) c = strings.Trim p c.
Proof. unfold strings.Trim. simpl. now rewrite Ascii.eqb_refl. Qed.

Lemma Trim_app_cut (p : string) (c : ascii) :
  strings.Trim (p +:+ String c EmptyString) c = strings.Trim p c.
Proof.
  unfold strings.Trim. induction p as [|a p IH].
  - simpl. now rewrite Ascii.eqb_refl.
  - cbn [append strings.TrimLeft]. destruct (Ascii.eqb a c); [exact IH|].
    apply (TrimRight_app_cut (String a p)).
Qed.

(** [request] trims the path: a slash in front of the path or behind it
    changes nothing, neither in the request sent nor in the result. *)
Theorem request_path_slashes `{NewRequestError} (c : Client) (method path : string)
        (session : SessionID) (body : option string) :
  request c method ("/" +:+ path) session body = request c method path session body
  /\ request c method (path +:+ "/") session body = request c method path session body.
Proof.
  assert (H1 : request_url c ("/" +:+ path) = request_url c path)
    by (unfold request_url; cbn [append]; now rewrite Trim_cons_cut).
  assert (H2 : request_url c (path +:+ "/") = request_url c path)
    by (unfold request_url; now rewrite Trim_app_cut).
  unfold request, new_request. now rewrite H1, H2.
Qed.

(** [request] hands at most one request to the HTTP client and never
    tries again: none when the request cannot be built, and otherwise
    exactly one, also when the client fails, in which case the client's
    error is returned behind the words [sending request]. *)
Theorem request_sends_once `{NewRequestError} (c : Client) (method path : string)
        (session : SessionID) (body : option string) (w : list http.Request) :
  (forall msg, NewRequest_error method (request_url c path) = Some msg ->
               request c method path session body w
               = (Err (errorf ("creating request: " +:+ msg)), w))
  /\ (NewRequest_error method (request_url c path) = None ->
      snd (request c method path session body w)
      = w ++ [new_request c method path session body]
      /\ forall msg, cl c (new_request c method path session body) = inl msg ->
                     fst (request c method path session body w)
                     = Err (errorf ("sending request: " +:+ msg))).
Proof.
  unfold request. split.
  - intros msg ->. reflexivity.
  - intros ->. split.
    + now destruct (cl c _).
    + intros msg ->. reflexivity.
Qed.

Lemma request_sends_once_witness :
  fst (@request (fun _ _ => None)
                {| cl := fun _ => inl "dial tcp: connection refused"; baseURL := "http://h" |}
                "GET" "/user/games" "s" None [])
  = Err (errorf "sending request: dial tcp: connection refused").
Proof.
  apply (@request_sends_once (fun _ _ => None)
           {| cl := fun _ => inl "dial tcp: connection refused"; baseURL := "http://h" |}
           "GET" "/user/games" "s" None []); reflexivity.
Defined.

(** The response body is closed on every way out of [request] once the
    client has answered, and a failure to close it is a panic that
    replaces whatever [request] was about to return: a result, an error
    of the response, or the error of reading the body. *)
Theorem request_close_failure `{NewRequestError} (c : Client) (method path : string)
        (session : SessionID) (body : option string) (res : http.Response) (msg : string)
        (w : list http.Request) :
  NewRequest_error method (request_url c path) = None ->
  cl c (new_request c method path session body) = inr res ->
  http.close_err (http.Body res) = Some msg ->
  request c method path session body w
  = (Panic (PanicError (errorf ("closing response body: " +:+ msg))),
     w ++ [new_request c method path session body]).
Proof.
  intros Hn Hd Hc. unfold request. rewrite Hn, Hd. unfold deferred_close. now rewrite Hc.
Qed.

Lemma request_close_failure_witness :
  let res := {| http.StatusCode := 200; http.Header := empty;
                http.Body := {| http.data := json_text "{'status':'ok','content':1}";
                                http.read_err := None;
                                http.close_err := Some "broken pipe" |} |} in
  let c := {| cl := fun _ => inr res; baseURL := "http://h" |} in
  @request (fun _ _ => None) c "GET" "/user/games" "s" None []
  = (Panic (PanicError (errorf "closing response body: broken pipe")),
     [new_request c "GET" "/user/games" "s" None]).
Proof.
  intros res c.
  apply (@request_close_failure (fun _ _ => None) c "GET" "/user/games" "s" None res
                                "broken pipe" []); reflexivity.
Defined.

(** A body that cannot be read to its end gives the error of reading it,
    whatever the status code, and nothing of the body is looked at. *)
Theorem request_read_failure `{NewRequestError} (c : Client) (method path : string)
        (session : SessionID) (body : option string) (res : http.Response) (msg : string)
        (w : list http.Request) :
  NewRequest_error method (request_url c path) = None ->
  cl c (new_request c method path session body) = inr res ->
  http.read_err (http.Body res) = Some msg ->
  http.close_err (http.Body res) = None ->
  request c method path session body w
  = (Err (errorf ("reading response body: " +:+ msg)),
     w ++ [new_request c method path session body]).
Proof.
  intros Hn Hd Hr Hc. unfold request. rewrite Hn, Hd. unfold deferred_close, classify.
  now rewrite Hc, Hr.
Qed.

Lemma request_read_failure_witness :
  let res := {| http.StatusCode := 200; http.Header := empty;
                http.Body := {| http.data := json_text "{'status':'ok','con";
                                http.read_err := Some "unexpected EOF";
                                http.close_err := None |} |} in
  let c := {| cl := fun _ => inr res; baseURL := "http://h" |} in
  @request (fun _ _ => None) c "GET" "/user/games" "s" None []
  = (Err (errorf "reading response body: unexpected EOF"),
     [new_request c "GET" "/user/games" "s" None]).
Proof.
  intros res c.
  apply (@request_read_failure (fun _ _ => None) c "GET" "/user/games" "s" None res
                               "unexpected EOF" []); reflexivity.
Defined.

(** [roundtrip] fails before the network when the body cannot be
    marshalled, and hands on what [request] ends with, unchanged and
    without decoding anything, when [request] returns an error or panics;
    a panic of the decoder is a panic of [roundtrip]. *)
Theorem roundtrip_failures {B C : Type} `{NewRequestError} `{Marshaler B} `{Unmarshaler C}
        (c : Client) (method path : string) (session : SessionID) (w : list http.Request) :
  (forall (v : B) (e : json.error),
      Marshal v = inl e ->
      roundtrip (C := C) c method path session (Some v) w
      = (Err (errorf_v "marshalling request body: " (json_error e)), w))
  /\ (forall (body : option B) (b : option string) (w' : list http.Request),
         marshalled body b ->
         (forall e, request c method path session b w = (Err e, w') ->
                    roundtrip (C := C) c method path session body w = (Err e, w'))
         /\ (forall p, request c method path session b w = (Panic p, w') ->
                       roundtrip (C := C) c method path session body w = (Panic p, w'))
         /\ (forall res content p,
                request c method path session b w = (Ok res, w') ->
                Content res = Some content -> Unmarshal (C := C) content = Panic p ->
                roundtrip (C := C) c method path session body w = (Panic p, w'))).
Proof.
  split.
  - intros v e Hm. unfold roundtrip, bind, fail. now rewrite Hm.
  - intros body b w' Hb.
    assert (Hpre : forall k : option string -> M C,
               bind match body with
                    | None => ret None
                    | Some v =>
                      match Marshal v with
                      | inl e => fail (errorf_v "marshalling request body: " (json_error e))
                      | inr bs => ret (Some bs)
                      end
                    end k w = k b w).
    { intros k. destruct body as [v|]; simpl in Hb.
      - destruct Hb as (bs & Hm & ->). unfold bind, ret. now rewrite Hm.
      - now subst b. }
    unfold roundtrip. rewrite Hpre. unfold bind. repeat split.
    + intros e ->. reflexivity.
    + intros p ->. reflexivity.
    + intros res content p -> Hc Hu. rewrite Hc, Hu. reflexivity.
Qed.

Lemma roundtrip_failures_witness :
  fst (@roundtrip MoveBody Timestamp (fun _ _ => None) _ Timestamp_UnmarshalJSON
                  {| cl := fun _ => inl "timeout"; baseURL := "http://h" |}
                  "GET" "/user/games" "s" None [])
  = Err (errorf "sending request: timeout").
Proof.
  set (c := {| cl := fun _ => inl "timeout"; baseURL := "http://h" |}).
  pose proof (proj1 (proj2 (@roundtrip_failures MoveBody Timestamp (fun _ _ => None) _
                              Timestamp_UnmarshalJSON c "GET" "/user/games" "s" [])
                           None None [new_request c "GET" "/user/games" "s" None] eq_refl)
                    (errorf "sending request: timeout") eq_refl) as H.
  now rewrite H.
Defined.

(** ** Sessions *)

Lemma up_to_semicolon_value (v tail : string) :
  all_bytes value_byte v = true -> value_end tail -> up_to_semicolon (v +:+ tail) = v.
Proof.
  intros Hv Ht. induction v as [|c v IH].
  - destruct Ht as [->|(r & ->)]; reflexivity.
  - simpl in Hv. apply andb_true_iff in Hv as [Hc Hv].
    apply value_byte_inv in Hc as [Hc _]. simpl.
    destruct (Ascii.eqb_spec c ";"); [contradiction|]. now rewrite IH.
Qed.

Lemma value_no_newline (v : string) :
  all_bytes value_byte v = true ->
  all_bytes (fun c => negb (byte_val c =? 10)) v = true.
Proof.
  induction v as [|c v IH]; [reflexivity|]. simpl. intros H.
  apply andb_true_iff in H as [Hc Hv]. rewrite (IH Hv).
  unfold value_byte in Hc. apply andb_true_iff in Hc as [_ ->]. reflexivity.
Qed.

Lemma first_line_aux (ct ct' : option string)
        (h : gmap string (list string)) (v : string) (more : list string) :
  h !! "Set-Cookie" = Some (v :: more) ->
  extractSessionID {| Content := ct; Header := h |}
  = extractSessionID {| Content := ct'; Header := {[ "Set-Cookie" := [v] ]} |}.
Proof.
  intros Hh. unfold extractSessionID, http.Get. simpl.
  now rewrite Hh, lookup_singleton_eq.
Qed.

(** The session is read from the first [Set-Cookie] line only: whatever
    further lines the response has, [sessionid] is looked for in the
    first, and if it is not there extraction fails. *)
Theorem extractSessionID_first_line (ct ct' : option string)
        (h : gmap string (list string)) (v : string) (more : list string) :
  h !! "Set-Cookie" = Some (v :: more) ->
  extractSessionID {| Content := ct; Header := h |}
  = extractSessionID {| Content := ct'; Header := {[ "Set-Cookie" := [v] ]} |}.
Proof. exact (first_line_aux ct ct' h v more). Qed.

Lemma extractSessionID_first_line_witness :
  extractSessionID
    {| Content := None;
       Header := {[ "Set-Cookie" := ["csrftoken=x; Path=/"; "sessionid=abc123; Path=/"] ]} |}
  = Err (errorf "sessionid not found in cookie").
Proof.
  rewrite (extractSessionID_first_line None None _ "csrftoken=x; Path=/"
                                       ["sessionid=abc123; Path=/"]).
  - vm_compute. reflexivity.
  - apply lookup_singleton_eq.
Defined.

Lemma session_cookie_aux (ct : option string) (s tail : string) :
  s <> EmptyString -> all_bytes value_byte s = true -> value_end tail ->
  extractSessionID
    {| Content := ct; Header := {[ "Set-Cookie" := [SessionID_cookie s +:+ tail] ]} |}
  = Ok s.
Proof.
  intros Hne Hv Ht. unfold extractSessionID, http.Get. cbn [Header].
  rewrite lookup_singleton_eq. unfold SessionID_cookie.
  set (cookie := ("sessionid=" +:+ s) +:+ tail).
  assert (Hval : sessionid_value cookie = Some s).
  { rewrite sessionid_value_eq. unfold cookie. rewrite string_app_assoc, prefix_app.
    change 10%nat with (String.length "sessionid=").
    now rewrite drop_bytes_app, up_to_semicolon_value. }
  destruct (String.eqb_spec cookie EmptyString) as [He|_]; [discriminate He|].
  unfold regexp.FindStringSubmatch.
  destruct (search_finds (String.length cookie) cookie s (le_n _) Hval Hne
                         (value_no_newline s Hv)) as (caps & Hs & Hg).
  rewrite Hs. simpl. now rewrite Hg.
Qed.

(** What [SessionID.cookie] writes is what [extractSessionID] reads: from
    a cookie line that starts with the cookie text of a session [s] and
    goes on, if at all, with a [;], the session extracted is [s] again,
    for every [s] that is not empty and holds neither a [;] nor a
    newline. *)
Theorem session_cookie_roundtrip (ct : option string) (s tail : string) :
  s <> EmptyString -> all_bytes value_byte s = true -> value_end tail ->
  extractSessionID
    {| Content := ct; Header := {[ "Set-Cookie" := [SessionID_cookie s +:+ tail] ]} |}
  = Ok s.
Proof. exact (session_cookie_aux ct s tail). Qed.

Lemma session_cookie_roundtrip_witness :
  extractSessionID
    {| Content := None;
       Header := {[ "Set-Cookie" := [SessionID_cookie "k3y" +:+ "; HttpOnly; Path=/"] ]} |}
  = Ok "k3y".
Proof.
  apply (session_cookie_roundtrip None "k3y" "; HttpOnly; Path=/").
  - discriminate.
  - reflexivity.
  - right. now exists " HttpOnly; Path=/".
Defined.


(** ** Numbers: [strconv.Itoa], the number literals of JSON and [float64] *)

Lemma uint_digits (d : Decimal.uint) :
  all_bytes is_digit (NilEmpty.string_of_uint d) = true.
Proof. induction d; simpl; try rewrite IHd; reflexivity. Qed.

Lemma digits_val_acc (d : Decimal.uint) :
  forall acc : positive,
    strconv.digits_val (Zpos acc) (NilEmpty.string_of_uint d) = Zpos (Pos.of_uint_acc d acc).
Proof.
  induction d; intros acc; cbn [NilEmpty.string_of_uint strconv.digits_val Pos.of_uint_acc];
    try reflexivity;
    rewrite <- IHd; f_equal; unfold byte_val; cbn; lia.
Qed.

Lemma digits_val_uint (d : Decimal.uint) :
  strconv.digits_val 0 (NilEmpty.string_of_uint d) = Z.of_N (Pos.of_uint d).
Proof.
  induction d; cbn [NilEmpty.string_of_uint strconv.digits_val Pos.of_uint];
    try reflexivity; try exact IHd;
    cbn [Z.of_N]; rewrite <- digits_val_acc; f_equal.
Qed.

Lemma span_digits_all (ds t : string) :
  all_bytes is_digit ds = true ->
  match t with EmptyString => true | String c _ => negb (is_digit c) end = true ->
  strconv.span_digits (ds +:+ t) = (ds, t).
Proof.
  intros Hds Ht. induction ds as [|c ds IH].
  - destruct t as [|c t]; [reflexivity|]. cbn [append strconv.span_digits].
    apply negb_true_iff in Ht. now rewrite Ht.
  - simpl in Hds. apply andb_true_iff in Hds as [Hc Hds].
    cbn [append strconv.span_digits]. now rewrite Hc, (IH Hds).
Qed.

Lemma to_uint_normal (p : positive) : Decimal.nzhead (Pos.to_uint p) = Pos.to_uint p.
Proof.
  assert (Hu : Decimal.unorm (Pos.to_uint p) = Pos.to_uint p).
  { change (Pos.to_uint p) with (N.to_uint (Npos p)) at 2.
    rewrite <- (DecimalPos.Unsigned.of_to p).
    exact (eq_sym (DecimalN.Unsigned.to_of (Pos.to_uint p))). }
  unfold Decimal.unorm in Hu.
  destruct (Decimal.nzhead (Pos.to_uint p)) eqn:E; try exact Hu.
  symmetry in Hu. now apply DecimalPos.Unsigned.to_uint_nonzero in Hu.
Qed.

(** The decimal text of a positive number: a digit other than [0] and
    then digits. *)
Lemma to_uint_text (p : positive) :
  exists (c : ascii) (ds : string),
    NilZero.string_of_uint (Pos.to_uint p) = String c ds
    /\ is_digit c = true /\ c <> "0"%char /\ all_bytes is_digit ds = true
    /\ strconv.digits_val 0 (String c ds) = Zpos p.
Proof.
  pose proof (to_uint_normal p) as Hn.
  pose proof (DecimalPos.Unsigned.of_to p) as Hof.
  pose proof (digits_val_uint (Pos.to_uint p)) as Hv.
  pose proof (uint_digits (Pos.to_uint p)) as Hd.
  pose proof (DecimalFacts.nzhead_nonzero (Pos.to_uint p)) as Hz.
  pose proof (DecimalPos.Unsigned.to_uint_nonnil p) as Hnil.
  rewrite Hn in Hz. rewrite Hof in Hv.
  destruct (Pos.to_uint p) as [|d|d|d|d|d|d|d|d|d|d];
    [contradiction| now destruct (Hz d) | ..];
    eexists; eexists; (split; [reflexivity|]);
    cbn [NilEmpty.string_of_uint all_bytes] in Hd;
    (split; [reflexivity|]); (split; [discriminate|]); (split; [exact Hd|exact Hv]).
Qed.

Lemma itoa_pos (p : positive) : itoa (Zpos p) = NilZero.string_of_uint (Pos.to_uint p).
Proof. reflexivity. Qed.

Lemma itoa_neg (p : positive) :
  itoa (Zneg p) = String "-" (NilZero.string_of_uint (Pos.to_uint p)).
Proof. reflexivity. Qed.

(** [itoa z] is an optional minus sign, a digit and digits, without a
    leading zero, and reads back as [z]. *)
Lemma itoa_text (z : Z) :
  exists (c : ascii) (ds : string),
    itoa z = (if z <? 0 then "-" else EmptyString) +:+ String c ds
    /\ is_digit c = true /\ all_bytes is_digit ds = true
    /\ (c = "0"%char -> ds = EmptyString)
    /\ strconv.digits_val 0 (String c ds) = Z.abs z.
Proof.
  destruct z as [|p|p].
  - exists "0"%char, EmptyString. repeat split.
  - destruct (to_uint_text p) as (c & ds & Ht & Hc & Hz & Hd & Hv).
    exists c, ds. rewrite itoa_pos, Ht. repeat split; try assumption. now intros.
  - destruct (to_uint_text p) as (c & ds & Ht & Hc & Hz & Hd & Hv).
    exists c, ds. rewrite itoa_neg, Ht. repeat split; try assumption. now intros.
Qed.

Lemma number_end_not_digit (t : string) :
  json.number_end t = true ->
  match t with EmptyString => true | String c _ => negb (is_digit c) end = true.
Proof.
  destruct t as [|c t]; [reflexivity|]. simpl. intros H.
  apply negb_true_iff in H. apply negb_true_iff.
  now destruct (is_digit c).
Qed.

(** A number literal without fraction and exponent, in front of a text
    that ends it. *)
Lemma lex_number_plain (sign : bool) (c : ascii) (ds t : string) :
  is_digit c = true -> all_bytes is_digit ds = true ->
  (c = "0"%char -> ds = EmptyString) -> json.number_end t = true ->
  json.lex_number ((if sign then "-" else EmptyString) +:+ String c (ds +:+ t))
  = json.Parsed ((if sign then "-" else EmptyString) +:+ String c ds) t.
Proof.
  intros Hc Hds Hz Ht.
  pose proof (span_digits_all ds t Hds (number_end_not_digit t Ht)) as Hspan.
  assert (Htail : forall (ip : string),
             match
               match t with
               | String "." u =>
                 match json.digits1 u with
                 | Some (fs, v) => Some (String "." fs, v)
                 | None => None
                 end
               | _ => Some (EmptyString, t)
               end
             with
             | None => json.Invalid
             | Some (fp, s3) =>
               match
                 match s3 with
                 | String e u =>
                   if (byte_val e =? 101) || (byte_val e =? 69) then
                     let '(sg, v) := match u with
                                     | String "+" v => ("+", v)
                                     | String "-" v => ("-", v)
                                     | _ => (EmptyString, u)
                                     end in
                     match json.digits1 v with
                     | Some (es, x) => Some (String e (sg +:+ es), x)
                     | None => None
                     end
                   else Some (EmptyString, s3)
                 | EmptyString => Some (EmptyString, s3)
                 end
               with
               | None => json.Invalid
               | Some (ep, s4) => json.Parsed (ip +:+ fp +:+ ep) s4
               end
             end = json.Parsed ip t).
  { intros ip. destruct t as [|e u]; [cbn; now rewrite string_app_nil_r|].
    destruct e as [[] [] [] [] [] [] [] []]; vm_compute in Ht; try discriminate Ht;
      cbn;
      match goal with
      | |- context [(byte_val ?a =? 101) || (byte_val ?a =? 69)] =>
        let b := eval vm_compute in ((byte_val a =? 101) || (byte_val a =? 69)) in
        change ((byte_val a =? 101) || (byte_val a =? 69)) with b
      end;
      cbn; now rewrite string_app_nil_r. }
  assert (Hpos : json.lex_number (String c (ds +:+ t)) = json.Parsed (String c ds) t).
  { unfold json.lex_number.
    destruct c as [[] [] [] [] [] [] [] []]; vm_compute in Hc; try discriminate Hc;
      cbn [negb is_digit byte_val N_of_ascii N_of_digits Z.of_N Z.leb Z.eqb andb
           Z.compare Pos.compare Pos.compare_cont Pos.eqb N.add N.mul Pos.add Pos.mul];
      first [ rewrite (Hz eq_refl) in *; cbn [append]; apply (Htail (String _ EmptyString))
            | rewrite Hspan; apply (Htail (String _ ds)) ]. }
  destruct sign; [|exact Hpos].
  cbn [append]. unfold json.lex_number.
  change (match String "-" (String c (ds +:+ t)) with
          | String "-" r => ("-", r)
          | _ => (EmptyString, String "-" (String c (ds +:+ t)))
          end) with ("-", String c (ds +:+ t)).
  cbv beta iota zeta.
  unfold json.lex_number in Hpos.
  destruct c as [[] [] [] [] [] [] [] []]; vm_compute in Hc; try discriminate Hc;
    cbn [negb is_digit byte_val N_of_ascii N_of_digits Z.of_N Z.leb Z.eqb andb
         Z.compare Pos.compare Pos.compare_cont Pos.eqb N.add N.mul Pos.add Pos.mul];
      first [ rewrite (Hz eq_refl) in *; cbn [append]; apply (Htail (String "-" (String _ EmptyString)))
            | rewrite Hspan; apply (Htail (String "-" (String _ ds))) ].
Qed.

Ltac eval_byte_tests :=
  repeat match goal with
         | |- context [byte_val (Ascii ?a ?b ?c ?d ?e ?f ?g ?h) =? ?n] =>
           let x := eval vm_compute in (byte_val (Ascii a b c d e f g h) =? n) in
           change (byte_val (Ascii a b c d e f g h) =? n) with x
         | |- context [byte_val (Ascii ?a ?b ?c ?d ?e ?f ?g ?h) <? ?n] =>
           let x := eval vm_compute in (byte_val (Ascii a b c d e f g h) <? n) in
           change (byte_val (Ascii a b c d e f g h) <? n) with x
         | |- context [is_digit (Ascii ?a ?b ?c ?d ?e ?f ?g ?h)] =>
           let x := eval vm_compute in (is_digit (Ascii a b c d e f g h)) in
           change (is_digit (Ascii a b c d e f g h)) with x
         | |- context [json.isSpace (Ascii ?a ?b ?c ?d ?e ?f ?g ?h)] =>
           let x := eval vm_compute in (json.isSpace (Ascii a b c d e f g h)) in
           change (json.isSpace (Ascii a b c d e f g h)) with x
         end.

Lemma lex_number_itoa (z : Z) (t : string) :
  json.number_end t = true -> json.lex_number (itoa z +:+ t) = json.Parsed (itoa z) t.
Proof.
  intros Ht. destruct (itoa_text z) as (c & ds & -> & Hc & Hds & Hz & _).
  rewrite string_app_assoc. cbn [append]. rewrite <- (lex_number_plain (z <? 0) c ds t); auto.
Qed.

(** The text of an integer is read as one number, up to a text that ends
    it. *)
Lemma parse_value_itoa (fuel : nat) (depth z : Z) (t : string) :
  json.number_end t = true ->
  json.parse_value (S fuel) depth (itoa z +:+ t) = json.Parsed (json.JNumber (itoa z)) t.
Proof.
  intros Ht. pose proof (lex_number_itoa z t Ht) as Hlex.
  destruct (itoa_text z) as (c & ds & Hi & Hc & Hds & Hz & _).
  rewrite Hi in Hlex |- *. rewrite string_app_assoc in Hlex |- *.
  destruct (z <? 0).
  - cbn [append] in Hlex |- *. cbn [json.parse_value]. cbv zeta. eval_byte_tests.
    cbn [orb]. cbv iota. now rewrite Hlex.
  - cbn [append] in Hlex |- *. cbn [json.parse_value]. cbv zeta.
    destruct c as [[] [] [] [] [] [] [] []]; vm_compute in Hc; try discriminate Hc;
      eval_byte_tests; cbn [orb]; cbv iota; now rewrite Hlex.
Qed.

Lemma skip_ws_itoa (z : Z) (t : string) : json.skip_ws (itoa z +:+ t) = itoa z +:+ t.
Proof.
  destruct (itoa_text z) as (c & ds & -> & Hc & _).
  destruct (z <? 0); cbn [append json.skip_ws]; [reflexivity|].
  destruct c as [[] [] [] [] [] [] [] []]; vm_compute in Hc; try discriminate Hc; reflexivity.
Qed.

Lemma itoa_not_empty (z : Z) : (1 <= String.length (itoa z))%nat.
Proof.
  destruct (itoa_text z) as (c & ds & -> & _). rewrite string_length_app. simpl. lia.
Qed.

Lemma parse_itoa (z : Z) : json.parse (itoa z) = Some (json.JNumber (itoa z)).
Proof.
  unfold json.parse. rewrite <- (string_app_nil_r (itoa z)) at 1 2 3.
  rewrite skip_ws_itoa.
  pose proof (itoa_not_empty z) as Hlen. rewrite string_app_nil_r.
  replace (2 * String.length (itoa z) + 1)%nat
    with (S (2 * String.length (itoa z)))%nat by lia.
  rewrite <- (string_app_nil_r (itoa z)) at 2.
  now rewrite parse_value_itoa.
Qed.

Lemma read_decimal_itoa (z : Z) : strconv.read_decimal (itoa z) = (z <? 0, Z.abs z, 0).
Proof.
  destruct (itoa_text z) as (c & ds & -> & Hc & Hds & _ & Hv).
  change (strconv.digits_val 0 (String c ds) = Z.abs z) in Hv.
  assert (Hall : all_bytes is_digit (String c ds) = true) by (simpl; now rewrite Hc, Hds).
  pose proof (span_digits_all (String c ds) EmptyString Hall eq_refl) as Hspan.
  rewrite string_app_nil_r in Hspan.
  assert (Hpos : strconv.read_decimal (String c ds) = (false, Z.abs z, 0)).
  { unfold strconv.read_decimal.
    assert (Hs : match String c ds with
                 | String "-" r => (true, r)
                 | String "+" r => (false, r)
                 | _ => (false, String c ds)
                 end = (false, String c ds)).
    { clear - Hc. destruct c as [[] [] [] [] [] [] [] []]; vm_compute in Hc;
                    try discriminate Hc; reflexivity. }
    rewrite Hs, Hspan. cbv beta iota zeta. rewrite string_app_nil_r, Hv. reflexivity. }
  destruct (z <? 0); [|exact Hpos].
  clear Hpos. cbn [append]. unfold strconv.read_decimal.
  change (match String "-" (String c ds) with
          | String "-" r => (true, r)
          | String "+" r => (false, r)
          | _ => (false, String "-" (String c ds))
          end) with (true, String c ds).
  rewrite Hspan. cbv beta iota zeta. rewrite string_app_nil_r, Hv. reflexivity.
Qed.

Lemma ParseFloat_itoa (z : Z) :
  strconv.ParseFloat (itoa z)
  = match f64.of_Z z with S754_infinity _ => None | f => Some f end.
Proof.
  unfold strconv.ParseFloat. rewrite read_decimal_itoa.
  assert (Hr : strconv.round_decimal (z <? 0) (Z.abs z) 0 = f64.of_Z z).
  { unfold strconv.round_decimal.
    destruct z as [|p|p]; [reflexivity| |];
      cbn [Z.abs Z.eqb Z.ltb Z.compare Z.leb];
      match goal with
      | |- context [?a <? - 400] =>
        destruct (a <? - 400) eqn:E; [apply Z.ltb_lt in E; lia|]
      end;
      unfold f64.of_Z, f64.of_Z_exp; cbn [Z.abs Z.eqb];
      rewrite Z.pow_0_r, Z.mul_1_r; reflexivity. }
  now rewrite Hr.
Qed.

Lemma digits2_small (p : positive) : Zpos p < 2 ^ 53 -> (digits2_pos p <= 53)%positive.
Proof.
  intros Hp.
  assert (Hle : (p <= 9007199254740991)%positive)
    by (apply Pos.leb_le; rewrite Pos2Z.inj_leb; apply Z.leb_le; lia).
  exact (digits2_pos_le p 9007199254740991 Hle).
Qed.

(** An integer of less than 54 bits is a float64 exactly: converting it
    there and back gives the integer, and it has no fractional part. *)
Lemma of_Z_small (z : Z) :
  Z.abs z < 2 ^ 53 ->
  f64.to_int64 (f64.of_Z z) = z
  /\ math.Modf (f64.of_Z z) = (f64.of_Z z, S754_zero (z <? 0))
  /\ f64.is_finite (f64.of_Z z) = true.
Proof.
  intros Hz.
  assert (Hmain : forall (s : bool) (p : positive),
             Zpos p < 2 ^ 53 ->
             let f := binary_round f64.prec f64.emax s p 0 in
             f64.to_int64 f = (if s then Zneg p else Zpos p)
             /\ math.Modf f = (f, S754_zero s) /\ f64.is_finite f = true).
  { intros s p Hp f. pose proof (digits2_small p Hp) as Hd.
    destruct (binary_round_exact s p 0) as (m' & Hr & Hm');
      [unfold fexp, emin, f64.prec, f64.emax; lia
      |unfold fexp, emin, f64.prec, f64.emax; lia|].
    set (e' := fexp f64.prec f64.emax (Zpos (digits2_pos p) + 0)) in *.
    assert (He' : e' <= 0) by (unfold e', fexp, emin, f64.prec, f64.emax; lia).
    assert (Hf : f = S754_finite s m' e') by exact Hr.
    destruct e' as [|q|q] eqn:Heq; try lia.
    - rewrite Hf. assert (Hm : m' = p) by lia. subst m'. repeat split.
      unfold f64.to_int64. rewrite trunc_nonneg_exp by lia.
      cbn [f64.is_finite andb]. rewrite Z.pow_0_r, Z.mul_1_r.
      destruct s.
      + replace (- 2 ^ 63 <=? - Zpos p) with true by (symmetry; apply Z.leb_le; lia).
        replace (- Zpos p <? 2 ^ 63) with true by (symmetry; apply Z.ltb_lt; lia).
        reflexivity.
      + replace (- 2 ^ 63 <=? Zpos p) with true by (symmetry; apply Z.leb_le; lia).
        replace (Zpos p <? 2 ^ 63) with true by (symmetry; apply Z.ltb_lt; lia).
        reflexivity.
    - replace (0 - Zneg q) with (Zpos q) in Hm' by lia.
      assert (Hpow : 0 < 2 ^ Zpos q) by (apply Z.pow_pos_nonneg; lia).
      assert (Hdiv : Zpos m' / 2 ^ Zpos q = Zpos p) by (rewrite Hm'; apply Z.div_mul; lia).
      assert (Hmod : Zpos m' mod 2 ^ Zpos q = 0) by (rewrite Hm'; apply Z.mod_mul; lia).
      repeat split.
      + rewrite Hf. unfold f64.to_int64. rewrite trunc_neg_exp, Hdiv.
        cbn [f64.is_finite andb].
        destruct s.
        * replace (- 2 ^ 63 <=? - Zpos p) with true by (symmetry; apply Z.leb_le; lia).
          replace (- Zpos p <? 2 ^ 63) with true by (symmetry; apply Z.ltb_lt; lia).
          reflexivity.
        * replace (- 2 ^ 63 <=? Zpos p) with true by (symmetry; apply Z.leb_le; lia).
          replace (Zpos p <? 2 ^ 63) with true by (symmetry; apply Z.ltb_lt; lia).
          reflexivity.
      + rewrite Hf at 1. unfold math.Modf.
        rewrite Z.shiftr_div_pow2, Z.land_ones, Hdiv, Hmod by lia.
        cbn [Z.eqb]. f_equal. unfold f. destruct s; reflexivity.
      + now rewrite Hf. }
  destruct z as [|p|p].
  - repeat split.
  - exact (Hmain false p Hz).
  - exact (Hmain true p Hz).
Qed.

Lemma convertNumber_itoa (z : Z) :
  Z.abs z < 2 ^ 53 -> json.convertNumber (itoa z) = inr (f64.of_Z z).
Proof.
  intros Hz. unfold json.convertNumber. rewrite ParseFloat_itoa.
  destruct (of_Z_small z Hz) as (_ & _ & Hfin).
  destruct (f64.of_Z z); try reflexivity; discriminate Hfin.
Qed.


(** ** The data model (types.go) *)

(** A timestamp written without a fraction, as an integer of less than
    54 bits, decodes to exactly that second, with no nanoseconds. *)
Theorem Timestamp_whole_seconds (z : Z) :
  Z.abs z < 2 ^ 53 ->
  Timestamp_UnmarshalJSON (itoa z) = Ok {| Time := {| time.sec := z; time.nsec := 0 |} |}.
Proof.
  intros Hz. unfold Timestamp_UnmarshalJSON, json.Unmarshal_float64.
  rewrite parse_itoa, (convertNumber_itoa z Hz).
  destruct (of_Z_small z Hz) as (Hint & Hmodf & _).
  rewrite Hmodf, Hint.
  assert (Hn : f64.to_int64 (f64.mul (S754_zero (z <? 0)) (f64.of_Z 1000000000)) = 0)
    by (destruct (z <? 0); reflexivity).
  rewrite Hn. reflexivity.
Qed.

Lemma Timestamp_whole_seconds_witness :
  Timestamp_UnmarshalJSON "1609459200"
  = Ok {| Time := {| time.sec := 1609459200; time.nsec := 0 |} |}.
Proof. apply (Timestamp_whole_seconds 1609459200). reflexivity. Defined.

(** What is not a number.  A timestamp that is [null] is not an error and
    not the zero time: it decodes to the Unix epoch.  Any other text is
    refused with the error of [json.Unmarshal]: a text that is not JSON, a
    JSON value of another kind, and a number too large for a float64. *)
Theorem Timestamp_not_a_number (b : string) :
  (json.parse b = Some json.JNull ->
   Timestamp_UnmarshalJSON b = Ok {| Time := {| time.sec := 0; time.nsec := 0 |} |})
  /\ (json.parse b = None -> Timestamp_UnmarshalJSON b = Err (json_error json.SyntaxError))
  /\ (forall v, json.parse b = Some v ->
                match v with json.JNull | json.JNumber _ => False | _ => True end ->
                Timestamp_UnmarshalJSON b
                = Err (json_error (json.UnmarshalTypeError (json.kind_of v) "float64")))
  /\ (forall lit, json.parse b = Some (json.JNumber lit) ->
                  strconv.ParseFloat lit = None ->
                  Timestamp_UnmarshalJSON b
                  = Err (json_error (json.UnmarshalTypeError ("number " +:+ lit) "float64"))).
Proof.
  unfold Timestamp_UnmarshalJSON, json.Unmarshal_float64.
  split; [|split; [|split]].
  - now intros ->.
  - now intros ->.
  - intros v -> Hv. destruct v; try contradiction; reflexivity.
  - intros lit -> Hp. unfold json.convertNumber. now rewrite Hp.
Qed.

Lemma Timestamp_not_a_number_witness :
  Timestamp_UnmarshalJSON " null " = Ok {| Time := {| time.sec := 0; time.nsec := 0 |} |}
  /\ Timestamp_UnmarshalJSON (json_text "'2021-01-01'")
     = Err (json_error (json.UnmarshalTypeError "string" "float64"))
  /\ Timestamp_UnmarshalJSON "1e999"
     = Err (json_error (json.UnmarshalTypeError "number 1e999" "float64")).
Proof.
  split; [|split].
  - apply (proj1 (Timestamp_not_a_number " null ")). reflexivity.
  - apply (proj1 (proj2 (proj2 (Timestamp_not_a_number (json_text "'2021-01-01'"))))
                 (json.JString "2021-01-01")); [reflexivity|exact I].
  - apply (proj2 (proj2 (proj2 (Timestamp_not_a_number "1e999"))) "1e999"); reflexivity.
Defined.

Lemma open_bracket_itoa (fuel : nat) (z : Z) (rest : string) :
  json.parse_value (S fuel) 0 (String "[" (itoa z +:+ rest))
  = json.parse_elements fuel 1 (itoa z +:+ rest) [].
Proof.
  cbn [json.parse_value]. cbv zeta. eval_byte_tests. cbv iota.
  change (json.maxNestingDepth <? 0 + 1) with false. cbv iota.
  rewrite skip_ws_itoa.
  destruct (itoa_text z) as (c & ds & -> & Hc & _).
  destruct (z <? 0); cbn [append]; [reflexivity|].
  destruct c as [[] [] [] [] [] [] [] []]; vm_compute in Hc; try discriminate Hc; reflexivity.
Qed.

Lemma parse_placement_wide (fuel : nat) (c r : Z) (l : string) (b : bool) :
  utf8.ValidString l = true ->
  json.parse_value (6 + fuel) 0 (placement_text c r l b)
  = json.Parsed (json.JArray [json.JNumber (itoa c); json.JNumber (itoa r);
                              json.JString l; json.JBool b]) EmptyString.
Proof.
  intros Hl. unfold placement_text. cbn [Nat.add].
  rewrite open_bracket_itoa.
  rewrite (parse_elements_comma _ _ _ _ _ _ (parse_value_itoa _ 1 c (String "," _) eq_refl)).
  change (json.skip_ws (itoa r +:+ ?x)) with (json.skip_ws (itoa r +:+ x)).
  rewrite skip_ws_itoa.
  rewrite (parse_elements_comma _ _ _ _ _ _ (parse_value_itoa _ 1 r (String "," _) eq_refl)).
  change (json.skip_ws (json.appendString l +:+ ?x)) with (json.appendString l +:+ x).
  rewrite (parse_elements_comma _ _ _ _ _ _ (parse_value_string _ 1 l _ Hl)).
  replace (json.skip_ws (json.marshal_bool b +:+ "]")) with (json.marshal_bool b +:+ "]")
    by (destruct b; reflexivity).
  rewrite (parse_elements_close _ _ _ _ _ _ (parse_value_bool _ 1 b)).
  reflexivity.
Qed.

Lemma parse_placement_text_wide (c r : Z) (l : string) (b : bool) :
  utf8.ValidString l = true ->
  json.parse (placement_text c r l b)
  = Some (json.JArray [json.JNumber (itoa c); json.JNumber (itoa r);
                       json.JString l; json.JBool b]).
Proof.
  intros Hl. unfold json.parse.
  assert (Hskip : json.skip_ws (placement_text c r l b) = placement_text c r l b)
    by reflexivity.
  rewrite Hskip.
  assert (Hlen : (3 <= String.length (placement_text c r l b))%nat).
  { unfold placement_text. cbn [String.length]. rewrite string_length_app.
    cbn [String.length]. rewrite string_length_app. cbn [String.length]. lia. }
  replace (2 * String.length (placement_text c r l b) + 1)%nat
    with (6 + (2 * String.length (placement_text c r l b) - 5))%nat by lia.
  rewrite (parse_placement_wide _ c r l b Hl). reflexivity.
Qed.

(** The round trip of a placement through its array and JSON holds far
    beyond the board: for every column and row of less than 54 bits,
    negative ones included, and every letter that is valid UTF-8.  The
    bound is that of float64, through which the decoder reads the two
    numbers: the column 2^53 + 1 comes back as 2^53. *)
Theorem Placement_roundtrip_wide (c r : Z) (l : string) (b : bool) :
  Z.abs c < 2 ^ 53 -> Z.abs r < 2 ^ 53 -> utf8.ValidString l = true ->
  exists js, Marshal_array4_any (Placement_Array (Place c r l b)) = inr js
             /\ Placement_UnmarshalJSON js = Ok (Place c r l b).
Proof.
  intros Hc Hr Hl. exists (placement_text c r l b). split; [apply Marshal_placement|].
  unfold Placement_UnmarshalJSON, json.Unmarshal_array4_any.
  rewrite (parse_placement_text_wide c r l b Hl).
  unfold json.elem_any. cbn [nth_error json.to_any].
  rewrite (convertNumber_itoa c Hc), (convertNumber_itoa r Hr).
  cbn [assert_float64 assert_string assert_bool].
  destruct (of_Z_small c Hc) as (-> & _). destruct (of_Z_small r Hr) as (-> & _).
  reflexivity.
Qed.

Lemma Placement_roundtrip_wide_witness :
  exists js, Marshal_array4_any (Placement_Array (Place (-3) 4096 "Z" true)) = inr js
             /\ Placement_UnmarshalJSON js = Ok (Place (-3) 4096 "Z" true).
Proof.
  apply (Placement_roundtrip_wide (-3) 4096 "Z" true).
  - reflexivity.
  - reflexivity.
  - vm_compute. reflexivity.
Defined.

Example Placement_roundtrip_bound :
  Placement_UnmarshalJSON (placement_text 9007199254740993 0 "A" false)
  = Ok (Place 9007199254740992 0 "A" false).
Proof. vm_compute. reflexivity. Qed.

Lemma to_any_array_slice (l : list json.value) (x : any) :
  json.to_any (json.JArray l) = inr x -> exists s, x = a_slice s.
Proof.
  cbn [json.to_any].
  match goal with
  | |- ?f l [] = _ -> _ =>
    assert (Hgen : forall acc, f l acc = inr x -> exists s, x = a_slice s)
  end; [|exact (Hgen [])].
  induction l as [|v l IH]; intros acc H.
  - injection H as <-. now exists acc.
  - destruct (json.to_any v) as [e|a]; [discriminate H|]. exact (IH _ H).
Qed.

Lemma to_any_object_map (ms : list (string * string * json.value)) (x : any) :
  json.to_any (json.JObject ms) = inr x -> exists m, x = a_map m.
Proof.
  cbn [json.to_any].
  match goal with
  | |- ?f ms [] = _ -> _ =>
    assert (Hgen : forall acc, f ms acc = inr x -> exists m, x = a_map m)
  end; [|exact (Hgen [])].
  induction ms as [|[[k raw] v] ms IH]; intros acc H.
  - injection H as <-. now exists acc.
  - destruct (json.to_any v) as [e|a]; [discriminate H|]. exact (IH _ H).
Qed.

Lemma to_any_float64 (v : json.value) (f : float64) :
  json.to_any v = inr (a_float64 f) ->
  exists lit, v = json.JNumber lit /\ strconv.ParseFloat lit = Some f.
Proof.
  destruct v as [|b|lit|s|l|ms]; try discriminate.
  - cbn [json.to_any]. unfold json.convertNumber.
    destruct (strconv.ParseFloat lit) as [g|] eqn:Hp; [|discriminate].
    intros H. injection H as <-. now exists lit.
  - intros H. apply to_any_array_slice in H as (s & Hs). discriminate Hs.
  - intros H. apply to_any_object_map in H as (m & Hm). discriminate Hm.
Qed.

Lemma to_any_string (v : json.value) (s : string) :
  json.to_any v = inr (a_string s) -> v = json.JString s.
Proof.
  destruct v as [|b|lit|s'|l|ms]; try discriminate.
  - cbn [json.to_any]. destruct (json.convertNumber lit); discriminate.
  - intros H. now injection H as ->.
  - intros H. apply to_any_array_slice in H as (x & Hx). discriminate Hx.
  - intros H. apply to_any_object_map in H as (m & Hm). discriminate Hm.
Qed.

Lemma to_any_bool (v : json.value) (b : bool) :
  json.to_any v = inr (a_bool b) -> v = json.JBool b.
Proof.
  destruct v as [|b'|lit|s'|l|ms]; try discriminate.
  - intros H. now injection H as ->.
  - cbn [json.to_any]. destruct (json.convertNumber lit); discriminate.
  - intros H. apply to_any_array_slice in H as (x & Hx). discriminate Hx.
  - intros H. apply to_any_object_map in H as (m & Hm). discriminate Hm.
Qed.

Lemma elem_any_inv (l : list json.value) (i : nat) (a : any) :
  json.elem_any l i = inr a -> a <> a_nil ->
  exists v, nth_error l i = Some v /\ json.to_any v = inr a.
Proof.
  unfold json.elem_any. destruct (nth_error l i) as [v|].
  - intros H _. now exists v.
  - intros H Hn. injection H as <-. contradiction.
Qed.

(** [Placement.UnmarshalJSON] succeeds on exactly the texts that are a
    JSON array whose first four elements are a number, a number, a string
    and a boolean, the numbers within the range of float64; elements
    behind the fourth are ignored.  Column and row are the two numbers
    with their fraction cut off. *)
Theorem Placement_UnmarshalJSON_ok_iff (b : string) (p : Placement) :
  Placement_UnmarshalJSON b = Ok p
  <-> exists (n0 n1 : string) (f0 f1 : float64) (more : list json.value),
      json.parse b
      = Some (json.JArray (json.JNumber n0 :: json.JNumber n1 :: json.JString (Letter p)
                             :: json.JBool (Blank p) :: more))
      /\ strconv.ParseFloat n0 = Some f0 /\ strconv.ParseFloat n1 = Some f1
      /\ Column p = f64.to_int64 f0 /\ Row p = f64.to_int64 f1.
Proof.
  split.
  - unfold Placement_UnmarshalJSON.
    destruct (json.Unmarshal_array4_any b) as [e|[[[a0 a1] a2] a3]] eqn:Hu; [discriminate|].
    destruct a0 as [| |f0| | | |]; try discriminate.
    destruct a1 as [| |f1| | | |]; try discriminate.
    destruct a2 as [| | |s| | |]; try discriminate.
    destruct a3 as [|bl| | | | |]; try discriminate.
    cbn [assert_float64 assert_string assert_bool]. intros H. injection H as <-.
    unfold json.Unmarshal_array4_any in Hu.
    destruct (json.parse b) as [[|x|x|x|l|x]|]; try discriminate Hu.
    destruct (json.elem_any l 0) as [e|a0] eqn:H0; [discriminate Hu|].
    destruct (json.elem_any l 1) as [e|a1] eqn:H1; [discriminate Hu|].
    destruct (json.elem_any l 2) as [e|a2] eqn:H2; [discriminate Hu|].
    destruct (json.elem_any l 3) as [e|a3] eqn:H3; [discriminate Hu|].
    injection Hu as -> -> -> ->.
    apply elem_any_inv in H0 as (v0 & Hn0 & Ha0); [|discriminate].
    apply elem_any_inv in H1 as (v1 & Hn1 & Ha1); [|discriminate].
    apply elem_any_inv in H2 as (v2 & Hn2 & Ha2); [|discriminate].
    apply elem_any_inv in H3 as (v3 & Hn3 & Ha3); [|discriminate].
    apply to_any_float64 in Ha0 as (n0 & -> & Hp0).
    apply to_any_float64 in Ha1 as (n1 & -> & Hp1).
    apply to_any_string in Ha2 as ->. apply to_any_bool in Ha3 as ->.
    destruct l as [|x0 [|x1 [|x2 [|x3 more]]]]; try discriminate.
    cbn in Hn0, Hn1, Hn2, Hn3.
    injection Hn0 as ->. injection Hn1 as ->. injection Hn2 as ->. injection Hn3 as ->.
    exists n0, n1, f0, f1, more. now repeat split.
  - intros (n0 & n1 & f0 & f1 & more & Hp & H0 & H1 & Hc & Hr).
    unfold Placement_UnmarshalJSON, json.Unmarshal_array4_any. rewrite Hp.
    unfold json.elem_any. cbn [nth_error json.to_any]. unfold json.convertNumber.
    rewrite H0, H1. cbn [assert_float64 assert_string assert_bool].
    rewrite <- Hc, <- Hr. now destruct p.
Qed.

(** What [Placement.UnmarshalJSON] does with the other texts: a text that
    is not JSON, and a JSON value that is neither an array nor [null],
    give the error of [json.Unmarshal]; [null] and the empty array decode
    without error into four nil elements, and the first type assertion
    panics. *)
Theorem Placement_UnmarshalJSON_failures (b : string) :
  (json.parse b = None -> Placement_UnmarshalJSON b = Err (json_error json.SyntaxError))
  /\ (forall v, json.parse b = Some v ->
                match v with json.JNull | json.JArray _ => False | _ => True end ->
                Placement_UnmarshalJSON b
                = Err (json_error (json.UnmarshalTypeError (json.kind_of v) "[4]interface {}")))
  /\ (json.parse b = Some json.JNull \/ json.parse b = Some (json.JArray []) ->
      Placement_UnmarshalJSON b = Panic (InterfaceConversion a_nil "float64")).
Proof.
  unfold Placement_UnmarshalJSON, json.Unmarshal_array4_any. repeat split.
  - now intros ->.
  - intros v -> Hv. destruct v; try contradiction; reflexivity.
  - intros [-> | ->]; reflexivity.
Qed.

Lemma Placement_UnmarshalJSON_failures_witness :
  Placement_UnmarshalJSON (json_text "{'column':7}")
  = Err (json_error (json.UnmarshalTypeError "object" "[4]interface {}"))
  /\ Placement_UnmarshalJSON "[]" = Panic (InterfaceConversion a_nil "float64").
Proof.
  split.
  - apply (proj1 (proj2 (Placement_UnmarshalJSON_failures (json_text "{'column':7}")))
                 (json.JObject [("column", "7", json.JNumber "7")])); [reflexivity|exact I].
  - apply (proj2 (proj2 (Placement_UnmarshalJSON_failures "[]"))). now right.
Defined.

(** [uniqueSquares] holds for exactly the moves whose squares are
    pairwise distinct and none of which is column 0, row 0: the slice the
    squares seen are appended to starts with one zero square for every
    placement. *)
Theorem uniqueSquares_exact (placements : list Placement) :
  uniqueSquares placements = true
  <-> NoDup (map square placements)
      /\ forall pl, elem_of pl placements -> square pl <> (0, 0).
Proof. exact (uniqueSquares_spec placements). Qed.


(** ** The endpoints (api.go) *)

Lemma request_sent `{NewRequestError} (c : Client) (method path : string)
      (session : SessionID) (body : option string) (w : list http.Request) :
  sent_only (new_request c method path session body) w
            (snd (request c method path session body w)).
Proof.
  unfold request, sent_only.
  destruct (NewRequest_error method (request_url c path)); [now left|].
  destruct (cl c _); now right.
Qed.

Lemma roundtrip_sent {B C : Type} `{NewRequestError} `{Marshaler B} `{Unmarshaler C}
      (c : Client) (method path : string) (session : SessionID) (body : option B)
      (b : option string) (w : list http.Request) :
  marshalled body b ->
  sent_only (new_request c method path session b) w
            (snd (roundtrip (C := C) c method path session body w)).
Proof.
  intros Hb. pose proof (request_sent c method path session b w) as Hs.
  unfold roundtrip, bind.
  assert (Hpre : match body with
                 | None => ret None
                 | Some v =>
                   match Marshal v with
                   | inl e => fail (errorf_v "marshalling request body: " (json_error e))
                   | inr bs => ret (Some bs)
                   end
                 end w = (Ok b, w)).
  { destruct body as [v|]; simpl in Hb.
    - destruct Hb as (bs & Hm & ->). now rewrite Hm.
    - now subst b. }
  rewrite Hpre.
  destruct (request c method path session b w) as [[res|e|p] w']; cbn [snd] in Hs |- *;
    try exact Hs.
  destruct (Content res) as [content|]; [|exact Hs].
  destruct (Unmarshal content); exact Hs.
Qed.

Lemma bind_ret_snd {A B : Type} (m : M A) (f : A -> B) (w : list http.Request) :
  snd ((x <- m ;; ret (f x)) w) = snd (m w).
Proof. unfold bind, ret. now destruct (m w) as [[a|e|p] w']. Qed.

Lemma bind_ret_fst_err {A B : Type} (m : M A) (f : A -> B) (w : list http.Request)
      (e : error) :
  fst (m w) = Err e -> fst ((x <- m ;; ret (f x)) w) = Err e.
Proof. unfold bind, ret. destruct (m w) as [[a|e'|p] w']; simpl; congruence. Qed.

Section Endpoints.

Context `{NewRequestError}.
Context {Relationship Game_ Invitation Message Grid MoveResult : Type}.
Context `{Unmarshaler (RelationshipsResult Relationship)} `{Unmarshaler Relationship}
        `{Unmarshaler (GamesResult Game_)} `{Unmarshaler (GameResult Game_)}
        `{Unmarshaler (InvitationResult Invitation)} `{Unmarshaler AcceptResult}
        `{Unmarshaler MoveResult} `{Unmarshaler (MessagesResult Message)}
        `{Unmarshaler SentResult} `{Unmarshaler (BoardResult Grid)}
        `{Unmarshaler AvatarResult}.

(** The endpoints that send no body: each call makes at most one request,
    of the method and to the path given here, with the session's cookie
    (none for [Board]), no [Content-Type] and an empty body. *)
Theorem endpoints_without_body (c : Client) (session : SessionID) (id : Z)
        (w : list http.Request) :
  sent_only (new_request c "GET" "/user/relationships" session None) w
            (snd (Relationships (Relationship := Relationship) c session w))
  /\ sent_only (new_request c "POST" ("/relationship/" +:+ itoa id +:+ "/delete") session None)
               w (snd (DeleteRelationship c session id w))
  /\ sent_only (new_request c "GET" "/user/games" session None) w
               (snd (Games (Game := Game_) c session w))
  /\ sent_only (new_request c "GET" ("/game/" +:+ itoa id) session None) w
               (snd (Game (Game := Game_) c session id w))
  /\ sent_only (new_request c "POST" ("/invite/" +:+ itoa id +:+ "/accept") session None) w
               (snd (AcceptInvitation c session id w))
  /\ sent_only (new_request c "POST" ("/invite/" +:+ itoa id +:+ "/reject") session None) w
               (snd (RejectInvitation c session id w))
  /\ sent_only (new_request c "POST" ("/game/" +:+ itoa id +:+ "/pass") session None) w
               (snd (Pass (MoveResult := MoveResult) c session id w))
  /\ sent_only (new_request c "POST" ("/game/" +:+ itoa id +:+ "/resign") session None) w
               (snd (Resign (MoveResult := MoveResult) c session id w))
  /\ sent_only (new_request c "GET" ("/user/" +:+ itoa id +:+ "/chat") session None) w
               (snd (ChatMessages (Message := Message) c session id w))
  /\ sent_only (new_request c "GET" ("/board/" +:+ itoa id) EmptyString None) w
               (snd (Board (Grid := Grid) c id w)).
Proof.
  unfold Relationships, DeleteRelationship, Games, Game, AcceptInvitation, RejectInvitation,
    Pass, Resign, ChatMessages, Board.
  rewrite ?bind_ret_snd.
  repeat split;
    first [ apply request_sent
          | apply (roundtrip_sent (B := NoBody)); reflexivity
          | apply (roundtrip_sent (B := MoveBody)); reflexivity ].
Qed.

Lemma BoardID_String_plain (board : Z) :
  json.appendString (BoardID_String board) = quoted (BoardID_String board).
Proof.
  unfold BoardID_String.
  destruct (board =? BoardNormal); [reflexivity|].
  destruct (board =? BoardRandom); reflexivity.
Qed.

(** The endpoints that send a body, other than the four that send a
    password, [Move] and [UpdateAvatar]: each call makes at most one
    request, a POST with the session's cookie whose body is the JSON
    object given here.  A board is sent by its name. *)
Theorem endpoints_with_body (c : Client) (session : SessionID) (id ruleset board : Z)
        (text : string) (w : list http.Request) :
  sent_only (new_request c "POST" "/relationship/create" session
               (Some (json.marshal_object [ ("id", itoa id); ("type", "0") ])))
            w (snd (CreateRelationship (Relationship := Relationship) c session id w))
  /\ sent_only (new_request c "POST" "/invite/new" session
                  (Some (json.marshal_object
                           [ ("invitee", json.appendString text);
                             ("ruleset", itoa ruleset);
                             ("board_type", quoted (BoardID_String board)) ])))
               w (snd (Invite (Invitation := Invitation) c session text ruleset board w))
  /\ sent_only (new_request c "POST" "random_request/create" session
                  (Some (json.marshal_object
                           [ ("ruleset", itoa ruleset);
                             ("board_type", quoted (BoardID_String board)) ])))
               w (snd (InviteRandomOpponent (Invitation := Invitation) c session ruleset
                                            board w))
  /\ sent_only (new_request c "POST" ("/game/" +:+ itoa id +:+ "/chat/send") session
                  (Some (json.marshal_object [ ("message", json.appendString text) ])))
               w (snd (SendChatMessage c session id text w)).
Proof.
  unfold CreateRelationship, Invite, InviteRandomOpponent, SendChatMessage.
  rewrite ?bind_ret_snd. rewrite <- !BoardID_String_plain.
  repeat split; eapply roundtrip_sent; simpl; eexists; split; reflexivity.
Qed.

End Endpoints.

(** [BoardID.String] names the two boards and gives the empty text for
    every other id, so an invitation for an unknown board is sent with an
    empty [board_type]. *)
Theorem BoardID_String_names (board : Z) :
  (BoardID_String board = "normal" <-> board = 0)
  /\ (BoardID_String board = "random" <-> board = 1)
  /\ (BoardID_String board = EmptyString <-> board <> 0 /\ board <> 1).
Proof.
  unfold BoardID_String, BoardNormal, BoardRandom.
  destruct (Z.eqb_spec board 0) as [->|Hn]; [repeat split; try discriminate; lia|].
  destruct (Z.eqb_spec board 1) as [->|Hr]; repeat split; try discriminate; try lia;
    intros; try lia; reflexivity.
Qed.


Lemma marshal_all_placements (move : list Placement) :
  marshal_all (map Placement_Array move)
  = inr (map (fun p => placement_text (Column p) (Row p) (Letter p) (Blank p)) move).
Proof.
  induction move as [|p move IH]; [reflexivity|].
  cbn [map marshal_all]. destruct p as [c r l b].
  change {| Column := c; Row := r; Letter := l; Blank := b |} with (Place c r l b).
  rewrite Marshal_placement, IH. reflexivity.
Qed.

(** [Move] checks the squares before anything else: a move that
    [uniqueSquares] refuses fails with [ErrIllegalMove] and nothing is
    sent.  Otherwise at most one request is made, a POST to the game's
    [move] path whose body holds the placements in order, each as the
    array of column, row, letter and blank flag; for the empty move the
    body is an object whose [move] is [null]. *)
Theorem Move_wire {MoveResult : Type} `{NewRequestError} `{Unmarshaler MoveResult}
        (c : Client) (session : SessionID) (game : Z) (move : list Placement)
        (w : list http.Request) :
  (uniqueSquares move = false ->
   Move (MoveResult := MoveResult) c session game move w = (Err (sentinel ErrIllegalMove), w))
  /\ (uniqueSquares move = true ->
      sent_only
        (new_request c "POST" ("/game/" +:+ itoa game +:+ "/move") session
           (Some (json.marshal_object
                    [ ("move",
                       match move with
                       | [] => "null"
                       | _ => json.marshal_array
                                (map (fun p => placement_text (Column p) (Row p) (Letter p)
                                                              (Blank p)) move)
                       end) ])))
        w (snd (Move (MoveResult := MoveResult) c session game move w))).
Proof.
  split.
  - apply Move_refused.
  - intros Hu. rewrite (Move_accepted c session game move Hu).
    eapply roundtrip_sent. simpl. eexists. split; [|reflexivity].
    unfold Marshal, Marshal_MoveBody. cbn [mb_Move].
    destruct move as [|p move]; [reflexivity|].
    pose proof (marshal_all_placements (p :: move)) as Hall.
    cbn [map] in Hall |- *. now rewrite Hall.
Qed.

Lemma Move_wire_witness :
  let c := {| cl := fun _ => inl "offline"; baseURL := "https://game.wordfeud.com/wf" |} in
  snd (@Move unit (fun _ _ => None) (fun _ => Ok tt) c "s" 42
             [Place 7 5 "H" false; Place 7 6 "I" true] [])
  = [ {| http.Method := "POST";
         http.URL := "https://game.wordfeud.com/wf/game/42/move/";
         http.ReqHeader := [ ("Accept", "application/json");
                             ("Content-Type", "application/json");
                             ("Cookie", "sessionid=s") ];
         http.ReqBody := json_text "{'move':[[7,5,'H',false],[7,6,'I',true]]}" |} ].
Proof.
  intros c.
  destruct (proj2 (@Move_wire unit (fun _ _ => None) (fun _ => Ok tt) c "s" 42
                              [Place 7 5 "H" false; Place 7 6 "I" true] []) eq_refl)
    as [Hnone|Hone].
  - vm_compute in Hnone. discriminate Hnone.
  - rewrite Hone. vm_compute. reflexivity.
Defined.

(** *** [UpdateAvatar] and base64 *)

Lemma quote_body_safe (s : string) :
  all_bytes (fun c => json.htmlSafe (byte_val c)) s = true ->
  forall fuel, (String.length s <= fuel)%nat -> json.quote_body fuel s = s.
Proof.
  induction s as [|c s IH]; intros Hs fuel Hf; [now destruct fuel|].
  simpl in Hs. apply andb_true_iff in Hs as [Hc Hs].
  destruct fuel as [|fuel]; [simpl in Hf; lia|].
  cbn [json.quote_body]. cbv zeta.
  assert (Hlt : (byte_val c <? utf8.RuneSelf) = true).
  { unfold json.htmlSafe in Hc. apply andb_true_iff in Hc as [Hc _].
    apply andb_true_iff in Hc as [_ Hc]. exact Hc. }
  rewrite Hlt, Hc, IH; [reflexivity|exact Hs|simpl in Hf; lia].
Qed.

Lemma sextet_safe (val k : Z) : json.htmlSafe (byte_val (base64.sextet val k)) = true.
Proof.
  unfold base64.sextet. generalize (Z.to_nat (Z.land (Z.shiftr val k) 63)). intros n.
  do 65 (destruct n as [|n]; [reflexivity|]). reflexivity.
Qed.

Lemma base64_ind (P : string -> Prop) :
  P EmptyString ->
  (forall a, P (String a EmptyString)) ->
  (forall a b, P (String a (String b EmptyString))) ->
  (forall a b c r, P r -> P (String a (String b (String c r)))) ->
  forall s, P s.
Proof.
  intros H0 H1 H2 H3.
  assert (Hall : forall s, P s /\ (forall a, P (String a s))
                           /\ forall a b, P (String a (String b s))).
  { induction s as [|c s (IHa & IHb & IHc)].
    - repeat split; auto.
    - repeat split; auto. }
  intros s. apply Hall.
Qed.

Lemma base64_safe (src : string) :
  all_bytes (fun c => json.htmlSafe (byte_val c)) (base64.EncodeToString src) = true.
Proof.
  induction src as [|a|a b|a b c r IH] using base64_ind;
    cbn [base64.EncodeToString all_bytes]; cbv zeta;
    rewrite ?sextet_safe; try rewrite IH; reflexivity.
Qed.

Lemma base64_length (src : string) :
  String.length (base64.EncodeToString src) = (4 * ((String.length src + 2) / 3))%nat.
Proof.
  induction src as [|a|a b|a b c r IH] using base64_ind; try reflexivity.
  cbn [base64.EncodeToString String.length]. cbv zeta. cbn [String.length]. rewrite IH.
  replace (S (S (S (String.length r))) + 2)%nat with ((String.length r + 2) + 1 * 3)%nat by lia.
  rewrite Nat.div_add by lia. lia.
Qed.

(** The image of [UpdateAvatar] is sent as standard base64 with padding,
    four bytes for every three of the image or part of three, inside a
    JSON string that needs no escape.  When the image cannot be read,
    the call fails and nothing is sent. *)
Theorem UpdateAvatar_wire `{NewRequestError} `{Unmarshaler AvatarResult}
        (c : Client) (session : SessionID) (image : io.Reader) (w : list http.Request) :
  (forall msg, io.err image = Some msg ->
               UpdateAvatar c session image w = (Err (errorf ("reading image: " +:+ msg)), w))
  /\ (io.err image = None ->
      sent_only
        (new_request c "POST" "/user/avatar/upload" session
           (Some (json.marshal_object
                    [ ("image_data", quoted (base64.EncodeToString (io.data image))) ])))
        w (snd (UpdateAvatar c session image w)))
  /\ String.length (base64.EncodeToString (io.data image))
     = (4 * ((String.length (io.data image) + 2) / 3))%nat.
Proof.
  repeat split.
  - intros msg Hm. unfold UpdateAvatar. now rewrite Hm.
  - intros Hn. unfold UpdateAvatar. rewrite Hn, bind_ret_snd.
    eapply roundtrip_sent. simpl. eexists. split; [|reflexivity].
    unfold Marshal, Marshal_AvatarBody. cbn [av_ImageData]. unfold json.appendString.
    rewrite quote_body_safe; [reflexivity|apply base64_safe|lia].
  - apply base64_length.
Qed.

Lemma UpdateAvatar_wire_witness :
  let c := {| cl := fun _ => inl "offline"; baseURL := "http://h" |} in
  snd (@UpdateAvatar (fun _ _ => None) (fun _ => Err (errorf "unused")) c "s"
                     {| io.data := "foobar!"; io.err := None |} [])
  = [ new_request c "POST" "/user/avatar/upload" "s"
                  (Some (json_text "{'image_data':'Zm9vYmFyIQ=='}")) ].
Proof.
  intros c.
  destruct (proj1 (proj2 (@UpdateAvatar_wire (fun _ _ => None) (fun _ => Err (errorf "unused"))
                                             c "s" {| io.data := "foobar!"; io.err := None |}
                                             [])) eq_refl) as [Hnone|Hone].
  - vm_compute in Hnone. discriminate Hnone.
  - rewrite Hone. vm_compute. reflexivity.
Defined.

Example base64_vectors :
  base64.EncodeToString EmptyString = EmptyString
  /\ base64.EncodeToString "f" = "Zg=="
  /\ base64.EncodeToString "fo" = "Zm8="
  /\ base64.EncodeToString "foo" = "Zm9v"
  /\ base64.EncodeToString "foobar" = "Zm9vYmFy"
  /\ base64.EncodeToString (String "255" (String "239" (String "190" EmptyString))) = "/+++".
Proof. repeat split; vm_compute; reflexivity. Qed.

(** *** The URLs of the endpoints *)











(** *** A success without a body *)

Section EmptyResponse.

Context `{NewRequestError}.
Context {Relationship Game_ Invitation Message Grid MoveResult : Type}.
Context `{Unmarshaler (RelationshipsResult Relationship)} `{Unmarshaler Relationship}
        `{Unmarshaler (GamesResult Game_)} `{Unmarshaler (GameResult Game_)}
        `{Unmarshaler (InvitationResult Invitation)} `{Unmarshaler AcceptResult}
        `{Unmarshaler MoveResult} `{Unmarshaler (MessagesResult Message)}
        `{Unmarshaler SentResult} `{Unmarshaler (BoardResult Grid)}
        `{Unmarshaler AvatarResult}.

Variable c : Client.
Variable res : http.Response.

Hypothesis built : forall method url, NewRequest_error method url = None.
Hypothesis answers : forall req, cl c req = inr res.
Hypothesis no_body :
  http.Body res
  = {| http.data := EmptyString; http.read_err := None; http.close_err := None |}.
Hypothesis status_ok : http.StatusCode res = 200.

Lemma request_empty_ok (method path : string) (session : SessionID) (body : option string)
      (w : list http.Request) :
  request c method path session body w
  = (Ok {| Content := None; Header := http.Header res |},
     w ++ [new_request c method path session body]).
Proof.
  unfold request. rewrite built, answers. unfold deferred_close, classify.
  rewrite no_body, status_ok. reflexivity.
Qed.

Lemma roundtrip_empty {B C : Type} `{Marshaler B} `{Unmarshaler C}
      (method path : string) (session : SessionID) (body : option B) (b : option string)
      (w : list http.Request) :
  marshalled body b ->
  fst (roundtrip (C := C) c method path session body w)
  = Err (errorf "response body content field is empty").
Proof.
  intros Hb. unfold roundtrip, bind.
  destruct body as [v|]; simpl in Hb.
  - destruct Hb as (bs & Hm & ->). rewrite Hm. unfold ret at 1.
    now rewrite request_empty_ok.
  - unfold ret at 1. now rewrite request_empty_ok.
Qed.

(** When the server answers 200 with an empty body, the operations that
    only look at the error of [request] succeed, the two logins depend
    on the cookie alone, and every operation that decodes a result fails
    with the error that the content is empty. *)
Theorem empty_success_response (session : SessionID) (id ruleset board : Z)
        (text password : string) (move : list Placement) (image : io.Reader)
        (w : list http.Request) :
  let empty := errorf "response body content field is empty" in
  fst (ChangePassword c session password w) = Ok tt
  /\ fst (DeleteRelationship c session id w) = Ok tt
  /\ fst (RejectInvitation c session id w) = Ok tt
  /\ fst (LoginWithEmail c text password w)
     = extractSessionID {| Content := None; Header := http.Header res |}
  /\ fst (LoginWithID c id password w)
     = extractSessionID {| Content := None; Header := http.Header res |}
  /\ fst (Relationships (Relationship := Relationship) c session w) = Err empty
  /\ fst (CreateRelationship (Relationship := Relationship) c session id w) = Err empty
  /\ fst (Games (Game := Game_) c session w) = Err empty
  /\ fst (Game (Game := Game_) c session id w) = Err empty
  /\ fst (Invite (Invitation := Invitation) c session text ruleset board w) = Err empty
  /\ fst (InviteRandomOpponent (Invitation := Invitation) c session ruleset board w) = Err empty
  /\ fst (AcceptInvitation c session id w) = Err empty
  /\ (uniqueSquares move = true ->
      fst (Move (MoveResult := MoveResult) c session id move w) = Err empty)
  /\ fst (Pass (MoveResult := MoveResult) c session id w) = Err empty
  /\ fst (Resign (MoveResult := MoveResult) c session id w) = Err empty
  /\ fst (ChatMessages (Message := Message) c session id w) = Err empty
  /\ fst (SendChatMessage c session id text w) = Err empty
  /\ fst (Board (Grid := Grid) c id w) = Err empty
  /\ (io.err image = None -> fst (UpdateAvatar c session image w) = Err empty).
Proof.
  intros empty.
  assert (Hr : forall (B C : Type) (MB : Marshaler B) (UC : Unmarshaler C)
                      method path s (body : option B),
             (match body with None => True | Some v => exists bs, Marshal v = inr bs end) ->
             fst (roundtrip (C := C) c method path s body w) = Err empty).
  { intros B C MB UC method path s [v|] Hm.
    - destruct Hm as (bs & Hm). apply (roundtrip_empty _ _ _ _ (Some bs)).
      simpl. now exists bs.
    - now apply (roundtrip_empty _ _ _ _ None). }
  repeat split.
  - unfold ChangePassword, marshalling, Marshal_ChangePasswordBody, bind, ret.
    now rewrite request_empty_ok.
  - unfold DeleteRelationship, bind, ret. now rewrite request_empty_ok.
  - unfold RejectInvitation, bind, ret. now rewrite request_empty_ok.
  - unfold LoginWithEmail, marshalling, Marshal_LoginWithEmailBody, bind, lift.
    now rewrite request_empty_ok.
  - unfold LoginWithID, marshalling, Marshal_LoginWithIDBody, bind, lift.
    now rewrite request_empty_ok.
  - apply bind_ret_fst_err, Hr. exact I.
  - apply Hr. now eexists.
  - apply bind_ret_fst_err, Hr. exact I.
  - apply bind_ret_fst_err, Hr. exact I.
  - apply bind_ret_fst_err, Hr. now eexists.
  - apply bind_ret_fst_err, Hr. now eexists.
  - apply bind_ret_fst_err, Hr. exact I.
  - intros Hu. rewrite (Move_accepted c session id move Hu). apply Hr.
    unfold Marshal, Marshal_MoveBody. cbn [mb_Move].
    destruct move as [|p move]; [now eexists|].
    pose proof (marshal_all_placements (p :: move)) as Hall.
    cbn [map] in Hall |- *. rewrite Hall. now eexists.
  - apply Hr. exact I.
  - apply Hr. exact I.
  - apply bind_ret_fst_err, Hr. exact I.
  - apply bind_ret_fst_err, Hr. now eexists.
  - apply bind_ret_fst_err, Hr. exact I.
  - intros Hi. unfold UpdateAvatar. rewrite Hi. apply bind_ret_fst_err, Hr. now eexists.
Qed.

End EmptyResponse.

Lemma empty_success_response_witness :
  let res := {| http.StatusCode := 200;
                http.Header := {[ "Set-Cookie" := ["sessionid=abc123; Path=/"] ]};
                http.Body := {| http.data := EmptyString; http.read_err := None;
                                http.close_err := None |} |} in
  let c := {| cl := fun _ => inr res; baseURL := "https://game.wordfeud.com/wf" |} in
  fst (@LoginWithEmail (fun _ _ => None) c "user@example.com" "password" []) = Ok "abc123"
  /\ fst (@Pass unit (fun _ _ => None) (fun _ => Ok tt) c "abc123" 42 [])
     = Err (errorf "response body content field is empty").
Proof.
  intros res c.
  pose proof (@empty_success_response
                (fun _ _ => None) unit unit unit unit unit unit
                (fun _ => Err (errorf "unused")) (fun _ => Ok tt)
                (fun _ => Err (errorf "unused")) (fun _ => Err (errorf "unused"))
                (fun _ => Err (errorf "unused")) (fun _ => Err (errorf "unused"))
                (fun _ => Ok tt) (fun _ => Err (errorf "unused"))
                (fun _ => Err (errorf "unused")) (fun _ => Err (errorf "unused"))
                (fun _ => Err (errorf "unused"))
                c res (fun _ _ => eq_refl) (fun _ => eq_refl) eq_refl eq_refl
                "abc123" 42 0 0 "user@example.com" "password" []
                {| io.data := EmptyString; io.err := None |} []) as Hall.
  cbv zeta in Hall.
  destruct Hall as (_ & _ & _ & Hlogin & _ & _ & _ & _ & _ & _ & _ & _ & _ & Hpass & _).
  split.
  - rewrite Hlogin. vm_compute. reflexivity.
  - exact Hpass.
Defined.


(** ** The JSON parser on a value that is followed by more text *)

Lemma lex_number_parts_eq (s : string) : json.lex_number s = json.lex_number_parts s.
Proof.
  unfold json.lex_number, json.lex_number_parts.
  assert (Hbody : forall (sign s1 : string),
             match s1 with
             | EmptyString => json.Invalid
             | String d r =>
               if negb (is_digit d) then json.Invalid
               else
                 let '(ip, s2) := if byte_val d =? 48 then (String d EmptyString, r)
                                  else let '(ds, t) := strconv.span_digits r in
                                       (String d ds, t) in
                 match json.lex_fraction s2 with
                 | None => json.Invalid
                 | Some (fp, s3) =>
                   match json.lex_exponent s3 with
                   | None => json.Invalid
                   | Some (ep, s4) => json.Parsed (sign +:+ ip +:+ fp +:+ ep) s4
                   end
                 end
             end
             = match json.lex_integer s1 with
               | None => json.Invalid
               | Some (ip, s2) =>
                 match json.lex_fraction s2 with
                 | None => json.Invalid
                 | Some (fp, s3) =>
                   match json.lex_exponent s3 with
                   | None => json.Invalid
                   | Some (ep, s4) => json.Parsed (sign +:+ ip +:+ fp +:+ ep) s4
                   end
                 end
               end).
  { intros sign s1. destruct s1 as [|d r]; [reflexivity|].
    unfold json.lex_integer. destruct (is_digit d); [|reflexivity]. cbn [negb].
    destruct (byte_val d =? 48); [reflexivity|].
    destruct (strconv.span_digits r); reflexivity. }
  unfold json.number_sign.
  destruct s as [|c r]; [reflexivity|].
  destruct c as [[] [] [] [] [] [] [] []];
    match goal with
    | |- context [json.lex_integer (String ?a r)] => exact (Hbody EmptyString (String a r))
    | |- _ => exact (Hbody "-" r)
    end.
Qed.

Section Extension.

(** The text that follows: the closing brace of the object the value is a
    member of, and whatever is behind it. *)
Variable tl : string.

Lemma span_digits_ext (s : string) :
  forall d r, strconv.span_digits s = (d, r) ->
              strconv.span_digits (s +:+ String "}" tl) = (d, r +:+ String "}" tl).
Proof.
  induction s as [|c s IH]; intros d r Hs.
  - injection Hs as <- <-. reflexivity.
  - cbn [append strconv.span_digits] in Hs |- *. destruct (is_digit c).
    + destruct (strconv.span_digits s) as [d' r'] eqn:E.
      rewrite (IH d' r' eq_refl). injection Hs as <- <-. reflexivity.
    + injection Hs as <- <-. reflexivity.
Qed.

Lemma digits1_ext (s d r : string) :
  json.digits1 s = Some (d, r) ->
  json.digits1 (s +:+ String "}" tl) = Some (d, r +:+ String "}" tl).
Proof.
  unfold json.digits1. destruct (strconv.span_digits s) as [d' r'] eqn:E.
  rewrite (span_digits_ext s d' r' E). destruct d'; [discriminate|].
  intros H. injection H as <- <-. reflexivity.
Qed.

Lemma lex_integer_ext (s1 ip s2 : string) :
  json.lex_integer s1 = Some (ip, s2) ->
  json.lex_integer (s1 +:+ String "}" tl) = Some (ip, s2 +:+ String "}" tl).
Proof.
  destruct s1 as [|d r]; [discriminate|]. cbn [append]. unfold json.lex_integer.
  destruct (negb (is_digit d)); [discriminate|].
  destruct (byte_val d =? 48).
  - intros H. injection H as <- <-. reflexivity.
  - destruct (strconv.span_digits r) as [ds t] eqn:E.
    rewrite (span_digits_ext r ds t E). intros H. injection H as <- <-. reflexivity.
Qed.

Lemma lex_fraction_other (a : ascii) (r : string) :
  a <> "."%char -> json.lex_fraction (String a r) = Some (EmptyString, String a r).
Proof.
  intros Ha. destruct a as [[] [] [] [] [] [] [] []];
               first [reflexivity | now destruct Ha].
Qed.

Lemma lex_fraction_ext (s2 fp s3 : string) :
  json.lex_fraction s2 = Some (fp, s3) ->
  json.lex_fraction (s2 +:+ String "}" tl) = Some (fp, s3 +:+ String "}" tl).
Proof.
  destruct s2 as [|a r].
  - intros H. injection H as <- <-. reflexivity.
  - cbn [append]. destruct (ascii_dec a ".") as [->|Ha].
    + cbn [json.lex_fraction].
      destruct (json.digits1 r) as [[ds u]|] eqn:E; [|discriminate].
      rewrite (digits1_ext r ds u E). intros H. injection H as <- <-. reflexivity.
    + rewrite !lex_fraction_other by exact Ha.
      intros H. injection H as <- <-. reflexivity.
Qed.

Lemma exponent_sign_ext (u : string) :
  u <> EmptyString ->
  json.exponent_sign (u +:+ String "}" tl)
  = (fst (json.exponent_sign u), snd (json.exponent_sign u) +:+ String "}" tl).
Proof.
  destruct u as [|a u]; [contradiction|]. intros _.
  destruct a as [[] [] [] [] [] [] [] []]; reflexivity.
Qed.

Lemma lex_exponent_ext (s3 ep s4 : string) :
  json.lex_exponent s3 = Some (ep, s4) ->
  json.lex_exponent (s3 +:+ String "}" tl) = Some (ep, s4 +:+ String "}" tl).
Proof.
  destruct s3 as [|e t].
  - intros H. injection H as <- <-. reflexivity.
  - cbn [append json.lex_exponent].
    destruct ((byte_val e =? 101) || (byte_val e =? 69)).
    + destruct t as [|a t]; [discriminate|].
      rewrite (exponent_sign_ext (String a t)) by discriminate.
      destruct (json.exponent_sign (String a t)) as [sg u]. cbn [fst snd].
      destruct (json.digits1 u) as [[ds x]|] eqn:E; [|discriminate].
      rewrite (digits1_ext u ds x E). intros H. injection H as <- <-. reflexivity.
    + intros H. injection H as <- <-. reflexivity.
Qed.

Lemma number_sign_ext (s : string) :
  s <> EmptyString ->
  json.number_sign (s +:+ String "}" tl)
  = (fst (json.number_sign s), snd (json.number_sign s) +:+ String "}" tl).
Proof.
  destruct s as [|a s]; [contradiction|]. intros _.
  destruct a as [[] [] [] [] [] [] [] []]; reflexivity.
Qed.

Lemma lex_number_ext (s lit rest : string) :
  json.lex_number s = json.Parsed lit rest ->
  json.lex_number (s +:+ String "}" tl) = json.Parsed lit (rest +:+ String "}" tl).
Proof.
  rewrite !lex_number_parts_eq. unfold json.lex_number_parts.
  destruct s as [|a s]; [discriminate|].
  rewrite (number_sign_ext (String a s)) by discriminate.
  destruct (json.number_sign (String a s)) as [sign s1]. cbn [fst snd].
  destruct (json.lex_integer s1) as [[ip s2]|] eqn:Ei; [|discriminate].
  rewrite (lex_integer_ext s1 ip s2 Ei).
  destruct (json.lex_fraction s2) as [[fp s3]|] eqn:Ef; [|discriminate].
  rewrite (lex_fraction_ext s2 fp s3 Ef).
  destruct (json.lex_exponent s3) as [[ep s4]|] eqn:Ee; [|discriminate].
  rewrite (lex_exponent_ext s3 ep s4 Ee).
  intros H. injection H as <- <-. reflexivity.
Qed.

End Extension.

Lemma first_lo (p0 : Z) (sz : nat) (lo hi : Z) :
  utf8.first p0 = Some (sz, lo, hi) -> sz <> 1%nat -> 128 <= lo.
Proof.
  unfold utf8.first, utf8.locb, utf8.hicb.
  repeat match goal with
         | |- context [if ?b then _ else _] => destruct b
         end;
    intros H Hsz; try discriminate H; injection H as <- <- <-; try lia; contradiction.
Qed.

Lemma in_range_high (lo hi b : Z) :
  128 <= lo -> utf8.in_range lo hi b = true -> (128 <=? b) = true.
Proof.
  unfold utf8.in_range. intros Hlo Hin. apply andb_true_iff in Hin as [Hb _].
  apply Z.leb_le in Hb. apply Z.leb_le. lia.
Qed.

(** [DecodeRune] on a text that is lengthened: the same rune, unless the
    text ends inside a sequence, all of whose bytes are 0x80 or more. *)
Lemma DecodeRune_ext (c0 : ascii) (r0 t : string) :
  utf8.DecodeRune (String c0 (r0 +:+ t)) = utf8.DecodeRune (String c0 r0)
  \/ (all_bytes (fun c => 128 <=? byte_val c) r0 = true
      /\ utf8.DecodeRune (String c0 r0) = (utf8.RuneError, 1%nat)).
Proof.
  unfold utf8.DecodeRune.
  destruct (utf8.first (byte_val c0)) as [[[sz lo] hi]|] eqn:Ef; [|now left].
  assert (Htail : utf8.decode_tail (byte_val c0) sz lo hi (r0 +:+ t)
                  = utf8.decode_tail (byte_val c0) sz lo hi r0
                  \/ (sz <> 1%nat ->
                      all_bytes (fun c => 128 <=? byte_val c) r0 = true
                      /\ utf8.decode_tail (byte_val c0) sz lo hi r0
                         = (utf8.RuneError, 1%nat))).
  { unfold utf8.decode_tail.
    destruct r0 as [|c1 r1]; [right; intros _; split; reflexivity|].
    cbn [append]. destruct (utf8.in_range lo hi (byte_val c1)) eqn:E1; [|now left].
    cbn [negb]. destruct (sz <=? 2)%nat; [now left|].
    destruct r1 as [|c2 r2].
    { right. intros Hsz. split; [|reflexivity]. simpl.
      now rewrite (in_range_high lo hi _ (first_lo _ _ _ _ Ef Hsz) E1). }
    cbn [append]. destruct (utf8.in_range utf8.locb utf8.hicb (byte_val c2)) eqn:E2;
                    [|now left].
    cbn [negb]. destruct (sz <=? 3)%nat; [now left|].
    destruct r2 as [|c3 r3]; [|now left].
    right. intros Hsz. split; [|reflexivity]. simpl.
    rewrite (in_range_high lo hi _ (first_lo _ _ _ _ Ef Hsz) E1).
    now rewrite (in_range_high utf8.locb utf8.hicb _ ltac:(unfold utf8.locb; lia) E2). }
  destruct sz as [|[|sz]].
  - destruct Htail as [->|Hr]; [now left|right; now apply Hr].
  - now left.
  - destruct Htail as [->|Hr]; [now left|right; now apply Hr].
Qed.

Lemma drop_bytes_app_le (n : nat) :
  forall s t, (n <= String.length s)%nat -> drop_bytes n (s +:+ t) = drop_bytes n s +:+ t.
Proof.
  induction n as [|n IH]; intros s t Hn; [reflexivity|].
  destruct s as [|c s]; [simpl in Hn; lia|]. simpl. apply IH. simpl in Hn. lia.
Qed.

Lemma DecodeRune_size (c : ascii) (r : string) :
  (snd (utf8.DecodeRune (String c r)) <= S (String.length r))%nat.
Proof.
  pose proof (DecodeRune_decoded c r) as Hd.
  inversion Hd as [H1 H2 H3|H1 H2 H3|c1 r1 rn -> H2 H3 H4 H5 H6 H7
                   |c1 c2 r2 rn -> H2 H3 H4 H5 H6 H7 H8 H9
                   |c1 c2 c3 r3 rn -> H2 H3 H4 H5 H6 H7 H8 H9]; simpl; lia.
Qed.

Lemma all_bytes_drop (P : ascii -> bool) (n : nat) :
  forall s, all_bytes P s = true -> all_bytes P (drop_bytes n s) = true.
Proof.
  induction n as [|n IH]; intros s Hs; [exact Hs|].
  destruct s as [|c s]; [reflexivity|]. simpl in Hs |- *.
  apply andb_true_iff in Hs as [_ Hs]. now apply IH.
Qed.

Lemma prepend_inv (p : string) (x : json.parsed string) (str rest : string) :
  json.prepend p x = json.Parsed str rest ->
  exists str', x = json.Parsed str' rest /\ str = p +:+ str'.
Proof.
  destruct x as [s r| |]; try discriminate. simpl. intros H. injection H as <- <-.
  now exists s.
Qed.

(** A text without a byte below 0x80 holds no closing quote. *)
Lemma lex_string_high (fuel : nat) :
  forall s str rest,
    all_bytes (fun c => 128 <=? byte_val c) s = true ->
    json.lex_string fuel s <> json.Parsed str rest.
Proof.
  induction fuel as [|fuel IH]; intros s str rest Hs; [discriminate|].
  destruct s as [|c r]; [discriminate|].
  rewrite lex_string_eq. cbv zeta.
  pose proof Hs as Hs'. simpl in Hs'. apply andb_true_iff in Hs' as [Hc Hr].
  apply Z.leb_le in Hc.
  destruct (Z.eqb_spec (byte_val c) 34); [lia|].
  destruct (Z.eqb_spec (byte_val c) 92); [lia|].
  destruct (Z.ltb_spec (byte_val c) 32); [lia|].
  destruct (Z.ltb_spec (byte_val c) utf8.RuneSelf); [unfold utf8.RuneSelf in *; lia|].
  destruct (utf8.DecodeRune (String c r)) as [rr size].
  intros Hp. apply prepend_inv in Hp as (str' & Hl & _).
  revert Hl. apply IH. now apply all_bytes_drop.
Qed.

Lemma hex4_ext (s r t : string) (v : Z) :
  json.hex4 s = Some (v, r) -> json.hex4 (s +:+ t) = Some (v, r +:+ t).
Proof.
  destruct s as [|a [|b [|c [|d s]]]]; try discriminate. cbn [append json.hex4].
  destruct (hex_val a), (hex_val b), (hex_val c), (hex_val d); try discriminate.
  intros H. injection H as <- <-. reflexivity.
Qed.

Lemma getu4_eq (r : string) : json.getu4 (String "\" (String "u" r)) = json.hex4 r.
Proof. reflexivity. Qed.

Lemma getu4_head (a : ascii) (r : string) :
  a <> "\"%char -> json.getu4 (String a r) = None.
Proof.
  intros Ha. destruct a as [[] [] [] [] [] [] [] []];
               first [reflexivity | now destruct Ha].
Qed.

Lemma getu4_second (b : ascii) (r : string) :
  b <> "u"%char -> json.getu4 (String "\" (String b r)) = None.
Proof.
  intros Hb. destruct b as [[] [] [] [] [] [] [] []];
               first [reflexivity | now destruct Hb].
Qed.

Lemma getu4_ext (s r t : string) (v : Z) :
  json.getu4 s = Some (v, r) -> json.getu4 (s +:+ t) = Some (v, r +:+ t).
Proof.
  destruct s as [|a [|b s]].
  - discriminate.
  - destruct (ascii_dec a "\") as [->|Ha]; [discriminate|]. now rewrite getu4_head.
  - destruct (ascii_dec a "\") as [->|Ha]; [|now rewrite getu4_head].
    destruct (ascii_dec b "u") as [->|Hb]; [|now rewrite getu4_second].
    cbn [append]. rewrite !getu4_eq. apply hex4_ext.
Qed.

(** Where no escape [\uXXXX] stands but the text goes on to a closing
    quote, there is none in the lengthened text either. *)
Lemma getu4_none_ext (fuel : nat) (s t str rest : string) :
  json.getu4 s = None -> json.lex_string fuel s = json.Parsed str rest ->
  json.getu4 (s +:+ t) = None.
Proof.
  intros Hg Hl. destruct fuel as [|fuel]; [discriminate Hl|].
  destruct s as [|a s]; [discriminate Hl|]. cbn [append].
  destruct (ascii_dec a "\") as [->|Ha]; [|now apply getu4_head].
  destruct s as [|b s]; [discriminate Hl|]. cbn [append].
  destruct (ascii_dec b "u") as [->|Hb]; [|now apply getu4_second].
  rewrite getu4_eq in Hg. rewrite lex_string_eq in Hl. cbv zeta in Hl.
  change (byte_val "\" =? 34) with false in Hl.
  change (byte_val "\" =? 92) with true in Hl. cbv iota in Hl.
  change (json.simple_escape "u") with (@None ascii) in Hl.
  change (byte_val "u" =? 117) with true in Hl. cbv iota in Hl.
  rewrite Hg in Hl. discriminate Hl.
Qed.

(** A string literal that is read to its closing quote is read alike with
    more fuel and with more text behind. *)
Lemma lex_string_ext (fuel : nat) :
  forall (s str rest t : string) (fuel' : nat),
    json.lex_string fuel s = json.Parsed str rest -> (fuel <= fuel')%nat ->
    json.lex_string fuel' (s +:+ t) = json.Parsed str (rest +:+ t).
Proof.
  induction fuel as [|fuel IH]; intros s str rest t fuel' Hl Hf; [discriminate Hl|].
  destruct fuel' as [|fuel']; [lia|]. apply le_S_n in Hf.
  destruct s as [|c r]; [discriminate Hl|]. cbn [append].
  rewrite lex_string_eq in Hl |- *. cbv zeta in Hl |- *.
  assert (Hpre : forall p r',
             json.prepend p (json.lex_string fuel r') = json.Parsed str rest ->
             json.prepend p (json.lex_string fuel' (r' +:+ t))
             = json.Parsed str (rest +:+ t)).
  { intros p r' Hp. apply prepend_inv in Hp as (str' & Hl' & ->).
    now rewrite (IH r' str' rest t fuel' Hl' Hf). }
  destruct (byte_val c =? 34).
  { injection Hl as <- <-. reflexivity. }
  destruct (byte_val c =? 92).
  { destruct r as [|e r1]; [discriminate Hl|]. cbn [append].
    destruct (json.simple_escape e) as [ch|]; [now apply Hpre|].
    destruct (byte_val e =? 117); [|discriminate Hl].
    destruct (json.hex4 r1) as [[rr r2]|] eqn:Eh; [|discriminate Hl].
    rewrite (hex4_ext r1 r2 t rr Eh).
    destruct (utf8.is_surrogate rr); [|now apply Hpre].
    destruct (json.getu4 r2) as [[rr1 r4]|] eqn:Eg.
    - rewrite (getu4_ext r2 r4 t rr1 Eg).
      destruct (json.utf16_DecodeRune rr rr1 =? utf8.RuneError);
        now apply Hpre.
    - pose proof Hl as Hl'. apply prepend_inv in Hl' as (str' & Hl2 & _).
      rewrite (getu4_none_ext fuel r2 t str' rest Eg Hl2).
      now apply Hpre. }
  destruct (byte_val c <? 32); [discriminate Hl|].
  destruct (byte_val c <? utf8.RuneSelf); [now apply Hpre|].
  destruct (DecodeRune_ext c r t) as [Hsame|[Hhigh Herr]].
  - rewrite Hsame. pose proof (DecodeRune_size c r) as Hsize.
    destruct (utf8.DecodeRune (String c r)) as [rr size]. cbn [snd] in Hsize.
    change (String c (r +:+ t)) with (String c r +:+ t).
    rewrite drop_bytes_app_le by (simpl; lia).
    now apply Hpre.
  - rewrite Herr in Hl. apply prepend_inv in Hl as (str' & Hl2 & _).
    simpl drop_bytes in Hl2. now apply lex_string_high in Hl2.
Qed.

Lemma skip_ws_cons (r : string) (a : ascii) (r' t : string) :
  json.skip_ws r = String a r' -> json.skip_ws (r +:+ t) = String a (r' +:+ t).
Proof.
  induction r as [|c r IH]; [discriminate|]. cbn [append json.skip_ws].
  destruct (json.isSpace c); [exact IH|].
  intros H. injection H as <- <-. reflexivity.
Qed.

Lemma lit_rest_ext (lit s rest t : string) :
  json.lit_rest lit s = Some rest -> json.lit_rest lit (s +:+ t) = Some (rest +:+ t).
Proof.
  unfold json.lit_rest. destruct (String.prefix lit s) eqn:Ep; [|discriminate].
  intros H. injection H as <-. pose proof (prefix_inv _ _ Ep) as Hs.
  remember (drop_bytes (String.length lit) s) as d eqn:Hd. clear Hd.
  rewrite Hs, string_app_assoc, prefix_app, drop_bytes_app. reflexivity.
Qed.

Lemma parse_value_nil (fuel : nat) (depth : Z) (x : json.value) (rest : string) :
  json.parse_value fuel depth EmptyString <> json.Parsed x rest.
Proof. destruct fuel; discriminate. Qed.

Lemma parse_elements_nil (fuel : nat) (depth : Z) (acc : list json.value) (x : json.value)
      (rest : string) :
  json.parse_elements fuel depth EmptyString acc <> json.Parsed x rest.
Proof. destruct fuel as [|[|fuel]]; discriminate. Qed.

Lemma parse_members_nil (fuel : nat) (depth : Z) (acc : list (string * string * json.value))
      (x : json.value) (rest : string) :
  json.parse_members fuel depth EmptyString acc <> json.Parsed x rest.
Proof. destruct fuel; discriminate. Qed.

Lemma substring_app_le (n : nat) :
  forall s t, (n <= String.length s)%nat -> substring 0 n (s +:+ t) = substring 0 n s.
Proof.
  induction n as [|n IH]; intros s t Hn.
  - now rewrite !substring_0_0.
  - destruct s as [|c s]; [simpl in Hn; lia|]. simpl. rewrite IH; [reflexivity|].
    simpl in Hn. lia.
Qed.

Lemma consumed_ext (s rest t : string) : consumed (s +:+ t) (rest +:+ t) = consumed s rest.
Proof.
  unfold consumed. rewrite !string_length_app.
  replace (String.length s + String.length t - (String.length rest + String.length t))%nat
    with (String.length s - String.length rest)%nat by lia.
  apply substring_app_le. lia.
Qed.

(** A value, the elements of an array and the members of an object that
    are read from a text are read alike, with as much fuel or more, when a
    closing brace and more text follow. *)
Lemma parse_ext (tl : string) (fuel : nat) :
  (forall depth s x rest fuel',
      json.parse_value fuel depth s = json.Parsed x rest -> (fuel <= fuel')%nat ->
      json.parse_value fuel' depth (s +:+ String "}" tl)
      = json.Parsed x (rest +:+ String "}" tl))
  /\ (forall depth s acc x rest fuel',
         json.parse_elements fuel depth s acc = json.Parsed x rest -> (fuel <= fuel')%nat ->
         json.parse_elements fuel' depth (s +:+ String "}" tl) acc
         = json.Parsed x (rest +:+ String "}" tl))
  /\ (forall depth s acc x rest fuel',
         json.parse_members fuel depth s acc = json.Parsed x rest -> (fuel <= fuel')%nat ->
         json.parse_members fuel' depth (s +:+ String "}" tl) acc
         = json.Parsed x (rest +:+ String "}" tl)).
Proof.
  induction fuel as [|fuel (IHv & IHe & IHm)]; [repeat split; intros; discriminate|].
  assert (Helems : forall depth r' acc x rest fuel',
             json.parse_elements fuel depth (json.skip_ws r') acc = json.Parsed x rest ->
             (fuel <= fuel')%nat ->
             json.parse_elements fuel' depth (json.skip_ws (r' +:+ String "}" tl)) acc
             = json.Parsed x (rest +:+ String "}" tl)).
  { intros depth r' acc x rest fuel' He Hf.
    destruct (json.skip_ws r') as [|a r2] eqn:Ew; [now apply parse_elements_nil in He|].
    rewrite (skip_ws_cons r' a r2 _ Ew). exact (IHe depth (String a r2) acc x rest fuel' He Hf). }
  assert (Hmembers : forall depth r' acc x rest fuel',
             json.parse_members fuel depth (json.skip_ws r') acc = json.Parsed x rest ->
             (fuel <= fuel')%nat ->
             json.parse_members fuel' depth (json.skip_ws (r' +:+ String "}" tl)) acc
             = json.Parsed x (rest +:+ String "}" tl)).
  { intros depth r' acc x rest fuel' Hm Hf.
    destruct (json.skip_ws r') as [|a r2] eqn:Ew; [now apply parse_members_nil in Hm|].
    rewrite (skip_ws_cons r' a r2 _ Ew). exact (IHm depth (String a r2) acc x rest fuel' Hm Hf). }
  repeat split.
  - (* a value *)
    intros depth s x rest fuel' Hp Hf.
    destruct fuel' as [|fuel']; [lia|]. apply le_S_n in Hf.
    destruct s as [|c r]; [discriminate Hp|].
    cbn [append]. cbn [json.parse_value] in Hp |- *. cbv zeta in Hp |- *.
    change (String c (r +:+ String "}" tl)) with (String c r +:+ String "}" tl).
    destruct (byte_val c =? 123).
    { destruct (json.maxNestingDepth <? depth + 1); [discriminate Hp|].
      destruct (json.skip_ws r) as [|a r'] eqn:Ew; [now apply parse_members_nil in Hp|].
      rewrite (skip_ws_cons r a r' _ Ew).
      destruct a as [[] [] [] [] [] [] [] []];
        first [ injection Hp as <- <-; reflexivity
              | exact (IHm _ (String _ r') _ _ _ _ Hp Hf) ]. }
    destruct (byte_val c =? 91).
    { destruct (json.maxNestingDepth <? depth + 1); [discriminate Hp|].
      destruct (json.skip_ws r) as [|a r'] eqn:Ew; [now apply parse_elements_nil in Hp|].
      rewrite (skip_ws_cons r a r' _ Ew).
      destruct a as [[] [] [] [] [] [] [] []];
        first [ injection Hp as <- <-; reflexivity
              | exact (IHe _ (String _ r') _ _ _ _ Hp Hf) ]. }
    destruct (byte_val c =? 34).
    { destruct (json.lex_string (S (String.length r)) r) as [str rest0| |] eqn:El;
        try discriminate Hp.
      injection Hp as <- <-.
      rewrite (lex_string_ext _ r str rest0 (String "}" tl)
                              (S (String.length (r +:+ String "}" tl))) El);
        [reflexivity|rewrite string_length_app; lia]. }
    destruct (byte_val c =? 116).
    { destruct (json.lit_rest "true" (String c r)) as [rest0|] eqn:El; [|discriminate Hp].
      injection Hp as <- <-. now rewrite (lit_rest_ext _ _ _ (String "}" tl) El). }
    destruct (byte_val c =? 102).
    { destruct (json.lit_rest "false" (String c r)) as [rest0|] eqn:El; [|discriminate Hp].
      injection Hp as <- <-. now rewrite (lit_rest_ext _ _ _ (String "}" tl) El). }
    destruct (byte_val c =? 110).
    { destruct (json.lit_rest "null" (String c r)) as [rest0|] eqn:El; [|discriminate Hp].
      injection Hp as <- <-. now rewrite (lit_rest_ext _ _ _ (String "}" tl) El). }
    destruct ((byte_val c =? 45) || is_digit c); [|discriminate Hp].
    destruct (json.lex_number (String c r)) as [lit rest0| |] eqn:El; try discriminate Hp.
    injection Hp as <- <-. now rewrite (lex_number_ext tl _ _ _ El).
  - (* the elements of an array *)
    intros depth s acc x rest fuel' Hp Hf.
    destruct fuel' as [|fuel']; [lia|]. apply le_S_n in Hf.
    cbn [json.parse_elements] in Hp |- *.
    destruct (json.parse_value fuel depth s) as [v r| |] eqn:Ev; try discriminate Hp.
    rewrite (IHv depth s v r fuel' Ev Hf).
    destruct (json.skip_ws r) as [|a r'] eqn:Ew; [discriminate Hp|].
    rewrite (skip_ws_cons r a r' _ Ew).
    destruct a as [[] [] [] [] [] [] [] []];
      first [ discriminate Hp
            | injection Hp as <- <-; reflexivity
            | exact (Helems _ _ _ _ _ _ Hp Hf) ].
  - (* the members of an object *)
    intros depth s acc x rest fuel' Hp Hf.
    destruct fuel' as [|fuel']; [lia|]. apply le_S_n in Hf.
    cbn [json.parse_members] in Hp |- *.
    destruct s as [|q r]; [discriminate Hp|]. cbn [append].
    destruct q as [[] [] [] [] [] [] [] []]; try discriminate Hp.
    destruct (json.lex_string (S (String.length r)) r) as [k r1| |] eqn:El;
      try discriminate Hp.
    rewrite (lex_string_ext _ r k r1 (String "}" tl)
                            (S (String.length (r +:+ String "}" tl))) El)
      by (rewrite string_length_app; lia).
    destruct (json.skip_ws r1) as [|a r2] eqn:Ew1; [discriminate Hp|].
    rewrite (skip_ws_cons r1 a r2 _ Ew1).
    destruct a as [[] [] [] [] [] [] [] []]; try discriminate Hp.
    cbv zeta in Hp |- *.
    destruct (json.skip_ws r2) as [|b sv] eqn:Ew2.
    { destruct (json.parse_value fuel depth EmptyString) eqn:En; try discriminate Hp.
      now apply parse_value_nil in En. }
    rewrite (skip_ws_cons r2 b sv _ Ew2).
    change (String b (sv +:+ String "}" tl)) with (String b sv +:+ String "}" tl).
    destruct (json.parse_value fuel depth (String b sv)) as [v r3| |] eqn:Ev;
      try discriminate Hp.
    rewrite (IHv depth (String b sv) v r3 fuel' Ev Hf), consumed_ext.
    destruct (json.skip_ws r3) as [|e r4] eqn:Ew3; [discriminate Hp|].
    rewrite (skip_ws_cons r3 e r4 _ Ew3).
    destruct e as [[] [] [] [] [] [] [] []];
      first [ discriminate Hp
            | injection Hp as <- <-; reflexivity
            | exact (Hmembers _ _ _ _ _ _ Hp Hf) ].
Qed.


(** ** The envelope of a response, as text *)

Lemma value_text_head (fuel : nat) (depth : Z) (v : string) (x : json.value) (rest : string) :
  json.parse_value fuel depth v = json.Parsed x rest -> json.skip_ws v = v.
Proof.
  intros Hp. destruct fuel as [|fuel]; [discriminate Hp|].
  destruct v as [|c r]; [reflexivity|].
  destruct c as [[] [] [] [] [] [] [] []];
    first [reflexivity | simpl in Hp; discriminate Hp].
Qed.

Lemma skip_ws_value (fuel : nat) (depth : Z) (v : string) (x : json.value) (rest t : string) :
  json.parse_value fuel depth v = json.Parsed x rest -> json.skip_ws (v +:+ t) = v +:+ t.
Proof.
  intros Hp. pose proof (value_text_head _ _ _ _ _ Hp) as Hs.
  destruct v as [|c r]; [now apply parse_value_nil in Hp|].
  now rewrite (skip_ws_cons (String c r) c r t Hs).
Qed.

(** One member of an object: a name that needs no escape, a colon and a
    value. *)
Lemma parse_members_member (fuel : nat) (depth : Z) (k sv r3 : string) (v : json.value)
      (acc : list (string * string * json.value)) :
  json.quote_body (String.length k) k = k ->
  utf8.valid_from (String.length k) k = true ->
  json.skip_ws sv = sv ->
  json.parse_value fuel depth sv = json.Parsed v r3 ->
  json.parse_members (S fuel) depth (quoted k +:+ String ":" sv) acc
  = match json.skip_ws r3 with
    | String "," r4 =>
      json.parse_members fuel depth (json.skip_ws r4) (acc ++ [(k, consumed sv r3, v)])
    | String "}" r4 => json.Parsed (json.JObject (acc ++ [(k, consumed sv r3, v)])) r4
    | _ => json.Invalid
    end.
Proof.
  intros Hk Hvalid Hskip Hv.
  unfold quoted. cbn [append]. rewrite string_app_assoc. cbn [append].
  change (String dquote (k +:+ String dquote (String ":" sv)))
    with (String "034" (k +:+ String dquote (String ":" sv))).
  cbn [json.parse_members].
  assert (Hlex : json.lex_string (S (String.length (k +:+ String dquote (String ":" sv))))
                                 (k +:+ String dquote (String ":" sv))
                 = json.Parsed k (String ":" sv)).
  { pose proof (lex_quote (String.length k) k (String.length k)
                          (S (String.length (k +:+ String dquote (String ":" sv))))
                          (String ":" sv) Hvalid (le_n _)) as Hq.
    rewrite Hk in Hq. apply Hq. rewrite string_length_app. lia. }
  rewrite Hlex.
  change (json.skip_ws (String ":" sv)) with (String ":" sv). cbv iota zeta.
  rewrite Hskip, Hv. reflexivity.
Qed.

Lemma envelope_text (st v : string) :
  json.marshal_object [("status", json.appendString st); ("content", v)]
  = String "{" (quoted "status" +:+ String ":"
                  (json.appendString st +:+ String ","
                     (quoted "content" +:+ String ":" (v +:+ "}")))).
Proof.
  unfold json.marshal_object, json.join_members.
  repeat first [rewrite string_app_assoc | progress cbn [append]]. reflexivity.
Qed.

(** The text of an envelope whose content is the text of any one JSON
    value is parsed as an object of the two members, the content with its
    very bytes. *)
Lemma parse_envelope (st v : string) (x : json.value) :
  utf8.ValidString st = true -> json.value_text 1 v x ->
  json.parse (json.marshal_object [("status", json.appendString st); ("content", v)])
  = Some (json.JObject [ ("status", json.appendString st, json.JString st);
                         ("content", v, x) ]).
Proof.
  intros Hst Hv. unfold json.value_text in Hv.
  rewrite envelope_text. unfold json.parse.
  set (body := String "{" _).
  assert (Hskip : json.skip_ws body = body) by reflexivity. rewrite Hskip.
  assert (Hlen : (String.length v + 3 <= String.length body)%nat).
  { unfold body, quoted.
    repeat first [progress cbn [String.length append] | rewrite string_length_app]. lia. }
  replace (2 * String.length body + 1)%nat
    with (S (S (S (S (2 * String.length body + 1 - 4)))))%nat by lia.
  set (fuel := (2 * String.length body + 1 - 4)%nat).
  assert (Hfuel : (2 * String.length v + 1 <= fuel)%nat) by (unfold fuel; lia).
  clearbody fuel. unfold body. clear body Hskip Hlen.
  change (json.parse_value (S (S (S (S fuel)))) 0 (String "{" ?r))
    with (json.parse_members (S (S (S fuel))) 1 r []).
  rewrite (parse_members_member (S (S fuel)) 1 "status" _ _ (json.JString st) []
             eq_refl eq_refl eq_refl (parse_value_string (S fuel) 1 st _ Hst)).
  change (json.skip_ws (String "," ?r)) with (String "," r). cbv iota.
  change (json.skip_ws (quoted "content" +:+ ?r)) with (quoted "content" +:+ r).
  rewrite consumed_app.
  pose proof (proj1 (parse_ext EmptyString _) 1 v x EmptyString (S fuel) Hv ltac:(lia)) as Hx.
  cbn [append] in Hx.
  rewrite (parse_members_member (S fuel) 1 "content" (v +:+ "}") "}" x _
             eq_refl eq_refl (skip_ws_value _ _ _ _ _ _ Hv) Hx).
  change (json.skip_ws "}") with "}". cbv iota.
  rewrite consumed_app. reflexivity.
Qed.

Lemma Unmarshal_envelope (st v : string) (x : json.value) :
  utf8.ValidString st = true -> json.value_text 1 v x ->
  Unmarshal_responseBody
    (json.marshal_object [("status", json.appendString st); ("content", v)])
  = inr {| Status := st; rbContent := Some v |}.
Proof.
  intros Hst Hv. unfold Unmarshal_responseBody, json.Unmarshal_struct.
  rewrite (parse_envelope st v x Hst Hv). reflexivity.
Qed.

Lemma marshal_object_not_empty (ms : list (string * string)) :
  (String.length (json.marshal_object ms) =? 0)%nat = false.
Proof. reflexivity. Qed.

(** The content of a success is handed on byte for byte.  When the body
    is an envelope whose status is any text but [error] and whose content
    is the text [v] of one JSON value, of whatever kind and size,
    [request] returns [v] itself, not a re-encoding of it, with the
    headers of the response, for every status code below 500. *)
Theorem request_passes_content `{NewRequestError} (c : Client) (method path : string)
        (session : SessionID) (body : option string) (res : http.Response)
        (w : list http.Request) (st v : string) (x : json.value) :
  answered c method path session body res ->
  http.StatusCode res < 500 ->
  http.data (http.Body res)
  = json.marshal_object [("status", json.appendString st); ("content", v)] ->
  utf8.ValidString st = true -> st <> "error" ->
  json.value_text 1 v x ->
  request c method path session body w
  = (Ok {| Content := Some v; Header := http.Header res |},
     w ++ [new_request c method path session body]).
Proof.
  intros Hans Hcode Hdata Hst Hne Hv.
  rewrite (request_answered c method path session body res w Hans).
  destruct Hans as (_ & _ & Hread & _).
  unfold classify. rewrite Hread, Hdata. cbv zeta.
  rewrite marshal_object_not_empty.
  destruct (Z.leb_spec http.StatusInternalServerError (http.StatusCode res)) as [Hge|_];
    [unfold http.StatusInternalServerError in Hge; lia|].
  rewrite (Unmarshal_envelope st v x Hst Hv). cbn [Status rbContent].
  destruct (String.eqb_spec st "error") as [|_]; [contradiction|]. reflexivity.
Qed.

Lemma request_passes_content_witness :
  let text := json_text "{'games':[{'id':1,'tiles':[[7,7,'A',false]]}],'n':-1.5e3}" in
  let res := {| http.StatusCode := 404; http.Header := empty;
                http.Body :=
                  {| http.data := json.marshal_object [("status", quoted "success");
                                                       ("content", text)];
                     http.read_err := None; http.close_err := None |} |} in
  let c := {| cl := fun _ => inr res; baseURL := "https://game.wordfeud.com/wf" |} in
  fst (@request (fun _ _ => None) c "GET" "/user/games" "s" None [])
  = Ok {| Content := Some text; Header := empty |}.
Proof.
  intros text res c.
  assert (Hx : exists x, json.value_text 1 text x).
  { unfold json.value_text.
    destruct (json.parse_value (2 * String.length text + 1) 1 text) as [x rest| |] eqn:E.
    - exists x. revert E. vm_compute. intros E. injection E as <- <-. reflexivity.
    - vm_compute in E. discriminate E.
    - vm_compute in E. discriminate E. }
  destruct Hx as (x & Hx).
  rewrite (@request_passes_content (fun _ _ => None) c "GET" "/user/games" "s" None res []
             "success" text x); [reflexivity| | | | | |exact Hx].
  - repeat split.
  - reflexivity.
  - reflexivity.
  - reflexivity.
  - discriminate.
Defined.

Lemma error_text (ty msg : string) :
  json.marshal_object [("type", json.appendString ty); ("message", json.appendString msg)]
  = String "{" (quoted "type" +:+ String ":"
                  (json.appendString ty +:+ String ","
                     (quoted "message" +:+ String ":" (json.appendString msg +:+ "}")))).
Proof.
  unfold json.marshal_object, json.join_members.
  repeat first [rewrite string_app_assoc | progress cbn [append]]. reflexivity.
Qed.

Lemma parse_error_object (fuel : nat) (depth : Z) (ty msg : string) :
  utf8.ValidString ty = true -> utf8.ValidString msg = true ->
  (json.maxNestingDepth <? depth + 1) = false ->
  json.parse_value (S (S (S (S fuel)))) depth
    (json.marshal_object [("type", json.appendString ty); ("message", json.appendString msg)])
  = json.Parsed (json.JObject [ ("type", json.appendString ty, json.JString ty);
                                ("message", json.appendString msg, json.JString msg) ])
                EmptyString.
Proof.
  intros Hty Hmsg Hdepth. rewrite error_text.
  assert (Hopen : forall r,
             json.parse_value (S (S (S (S fuel)))) depth (String "{" (quoted "type" +:+ r))
             = json.parse_members (S (S (S fuel))) (depth + 1) (quoted "type" +:+ r) []).
  { intros r. cbn [json.parse_value]. cbv zeta.
    change (byte_val "{" =? 123) with true. cbv iota. rewrite Hdepth. reflexivity. }
  rewrite Hopen.
  rewrite (parse_members_member (S (S fuel)) (depth + 1) "type" _ _ (json.JString ty) []
             eq_refl eq_refl eq_refl (parse_value_string (S fuel) _ ty _ Hty)).
  change (json.skip_ws (String "," ?r)) with (String "," r). cbv iota.
  change (json.skip_ws (quoted "message" +:+ ?r)) with (quoted "message" +:+ r).
  rewrite consumed_app.
  rewrite (parse_members_member (S fuel) (depth + 1) "message" _ _ (json.JString msg) _
             eq_refl eq_refl eq_refl (parse_value_string fuel _ msg _ Hmsg)).
  change (json.skip_ws "}") with "}". cbv iota.
  rewrite consumed_app. reflexivity.
Qed.

Lemma error_object_length (ty msg : string) :
  (4 <= String.length
          (json.marshal_object [("type", json.appendString ty);
                                ("message", json.appendString msg)]))%nat.
Proof.
  rewrite error_text. unfold quoted.
  repeat first [progress cbn [String.length append] | rewrite string_length_app]. lia.
Qed.

Lemma error_object_value (depth : Z) (ty msg : string) :
  utf8.ValidString ty = true -> utf8.ValidString msg = true ->
  (json.maxNestingDepth <? depth + 1) = false ->
  json.value_text depth
    (json.marshal_object [("type", json.appendString ty); ("message", json.appendString msg)])
    (json.JObject [ ("type", json.appendString ty, json.JString ty);
                    ("message", json.appendString msg, json.JString msg) ]).
Proof.
  intros Hty Hmsg Hdepth. unfold json.value_text.
  pose proof (error_object_length ty msg) as Hlen.
  set (v := json.marshal_object _) in *.
  replace (2 * String.length v + 1)%nat
    with (S (S (S (S (2 * String.length v + 1 - 4)))))%nat by lia.
  now apply parse_error_object.
Qed.

Lemma Unmarshal_error_object (ty msg : string) :
  utf8.ValidString ty = true -> utf8.ValidString msg = true ->
  Unmarshal_apiError
    (json.marshal_object [("type", json.appendString ty); ("message", json.appendString msg)])
  = inr (Some {| Type_ := ty; Message := msg |}).
Proof.
  intros Hty Hmsg. unfold Unmarshal_apiError, json.Unmarshal_struct_ptr, json.parse.
  assert (Hskip : forall ms, json.skip_ws (json.marshal_object ms) = json.marshal_object ms)
    by reflexivity.
  rewrite Hskip.
  pose proof (error_object_value 0 ty msg Hty Hmsg eq_refl) as Hv.
  unfold json.value_text in Hv. rewrite Hv. reflexivity.
Qed.

(** An error of the server, as the server writes it, is classified
    whatever its texts are.  When the body is an envelope of status
    [error] whose content is an object of a type and a message, any two
    texts that are valid UTF-8, [request] fails, for every status code
    below 500, with the sentinel of that type if it is one of the
    seventeen, and otherwise with the descriptor of these very texts. *)
Theorem request_error_text `{NewRequestError} (c : Client) (method path : string)
        (session : SessionID) (body : option string) (res : http.Response)
        (w : list http.Request) (ty msg : string) :
  answered c method path session body res ->
  http.StatusCode res < 500 ->
  http.data (http.Body res)
  = json.marshal_object
      [ ("status", quoted "error");
        ("content", json.marshal_object [ ("type", json.appendString ty);
                                          ("message", json.appendString msg) ]) ] ->
  utf8.ValidString ty = true -> utf8.ValidString msg = true ->
  exists err : error,
    request c method path session body w
    = (Err err, w ++ [new_request c method path session body])
    /\ (forall s, ty = Sentinel_text s -> err = sentinel s)
    /\ ((forall s, ty <> Sentinel_text s) -> err = api {| Type_ := ty; Message := msg |}).
Proof.
  intros Hans Hcode Hdata Hty Hmsg.
  rewrite (request_answered c method path session body res w Hans).
  destruct Hans as (_ & _ & Hread & _).
  unfold classify. rewrite Hread, Hdata. cbv zeta.
  rewrite marshal_object_not_empty.
  destruct (Z.leb_spec http.StatusInternalServerError (http.StatusCode res)) as [Hge|_];
    [unfold http.StatusInternalServerError in Hge; lia|].
  change (quoted "error") with (json.appendString "error").
  rewrite (Unmarshal_envelope "error" _ _ eq_refl (error_object_value 1 ty msg Hty Hmsg eq_refl)).
  cbn [Status rbContent bytes_of]. change (String.eqb "error" "error") with true. cbv iota.
  rewrite (Unmarshal_error_object ty msg Hty Hmsg).
  destruct (convertToSentinel_classifies_aux {| Type_ := ty; Message := msg |})
    as [(s & Hs & Ht)|(Ha & Hn)].
  - rewrite Hs. exists (sentinel s). split; [reflexivity|]. split.
    + intros s' Hs'. cbn [Type_] in Ht. rewrite Hs' in Ht.
      now rewrite (Sentinel_text_inj _ _ Ht).
    + intros Hnone. cbn [Type_] in Ht. now destruct (Hnone s).
  - rewrite Ha. exists (api {| Type_ := ty; Message := msg |}). split; [reflexivity|]. split.
    + intros s Hs. cbn [Type_] in Hn. now destruct (Hn s).
    + reflexivity.
Qed.

Lemma request_error_text_witness :
  let res := {| http.StatusCode := 200; http.Header := empty;
                http.Body :=
                  {| http.data :=
                       json_text "{'status':'error','content':{'type':'maintenance','message':'back at 5'}}";
                     http.read_err := None; http.close_err := None |} |} in
  let c := {| cl := fun _ => inr res; baseURL := "https://game.wordfeud.com/wf" |} in
  fst (@request (fun _ _ => None) c "GET" "/user/games" "s" None [])
  = Err (api {| Type_ := "maintenance"; Message := "back at 5" |}).
Proof.
  intros res c.
  destruct (@request_error_text (fun _ _ => None) c "GET" "/user/games" "s" None res []
              "maintenance" "back at 5") as (err & Hr & _ & Hother).
  - repeat split.
  - reflexivity.
  - reflexivity.
  - reflexivity.
  - reflexivity.
  - rewrite Hr. cbn [fst]. f_equal. apply Hother.
    intros s. destruct s; discriminate.
Defined.


(** ** More on what [request] makes of a body *)

(** A body that is not the text of a JSON object: a text that is not JSON
    and a JSON value of another kind give the error of decoding, which
    names the status code; the body [null] is no error at all but a
    success without content. *)
Theorem request_body_kinds `{NewRequestError} (c : Client) (method path : string)
        (session : SessionID) (body : option string) (res : http.Response)
        (w : list http.Request) :
  answered c method path session body res ->
  http.data (http.Body res) <> EmptyString ->
  http.StatusCode res < 500 ->
  let code := itoa (http.StatusCode res) in
  let sent := w ++ [new_request c method path session body] in
  (json.parse (http.data (http.Body res)) = None ->
   request c method path session body w
   = (Err (errorf_v ("unmarshalling response body (status code " +:+ code +:+ "): ")
                    (json_error json.SyntaxError)), sent))
  /\ (forall v, json.parse (http.data (http.Body res)) = Some v ->
                match v with json.JNull | json.JObject _ => False | _ => True end ->
                request c method path session body w
                = (Err (errorf_v
                          ("unmarshalling response body (status code " +:+ code +:+ "): ")
                          (json_error
                             (json.UnmarshalTypeError
                                (json.kind_of v)
                                "struct { Status string; Content json.RawMessage }"))),
                   sent))
  /\ (json.parse (http.data (http.Body res)) = Some json.JNull ->
      request c method path session body w
      = (Ok {| Content := None; Header := http.Header res |}, sent)).
Proof.
  intros Hans Hdata Hcode code sent.
  rewrite (request_answered c method path session body res w Hans).
  destruct Hans as (_ & _ & Hread & _).
  unfold classify. rewrite Hread. cbv zeta.
  destruct (string_length_zero (http.data (http.Body res))) as [Hz _].
  destruct (String.length (http.data (http.Body res)) =? 0)%nat;
    [now destruct (Hdata (Hz eq_refl))|].
  destruct (Z.leb_spec http.StatusInternalServerError (http.StatusCode res)) as [Hge|_];
    [unfold http.StatusInternalServerError in Hge; lia|].
  unfold Unmarshal_responseBody, json.Unmarshal_struct. repeat split.
  - now intros ->.
  - intros v -> Hv. destruct v; try contradiction; reflexivity.
  - now intros ->.
Qed.

Lemma request_body_kinds_witness :
  let res := {| http.StatusCode := 404; http.Header := empty;
                http.Body := {| http.data := "<html>Not Found</html>";
                                http.read_err := None; http.close_err := None |} |} in
  let c := {| cl := fun _ => inr res; baseURL := "https://game.wordfeud.com/wf" |} in
  fst (@request (fun _ _ => None) c "GET" "/user/games" "s" None [])
  = Err (errorf_v "unmarshalling response body (status code 404): "
                  (json_error json.SyntaxError)).
Proof.
  intros res c.
  rewrite (proj1 (@request_body_kinds (fun _ _ => None) c "GET" "/user/games" "s" None res []
                    ltac:(repeat split) ltac:(discriminate) ltac:(reflexivity)));
    reflexivity.
Defined.

(** An envelope of status [error] that describes no error.  When its
    content is [null], decoding leaves the descriptor nil and
    [convertToSentinel] reads through the nil pointer: [request] panics.
    When it has no content at all, there is nothing to decode and
    [request] fails with the error of decoding. *)
Theorem request_error_without_descriptor `{NewRequestError} (c : Client)
        (method path : string) (session : SessionID) (body : option string)
        (res : http.Response) (w : list http.Request) :
  answered c method path session body res ->
  http.StatusCode res < 500 ->
  let sent := w ++ [new_request c method path session body] in
  (http.data (http.Body res)
   = json.marshal_object [("status", quoted "error"); ("content", "null")] ->
   request c method path session body w = (Panic NilPointerDereference, sent))
  /\ (http.data (http.Body res) = json.marshal_object [("status", quoted "error")] ->
      request c method path session body w
      = (Err (errorf_v ("unmarshalling error response (status code "
                          +:+ itoa (http.StatusCode res) +:+ "): ")
                       (json_error json.SyntaxError)), sent)).
Proof.
  intros Hans Hcode sent.
  rewrite (request_answered c method path session body res w Hans).
  destruct Hans as (_ & _ & Hread & _).
  unfold classify. rewrite Hread. cbv zeta.
  destruct (Z.leb_spec http.StatusInternalServerError (http.StatusCode res)) as [Hge|_];
    [unfold http.StatusInternalServerError in Hge; lia|].
  split; intros ->; reflexivity.
Qed.

Lemma request_error_without_descriptor_witness :
  let res := {| http.StatusCode := 200; http.Header := empty;
                http.Body := {| http.data := json_text "{'status':'error','content':null}";
                                http.read_err := None; http.close_err := None |} |} in
  let c := {| cl := fun _ => inr res; baseURL := "https://game.wordfeud.com/wf" |} in
  fst (@request (fun _ _ => None) c "GET" "/user/games" "s" None [])
  = Panic NilPointerDereference.
Proof.
  intros res c.
  rewrite (proj1 (@request_error_without_descriptor (fun _ _ => None) c "GET" "/user/games"
                    "s" None res [] ltac:(repeat split) ltac:(reflexivity)));
    reflexivity.
Defined.

(** [roundtrip] decodes exactly the bytes of the content: on an envelope
    of a status other than [error] whose content is the text [v] of a
    JSON value, the result is what the decoder of the result type makes
    of [v], its error wrapped, for every status code below 500. *)
Theorem roundtrip_envelope {B C : Type} `{NewRequestError} `{Marshaler B} `{Unmarshaler C}
        (c : Client) (method path : string) (session : SessionID) (body : option B)
        (b : option string) (res : http.Response) (w : list http.Request)
        (st v : string) (x : json.value) :
  marshalled body b ->
  answered c method path session b res ->
  http.StatusCode res < 500 ->
  http.data (http.Body res)
  = json.marshal_object [("status", json.appendString st); ("content", v)] ->
  utf8.ValidString st = true -> st <> "error" ->
  json.value_text 1 v x ->
  fst (roundtrip (C := C) c method path session body w)
  = match Unmarshal v with
    | Ok t => Ok t
    | Err e => Err (errorf_v "unmarshalling response body: " e)
    | Panic p => Panic p
    end.
Proof.
  intros Hb Hans Hcode Hdata Hst Hne Hv.
  pose proof (request_answered c method path session b res w Hans) as Hreq.
  assert (Hcl : classify res = Ok {| Content := Some v; Header := http.Header res |}).
  { destruct Hans as (_ & _ & Hread & _).
    unfold classify. rewrite Hread, Hdata. cbv zeta.
    rewrite marshal_object_not_empty.
    destruct (Z.leb_spec http.StatusInternalServerError (http.StatusCode res)) as [Hge|_];
      [unfold http.StatusInternalServerError in Hge; lia|].
    rewrite (Unmarshal_envelope st v x Hst Hv). cbn [Status rbContent].
    destruct (String.eqb_spec st "error") as [|_]; [contradiction|]. reflexivity. }
  rewrite Hcl in Hreq.
  unfold roundtrip, bind.
  assert (Hpre : match body with
                 | None => ret None
                 | Some v0 =>
                   match Marshal v0 with
                   | inl e => fail (errorf_v "marshalling request body: " (json_error e))
                   | inr bs => ret (Some bs)
                   end
                 end w = (Ok b, w)).
  { destruct body as [v0|]; simpl in Hb.
    - destruct Hb as (bs & Hm & ->). now rewrite Hm.
    - now subst b. }
  rewrite Hpre, Hreq. cbn [Content].
  destruct (Unmarshal v); reflexivity.
Qed.

Lemma roundtrip_envelope_witness :
  let res := {| http.StatusCode := 200; http.Header := empty;
                http.Body := {| http.data := json_text "{'status':'success','content':[7,5,'H',false]}";
                                http.read_err := None; http.close_err := None |} |} in
  let c := {| cl := fun _ => inr res; baseURL := "https://game.wordfeud.com/wf" |} in
  fst (@roundtrip NoBody Placement (fun _ _ => None) _ Placement_UnmarshalJSON
                  c "GET" "/game/1" "s" None [])
  = Ok (Place 7 5 "H" false).
Proof.
  intros res c.
  rewrite (@roundtrip_envelope NoBody Placement (fun _ _ => None) _ Placement_UnmarshalJSON
             c "GET" "/game/1" "s" None None res [] "success"
             (json_text "[7,5,'H',false]")
             (json.JArray [json.JNumber "7"; json.JNumber "5"; json.JString "H";
                           json.JBool false])).
  - vm_compute. reflexivity.
  - reflexivity.
  - repeat split.
  - reflexivity.
  - reflexivity.
  - reflexivity.
  - discriminate.
  - vm_compute. reflexivity.
Defined.

(** ** Logging in *)

(** What a login returns depends on the envelope and the cookie alone.
    When the server answers with an envelope of a status other than
    [error], whatever its content, and a first [Set-Cookie] line that
    holds the session, the login returns that session, whatever lines
    follow; when the envelope
    is the error [wrong_password], it fails with [ErrWrongPassword], also
    at status 200 and also if a cookie is set. *)
Theorem LoginWithEmail_outcomes `{NewRequestError} (c : Client) (email password : string)
        (res : http.Response) (w : list http.Request) :
  (forall method url, NewRequest_error method url = None) ->
  (forall req, cl c req = inr res) ->
  http.read_err (http.Body res) = None -> http.close_err (http.Body res) = None ->
  http.StatusCode res < 500 ->
  (forall st v x s tail more,
      http.data (http.Body res)
      = json.marshal_object [("status", json.appendString st); ("content", v)] ->
      utf8.ValidString st = true -> st <> "error" -> json.value_text 1 v x ->
      http.Header res !! "Set-Cookie" = Some ((SessionID_cookie s +:+ tail) :: more) ->
      s <> EmptyString -> all_bytes value_byte s = true -> value_end tail ->
      fst (LoginWithEmail c email password w) = Ok s)
  /\ (forall msg,
         http.data (http.Body res)
         = json.marshal_object
             [ ("status", quoted "error");
               ("content", json.marshal_object [ ("type", quoted "wrong_password");
                                                 ("message", json.appendString msg) ]) ] ->
         utf8.ValidString msg = true ->
         fst (LoginWithEmail c email password w) = Err (sentinel ErrWrongPassword)).
Proof.
  intros Hnew Hdo Hread Hclose Hcode.
  assert (Hreq : forall body,
             request c http.MethodPost "/user/login/email" EmptyString body w
             = (classify res,
                w ++ [new_request c http.MethodPost "/user/login/email" EmptyString body])).
  { intros body. apply request_answered. repeat split; auto. }
  assert (Hcode' : (http.StatusInternalServerError <=? http.StatusCode res) = false)
    by (apply Z.leb_gt; unfold http.StatusInternalServerError; lia).
  split.
  - intros st v x s tail more Hdata Hst Hne Hv Hcookie Hs Hbytes Htail.
    unfold LoginWithEmail, marshalling, Marshal_LoginWithEmailBody, bind, lift.
    rewrite Hreq. unfold classify. rewrite Hread, Hdata. cbv zeta.
    rewrite marshal_object_not_empty, Hcode', (Unmarshal_envelope st v x Hst Hv).
    cbn [Status rbContent].
    destruct (String.eqb_spec st "error") as [|_]; [contradiction|].
    cbn [fst].
    rewrite (first_line_aux _ None _ _ more Hcookie).
    now apply session_cookie_aux.
  - intros msg Hdata Hmsg.
    unfold LoginWithEmail, marshalling, Marshal_LoginWithEmailBody, bind, lift.
    rewrite Hreq. unfold classify. rewrite Hread, Hdata. cbv zeta.
    rewrite marshal_object_not_empty, Hcode'.
    change (quoted "error") with (json.appendString "error").
    change (quoted "wrong_password") with (json.appendString "wrong_password").
    rewrite (Unmarshal_envelope "error" _ _ eq_refl
               (error_object_value 1 "wrong_password" msg eq_refl Hmsg eq_refl)).
    cbn [Status rbContent bytes_of]. change (String.eqb "error" "error") with true. cbv iota.
    rewrite (Unmarshal_error_object "wrong_password" msg eq_refl Hmsg).
    reflexivity.
Qed.

Lemma LoginWithEmail_outcomes_witness :
  let res := {| http.StatusCode := 200;
                http.Header := {[ "Set-Cookie" := ["sessionid=abc123; httponly; Path=/"] ]};
                http.Body := {| http.data := json_text "{'status':'success','content':{'id':7}}";
                                http.read_err := None; http.close_err := None |} |} in
  let c := {| cl := fun _ => inr res; baseURL := "https://game.wordfeud.com/wf" |} in
  fst (@LoginWithEmail (fun _ _ => None) c "user@example.com" "password" []) = Ok "abc123".
Proof.
  intros res c.
  apply (proj1 (@LoginWithEmail_outcomes (fun _ _ => None) c "user@example.com" "password"
                  res [] (fun _ _ => eq_refl) (fun _ => eq_refl) eq_refl eq_refl
                  ltac:(reflexivity))
               "success" (json_text "{'id':7}")
               (json.JObject [("id", "7", json.JNumber "7")]) "abc123" "; httponly; Path=/"
               []).
  - reflexivity.
  - reflexivity.
  - discriminate.
  - vm_compute. reflexivity.
  - apply lookup_singleton_eq.
  - discriminate.
  - reflexivity.
  - right. now exists " httponly; Path=/".
Defined.

(** [CreateAccount] decodes the account before it looks for the session.
    On an envelope of a status other than [error] with the content [v]:
    if [v] does not decode, the call fails with that error, whether or not
    a cookie is set; if it decodes, the call returns the account and the
    session of the first [Set-Cookie] line, and fails when the response
    has no such line. *)
Theorem CreateAccount_outcomes {Login : Type} `{NewRequestError} `{Unmarshaler Login}
        (c : Client) (username email password : string) (res : http.Response)
        (w : list http.Request) (st v : string) (x : json.value) :
  (forall method url, NewRequest_error method url = None) ->
  (forall req, cl c req = inr res) ->
  http.read_err (http.Body res) = None -> http.close_err (http.Body res) = None ->
  http.StatusCode res < 500 ->
  http.data (http.Body res)
  = json.marshal_object [("status", json.appendString st); ("content", v)] ->
  utf8.ValidString st = true -> st <> "error" -> json.value_text 1 v x ->
  (forall e, Unmarshal (C := Login) v = Err e ->
             fst (CreateAccount (Login := Login) c username email password w)
             = Err (errorf_v "unmarshalling response: " e))
  /\ (forall login s tail more,
         Unmarshal v = Ok login ->
         http.Header res !! "Set-Cookie" = Some ((SessionID_cookie s +:+ tail) :: more) ->
         s <> EmptyString -> all_bytes value_byte s = true -> value_end tail ->
         fst (CreateAccount (Login := Login) c username email password w) = Ok (login, s))
  /\ (forall login : Login,
         Unmarshal v = Ok login ->
         http.Header res !! "Set-Cookie" = None ->
         fst (CreateAccount (Login := Login) c username email password w)
         = Err (errorf "cookie not found in response")).
Proof.
  intros Hnew Hdo Hread Hclose Hcode Hdata Hst Hne Hv.
  assert (Hreq : forall body,
             request c http.MethodPost "/user/create" EmptyString body w
             = (Ok {| Content := Some v; Header := http.Header res |},
                w ++ [new_request c http.MethodPost "/user/create" EmptyString body])).
  { intros body. rewrite (request_answered c _ _ _ body res w) by (repeat split; auto).
    f_equal. unfold classify. rewrite Hread, Hdata. cbv zeta.
    rewrite marshal_object_not_empty.
    destruct (Z.leb_spec http.StatusInternalServerError (http.StatusCode res)) as [Hge|_];
      [unfold http.StatusInternalServerError in Hge; lia|].
    rewrite (Unmarshal_envelope st v x Hst Hv). cbn [Status rbContent].
    destruct (String.eqb_spec st "error") as [|_]; [contradiction|]. reflexivity. }
  unfold CreateAccount, marshalling, Marshal_CreateAccountBody, bind.
  rewrite Hreq. cbn [Content bytes_of].
  split; [|split].
  - intros e ->. reflexivity.
  - intros login s tail more -> Hcookie Hs Hbytes Htail. unfold lift, ret.
    rewrite (first_line_aux _ None _ _ more Hcookie).
    now rewrite (session_cookie_aux None s tail Hs Hbytes Htail).
  - intros login -> Hnone. unfold lift, extractSessionID, http.Get. cbn [Header].
    now rewrite Hnone.
Qed.

Lemma CreateAccount_outcomes_witness :
  let res := {| http.StatusCode := 200; http.Header := empty;
                http.Body := {| http.data := json_text "{'status':'success','content':123}";
                                http.read_err := None; http.close_err := None |} |} in
  let c := {| cl := fun _ => inr res; baseURL := "https://game.wordfeud.com/wf" |} in
  fst (@CreateAccount Timestamp (fun _ _ => None) Timestamp_UnmarshalJSON
                      c "name" "user@example.com" "password" [])
  = Err (errorf "cookie not found in response").
Proof.
  intros res c.
  apply (proj2 (proj2 (@CreateAccount_outcomes
                         Timestamp (fun _ _ => None) Timestamp_UnmarshalJSON
                         c "name" "user@example.com" "password" res [] "success" "123"
                         (json.JNumber "123") (fun _ _ => eq_refl) (fun _ => eq_refl)
                         eq_refl eq_refl ltac:(reflexivity) eq_refl eq_refl
                         ltac:(discriminate) ltac:(vm_compute; reflexivity)))
               {| Time := {| time.sec := 123; time.nsec := 0 |} |}).
  - vm_compute. reflexivity.
  - reflexivity.
Defined.

(** ** The order of the placements *)

(** Whether a move is accepted does not depend on the order in which its
    placements are given. *)
Theorem uniqueSquares_permutation (l l' : list Placement) :
  Permutation l l' -> uniqueSquares l = uniqueSquares l'.
Proof.
  intros Hp.
  assert (Himp : forall a b : list Placement,
             Permutation a b -> uniqueSquares a = true -> uniqueSquares b = true).
  { intros a b Hab Ha. apply uniqueSquares_spec in Ha as [Hnd Hz].
    apply uniqueSquares_spec. split.
    - now rewrite <- (Permutation_map square Hab).
    - intros pl Hpl. apply Hz. now rewrite Hab. }
  destruct (uniqueSquares l) eqn:E1, (uniqueSquares l') eqn:E2; try reflexivity.
  - now rewrite (Himp l l' Hp E1) in E2.
  - symmetry in Hp. now rewrite (Himp l' l Hp E2) in E1.
Qed.

Lemma uniqueSquares_permutation_witness :
  uniqueSquares [Place 7 5 "H" false; Place 7 6 "I" false]
  = uniqueSquares [Place 7 6 "I" false; Place 7 5 "H" false].
Proof.
  apply uniqueSquares_permutation. apply perm_swap.
Defined.
